(** * A shallow embedding of the YouTube-to-MP3 HTTP API

    Two server programs live in the repository: the basic server
    ([index.js]) and the optimized server (the second source file, with the
    metadata cache, the batch endpoint and the direct-link endpoint).  They are
    embedded in the modules [Basic] and [Optimized]; what both share (JavaScript
    strings, the regular expressions used, [Map], the response object, the
    external collaborators) comes first. *)

From Stdlib Require Import ZArith NArith String Ascii Bool Lia.
From stdpp Require Import base decidable option numbers list.

Local Open Scope string_scope.
Local Open Scope list_scope.
Local Open Scope Z_scope.
#[local] Set Warnings "-register-all".

(** ** JavaScript strings

    A JavaScript string is a sequence of UTF-16 code units; [length],
    [substring] and the regular expressions of the source (none has the [u]
    flag) all count code units. *)

Module Js.

Abbreviation jsstring := (list N).

(** String literals of the source, written as Rocq strings. *)
Fixpoint str (s : string) : jsstring :=
  match s with
  | EmptyString => []
  | String c rest => N_of_ascii c :: str rest
  end.

(** *** Character classes of the regular expressions *)

Definition between (lo hi c : N) : bool := ((lo <=? c) && (c <=? hi))%N.

Definition isDigit (c : N) : bool := between 48 57 c.
Definition isUpper (c : N) : bool := between 65 90 c.
Definition isLower (c : N) : bool := between 97 122 c.

(** [\w] is [[A-Za-z0-9_]]. *)
Definition isWord (c : N) : bool :=
  isUpper c || isLower c || isDigit c || (c =? 95)%N.

(** [\s]: the white space and line terminator code points of ECMAScript. *)
Definition isSpace (c : N) : bool :=
  between 9 13 c || (c =? 32)%N || (c =? 160)%N || (c =? 5760)%N
  || between 8192 8202 c || (c =? 8232)%N || (c =? 8233)%N
  || (c =? 8239)%N || (c =? 8287)%N || (c =? 12288)%N || (c =? 65279)%N.

Definition isHyphen (c : N) : bool := (c =? 45)%N.

(** *** [String.prototype.replace] with a global regular expression

    [s.replace(/[cls]/g, r)]: every code unit of the class is replaced. *)
Definition replaceAllClass (cls : N -> bool) (r s : jsstring) : jsstring :=
  flat_map (fun c => if cls c then r else [c]) s.

(** The longest prefix of [s] inside the class is what a greedy [[cls]+]
    consumes; [skipRun] is what is left after it. *)
Fixpoint skipRun (cls : N -> bool) (s : jsstring) : jsstring :=
  match s with
  | [] => []
  | c :: rest => if cls c then skipRun cls rest else s
  end.

(** [s.replace(/[cls]+/g, r)]: at each position a greedy match of one or more
    code units of the class is tried; a match is replaced by [r] and the scan
    goes on after it, otherwise the code unit is copied.  The scan visits at
    most [length s] positions, which is the fuel given. *)
Fixpoint replaceRunsFrom (fuel : nat) (cls : N -> bool) (r s : jsstring)
  : jsstring :=
  match fuel with
  | O => []
  | S fuel' =>
      match s with
      | [] => []
      | c :: rest =>
          if cls c then r ++ replaceRunsFrom fuel' cls r (skipRun cls rest)
          else c :: replaceRunsFrom fuel' cls r rest
      end
  end.

Definition replaceAllRuns (cls : N -> bool) (r s : jsstring) : jsstring :=
  replaceRunsFrom (length s) cls r s.

(** [/^[cls]{n}$/.test(s)]: exactly [n] code units of the class between the
    two anchors ([$] without the [m] flag only matches at the very end). *)
Fixpoint testExactly (n : nat) (cls : N -> bool) (s : jsstring) : bool :=
  match n, s with
  | O, [] => true
  | O, _ :: _ => false
  | S _, [] => false
  | S n', c :: rest => cls c && testExactly n' cls rest
  end.

(** *** [toLowerCase] and [substring]

    [toLowerCaseUnit] is the ASCII part of the Unicode lower-case mapping; the
    source only ever lower-cases strings of [[A-Za-z0-9_]] (lemmas
    [Optimized_lowercase_input_is_word] and [Basic_lowercase_input_is_word]),
    for which this is the whole of [toLowerCase]. *)
Definition toLowerCaseUnit (c : N) : N := if isUpper c then (c + 32)%N else c.

Definition toLowerCase (s : jsstring) : jsstring := map toLowerCaseUnit s.

(** [s.substring(0, n)]. *)
Definition substring0 (n : nat) (s : jsstring) : jsstring := take n s.

(** *** Scalar values and [parseInt]

    The values a metadata field can hold.  A JavaScript number is a double; the
    numbers met here are integers (bit rates, sample rates, sizes) and are
    kept as the integer they denote.  [JNum z] is the number value of the
    integer [z]: [z] itself when it is a double, the nearest double otherwise
    ([toDouble]). *)
Inductive JsVal :=
  | JUndefined
  | JNull
  | JNum (z : Z)
  | JStr (s : jsstring).

(** [infinity] is the first power of two beyond the finite doubles; it stands
    for [Infinity], and its opposite for [-Infinity], so that the order of [Z]
    is the order of the numbers. *)
Definition infinity : Z := 2 ^ 1024.

(** The number value of a mathematical integer: an integer of at most 53
    significant bits is a double; a longer one is rounded to 53 significant
    bits, to the nearest, to the even significand on a tie, and beyond the
    largest finite double it is an infinity. *)
Definition toDouble (z : Z) : Z :=
  let a := Z.abs z in
  let excess := Z.log2 a + 1 - 53 in
  if excess <=? 0 then z
  else
    let q := Z.shiftr a excess in
    let r := Z.land a (Z.ones excess) in
    let half := Z.shiftl 1 (excess - 1) in
    let q' := if (half <? r) || ((r =? half) && Z.odd q) then q + 1 else q in
    Z.sgn z * Z.min (Z.shiftl q' excess) infinity.

(** The largest power of ten that is at most [a], for [1 <= a]; the fuel is a
    bound on the number of decimal digits of [a]. *)
Fixpoint powerOfTenBelow (fuel : nat) (p a : Z) : Z :=
  match fuel with
  | O => p
  | S fuel' => if 10 * p <=? a then powerOfTenBelow fuel' (10 * p) a else p
  end.

(** The first digit of [String(a)] for a finite double [a] of at least
    [10 ^ 21], which is written in exponent notation with the shortest digit
    string that reads back as [a].  That digit is the first digit of [a]
    unless a one-digit multiple of a power of ten just above [a] reads back as
    [a] ([String(1e23)] is [1e+23] although the double lies below
    [10 ^ 23]). *)
Definition leadingDigit (a : Z) : Z :=
  let top := powerOfTenBelow (Z.to_nat (Z.log2 a)) 1 a in
  let q := a / top in
  if toDouble (10 * top) =? a then 1
  else if toDouble ((q + 1) * top) =? a then q + 1
  else q.

Definition digitValue (radix : Z) (c : N) : option Z :=
  let v :=
    if isDigit c then Some (Z.of_N c - 48)
    else if isLower c then Some (Z.of_N c - 97 + 10)
    else if isUpper c then Some (Z.of_N c - 65 + 10)
    else None in
  match v with
  | Some d => if d <? radix then Some d else None
  | None => None
  end.

(** The digits of the longest numeric prefix, accumulated left to right;
    [None] when there is no digit at all. *)
Fixpoint parseDigits (radix : Z) (acc : option Z) (s : jsstring) : option Z :=
  match s with
  | [] => acc
  | c :: rest =>
      match digitValue radix c with
      | Some d => parseDigits radix (Some (radix * default 0 acc + d)) rest
      | None => acc
      end
  end.

(** [parseInt(s)] of a string without a radix argument: leading white space is
    skipped, a sign is read, a [0x] prefix selects base 16, and the number is
    the number value of the integer the digits spell; [None] is [NaN]. *)
Definition parseIntString (s : jsstring) : option Z :=
  let s := skipRun isSpace s in
  let (sign, s) :=
    match s with
    | 45%N :: rest => (-1, rest)
    | 43%N :: rest => (1, rest)
    | _ => (1, s)
    end in
  let (radix, s) :=
    match s with
    | 48%N :: 120%N :: rest => (16, rest)
    | 48%N :: 88%N :: rest => (16, rest)
    | _ => (10, s)
    end in
  (fun v => toDouble (sign * v)) <$> parseDigits radix None s.

(** [parseInt(x)] of a number reads [String(x)]: the digits of [x] below
    [10 ^ 21], which give [x] back; the first digit of the exponent notation
    from there on; nothing of [Infinity]. *)
Definition parseIntNumber (z : Z) : option Z :=
  let d := toDouble z in
  let a := Z.abs d in
  if infinity <=? a then None
  else if a <? 10 ^ 21 then Some d
  else Some (Z.sgn d * leadingDigit a).

Definition parseInt (v : JsVal) : option Z :=
  match v with
  | JUndefined => None
  | JNull => None
  | JNum z => parseIntNumber z
  | JStr s => parseIntString s
  end.

(** [x || 0] for a number [x]: [NaN] and [0] are falsy. *)
Definition orZero (x : option Z) : Z := default 0 x.

End Js.
Import Js.

(** ** [Map]: insertion-ordered, one entry per key *)

Module JsMap.
Section WithValues.
Context {V : Type}.

Definition t := list (jsstring * V).

Definition empty : t := [].

Fixpoint get (k : jsstring) (m : t) : option V :=
  match m with
  | [] => None
  | (k', v) :: rest => if decide (k' = k) then Some v else get k rest
  end.

Definition has (k : jsstring) (m : t) : bool :=
  match get k m with Some _ => true | None => false end.

(** [set] of a key that is present replaces the value where the entry
    stands; a new key goes to the end. *)
Fixpoint set (k : jsstring) (v : V) (m : t) : t :=
  match m with
  | [] => [(k, v)]
  | (k', v') :: rest =>
      if decide (k' = k) then (k, v) :: rest else (k', v') :: set k v rest
  end.

Fixpoint delete (k : jsstring) (m : t) : t :=
  match m with
  | [] => []
  | (k', v') :: rest =>
      if decide (k' = k) then rest else (k', v') :: delete k rest
  end.

Definition keys (m : t) : list jsstring := map fst m.

Definition size (m : t) : nat := length m.

(** [m.keys().next().value]: the first key in insertion order. *)
Definition firstKey (m : t) : option jsstring := head (keys m).
End WithValues.
Arguments t : clear implicits.
End JsMap.

(** ** Data model *)

Inductive Json :=
  | JV (v : JsVal)
  | JBool (b : bool)
  | JArr (items : list Json)
  | JObj (fields : list (string * Json)).

Definition jstr (s : string) : Json := JV (JStr (str s)).

Record JsError := mkError { message : jsstring }.

(** The outcome of a promise, as [Promise.allSettled] reports it. *)
Inductive Settled (A : Type) :=
  | Fulfilled (value : A)
  | Rejected (reason : JsError).
Arguments Fulfilled {A} value.
Arguments Rejected {A} reason.

Record Format := mkFormat {
  itag : JsVal;
  container : JsVal;
  codecs : JsVal;
  audioBitrate : JsVal;
  audioSampleRate : JsVal;
  audioChannels : JsVal;
  contentLength : JsVal;
  qualityLabel : JsVal;
  fps : JsVal;
  bitrate : JsVal;
  url : JsVal
}.

Record VideoDetails := mkDetails {
  title : jsstring;
  authorName : jsstring;
  lengthSeconds : JsVal;
  viewCount : JsVal;
  description : option jsstring;
  thumbnails : Json;
  uploadDate : JsVal;
  category : JsVal
}.

Record VideoInfo := mkInfo {
  videoDetails : VideoDetails;
  formats : list Format
}.

Record CacheEntry := mkEntry {
  data : VideoInfo;
  timestamp : Z
}.

(** *** The transcoding job an endpoint pipes into its response *)

Inductive Signal := SIGKILL | SIGTERM.

Inductive Listener :=
  | KillTranscoder (sig : Signal).

Record TranscodeJob := mkJob {
  sourceUrl : jsstring;
  sourceHighWaterMark : option Z;
  jobAudioBitrate : option Z;
  jobAudioCodec : option string;
  jobOutputOptions : list string;
  onRequestClose : list Listener
}.

(** *** The response object *)

Record Res := mkRes {
  statusCode : Z;
  headers : list (string * jsstring);
  jsonBody : option Json;
  piped : option TranscodeJob
}.

Definition freshRes : Res :=
  {| statusCode := 200; headers := []; jsonBody := None; piped := None |}.

(** [res.set(obj)]: each field of [obj] replaces the header of that name. *)
Fixpoint setHeader (name : string) (value : jsstring)
  (hs : list (string * jsstring)) : list (string * jsstring) :=
  match hs with
  | [] => [(name, value)]
  | (n, v) :: rest =>
      if String.eqb n name then (name, value) :: rest
      else (n, v) :: setHeader name value rest
  end.

Definition setHeaders (new hs : list (string * jsstring))
  : list (string * jsstring) :=
  fold_left (fun acc nv => setHeader nv.1 nv.2 acc) new hs.

Fixpoint getHeader (name : string) (hs : list (string * jsstring))
  : option jsstring :=
  match hs with
  | [] => None
  | (n, v) :: rest => if String.eqb n name then Some v else getHeader name rest
  end.

(** ** External collaborators

    The resolver ([ytdl.getInfo], [ytdl.filterFormats]), the identifier
    generator and the JSON serializer of the web framework are not part of the
    repository.  The resolver is an oracle: its [n]-th call (counted from 0)
    takes [fst] milliseconds and settles as [snd].  [jsonHeaders] is what
    [res.json] does to the headers already set on the response. *)

Inductive FormatFilter := audioonly | videoonly.

Record Env := mkEnv {
  ytdl_getInfo : nat -> jsstring -> Z * Settled VideoInfo;
  ytdl_filterFormats : list Format -> FormatFilter -> list Format;
  uuidv4 : nat -> jsstring;
  jsonHeaders : list (string * jsstring) -> list (string * jsstring)
}.

(** ** Process state and the monad of request handlers *)

Inductive Effect :=
  | Resolve (url : jsstring)
  | CacheRead (key : jsstring)
  | CacheWrite (key : jsstring)
  | CacheDelete (key : jsstring)
  | CacheClear
  | Sleep (ms : Z).

Record State := mkState {
  clock : Z;
  videoInfoCache : JsMap.t CacheEntry;
  effects : list Effect;
  uuids : nat;
  res : Res
}.

Definition isResolve (e : Effect) : bool :=
  match e with Resolve _ => true | _ => false end.

Definition isSleep (e : Effect) : bool :=
  match e with Sleep _ => true | _ => false end.

(** How many resolver calls a run has made so far. *)
Definition resolverCalls (st : State) : nat :=
  length (filter (fun e => isResolve e = true) (effects st)).

Definition M (A : Type) : Type := State -> Settled A * State.

Definition ret {A} (a : A) : M A := fun st => (Fulfilled a, st).

Definition throw {A} (e : JsError) : M A := fun st => (Rejected e, st).

Definition bind {A B} (m : M A) (k : A -> M B) : M B :=
  fun st =>
    match m st with
    | (Fulfilled a, st') => k a st'
    | (Rejected e, st') => (Rejected e, st')
    end.

Definition tryCatch {A} (body : M A) (handler : JsError -> M A) : M A :=
  fun st =>
    match body st with
    | (Fulfilled a, st') => (Fulfilled a, st')
    | (Rejected e, st') => handler e st'
    end.

Declare Scope js_scope.
Delimit Scope js_scope with js.
Notation "x <- m ;; k" := (bind m (fun x => k))
  (at level 100, m at next level, right associativity) : js_scope.
Notation "m ;; k" := (bind m (fun _ => k))
  (at level 100, right associativity) : js_scope.
Local Open Scope js_scope.

Definition emit (e : Effect) : M unit :=
  fun st =>
    (Fulfilled tt,
     {| clock := clock st; videoInfoCache := videoInfoCache st;
        effects := effects st ++ [e]; uuids := uuids st; res := res st |}).

Definition advance (ms : Z) : M unit :=
  fun st =>
    (Fulfilled tt,
     {| clock := clock st + ms; videoInfoCache := videoInfoCache st;
        effects := effects st; uuids := uuids st; res := res st |}).

Definition dateNow : M Z := fun st => (Fulfilled (clock st), st).

Definition putCache (c : JsMap.t CacheEntry) : M unit :=
  fun st =>
    (Fulfilled tt,
     {| clock := clock st; videoInfoCache := c;
        effects := effects st; uuids := uuids st; res := res st |}).

Definition getCache : M (JsMap.t CacheEntry) :=
  fun st => (Fulfilled (videoInfoCache st), st).

Definition modifyRes (f : Res -> Res) : M unit :=
  fun st =>
    (Fulfilled tt,
     {| clock := clock st; videoInfoCache := videoInfoCache st;
        effects := effects st; uuids := uuids st; res := f (res st) |}).

Definition getRes : M Res := fun st => (Fulfilled (res st), st).

(** [await new Promise(resolve => setTimeout(resolve, ms))]. *)
Definition sleep (ms : Z) : M unit := emit (Sleep ms) ;; advance ms.

(** *** Operations on the cache, each one logged *)

Definition cacheGet (k : jsstring) : M (option CacheEntry) :=
  emit (CacheRead k) ;; c <- getCache ;; ret (JsMap.get k c).

Definition cacheHas (k : jsstring) : M bool :=
  emit (CacheRead k) ;; c <- getCache ;; ret (JsMap.has k c).

Definition cacheSet (k : jsstring) (e : CacheEntry) : M unit :=
  emit (CacheWrite k) ;; c <- getCache ;; putCache (JsMap.set k e c).

Definition cacheDelete (k : option jsstring) : M unit :=
  match k with
  | Some k => emit (CacheDelete k) ;; c <- getCache ;; putCache (JsMap.delete k c)
  | None => ret tt
  end.

Definition cacheSize : M nat := c <- getCache ;; ret (JsMap.size c).

Definition cacheFirstKey : M (option jsstring) :=
  c <- getCache ;; ret (JsMap.firstKey c).

(** *** Operations on the response *)

Definition resStatus (code : Z) : M unit :=
  modifyRes (fun r =>
    {| statusCode := code; headers := headers r;
       jsonBody := jsonBody r; piped := piped r |}).

Definition resSet (hs : list (string * jsstring)) : M unit :=
  modifyRes (fun r =>
    {| statusCode := statusCode r; headers := setHeaders hs (headers r);
       jsonBody := jsonBody r; piped := piped r |}).

Definition headersSent : M bool :=
  r <- getRes ;;
  ret (match jsonBody r with Some _ => true | None => false end).

Section WithEnv.
Variable env : Env.

Definition resJson (body : Json) : M unit :=
  modifyRes (fun r =>
    {| statusCode := statusCode r; headers := jsonHeaders env (headers r);
       jsonBody := Some body; piped := piped r |}).

Definition resPipe (job : TranscodeJob) : M unit :=
  modifyRes (fun r =>
    {| statusCode := statusCode r; headers := headers r;
       jsonBody := jsonBody r; piped := Some job |}).

(** *** The resolver

    [issueGetInfo] is the call of [ytdl.getInfo]: the request leaves and
    gets its number.  [awaitGetInfo] is the point where its promise
    settles. *)
Definition issueGetInfo (videoUrl : jsstring) : M nat :=
  fun st => (emit (Resolve videoUrl) ;; ret (resolverCalls st)) st.

Definition awaitGetInfo (n : nat) (videoUrl : jsstring) : M VideoInfo :=
  let (elapsed, outcome) := ytdl_getInfo env n videoUrl in
  advance elapsed ;;
  match outcome with
  | Fulfilled info => ret info
  | Rejected e => throw e
  end.

Definition ytdlGetInfo (videoUrl : jsstring) : M VideoInfo :=
  n <- issueGetInfo videoUrl ;; awaitGetInfo n videoUrl.

Definition nextUuid : M jsstring :=
  fun st =>
    (Fulfilled (uuidv4 env (uuids st)),
     {| clock := clock st; videoInfoCache := videoInfoCache st;
        effects := effects st; uuids := S (uuids st); res := res st |}).

(** A handler runs on a fresh response object; what it leaves there is the
    response, whatever value or exception it ends with. *)
Definition serve (handler : M unit) (st : State) : Res * State :=
  let st0 :=
    {| clock := clock st; videoInfoCache := videoInfoCache st;
       effects := effects st; uuids := uuids st; res := freshRes |} in
  let st' := snd (handler st0) in
  (res st', st').
End WithEnv.

Definition watchUrl (videoId : jsstring) : jsstring :=
  str "https://www.youtube.com/watch?v=" ++ videoId.

Definition errorBody (msg : string) : Json := JObj [("error", jstr msg)].

Definition errorWithDetails (msg : string) (error : JsError) : Json :=
  JObj [("error", jstr msg); ("details", JV (JStr (message error)))].

(** [arr.reduce(f)] without an initial value: the first element starts the
    accumulator; an empty array has no result (a [TypeError] in the source). *)
Definition reduce1 {A} (f : A -> A -> A) (l : list A) : option A :=
  match l with
  | [] => None
  | first :: rest => Some (fold_left f rest first)
  end.

(** ** The optimized server *)

Module Optimized.

Definition CACHE_TTL : Z := 10 * 60 * 1000.

Definition sanitizeFilename (filename : jsstring) : jsstring :=
  substring0 100
    (toLowerCase
       (replaceAllRuns (fun c => isHyphen c || isSpace c) (str "_")
          (replaceAllClass
             (fun c => negb (isWord c || isSpace c || isHyphen c)) []
             filename))).

Definition validateVideoId (videoId : jsstring) : bool :=
  testExactly 11
    (fun c => isLower c || isUpper c || isDigit c || (c =? 95)%N || isHyphen c)
    videoId.

(** The callback of [audioFormats.reduce] in the direct-link endpoint. *)
Definition betterOf (best current : Format) : Format :=
  let bestBitrate := orZero (parseInt (audioBitrate best)) in
  let currentBitrate := orZero (parseInt (audioBitrate current)) in
  if bestBitrate <? currentBitrate then current else best.

Definition bestFormat (audioFormats : list Format) : option Format :=
  reduce1 betterOf audioFormats.

Definition invalidIdBody : Json := errorBody "Invalid YouTube video ID format".

Definition downloadHeaders (sanitizedTitle : jsstring)
  : list (string * jsstring) :=
  [("Content-Type", str "audio/mpeg");
   ("Content-Disposition",
     str "attachment; filename=" ++ 34%N :: sanitizedTitle
       ++ str ".mp3" ++ [34%N]);
   ("Access-Control-Allow-Origin", str "*");
   ("Cache-Control", str "no-cache");
   ("Connection", str "keep-alive")].

Section WithEnv.
Variable env : Env.

(** [getCachedVideoInfo] up to its [await]: the lookup and the freshness
    test. *)
Definition lookupCached (videoId : jsstring) : M (option VideoInfo) :=
  let cacheKey := videoId in
  cached <- cacheGet cacheKey ;;
  now <- dateNow ;;
  match cached with
  | Some c =>
      if now - timestamp c <? CACHE_TTL then ret (Some (data c))
      else ret None
  | None => ret None
  end.

(** [getCachedVideoInfo] after its [await]: the store and the size check. *)
Definition storeResolved (videoId : jsstring) (videoInfo : VideoInfo)
  : M VideoInfo :=
  let cacheKey := videoId in
  now <- dateNow ;;
  cacheSet cacheKey {| data := videoInfo; timestamp := now |} ;;
  size <- cacheSize ;;
  (if (1000 <? size)%nat
   then oldestKey <- cacheFirstKey ;; cacheDelete oldestKey
   else ret tt) ;;
  ret videoInfo.

Definition getCachedVideoInfo (videoUrl videoId : jsstring) : M VideoInfo :=
  hit <- lookupCached videoId ;;
  match hit with
  | Some cachedData => ret cachedData
  | None =>
      videoInfo <- ytdlGetInfo env videoUrl ;;
      storeResolved videoId videoInfo
  end.

(** [GET /direct-link/:videoId].  [expiresAt] is kept as the instant in
    milliseconds, not as its ISO rendering. *)
Definition directLink (videoId : jsstring) : M unit :=
  tryCatch
    (if negb (validateVideoId videoId)
     then resStatus 400 ;; resJson env invalidIdBody
     else
       let videoUrl := watchUrl videoId in
       videoInfo <- getCachedVideoInfo videoUrl videoId ;;
       let audioFormats :=
         ytdl_filterFormats env (formats videoInfo) audioonly in
       match bestFormat audioFormats with
       | None =>
           resStatus 400 ;;
           resJson env (errorBody "No audio formats available for this video")
       | Some best =>
           now <- dateNow ;;
           resJson env
             (JObj
                [("status", jstr "success");
                 ("videoId", JV (JStr videoId));
                 ("title", JV (JStr (title (videoDetails videoInfo))));
                 ("author", JV (JStr (authorName (videoDetails videoInfo))));
                 ("duration", JV (lengthSeconds (videoDetails videoInfo)));
                 ("directUrl", JV (url best));
                 ("format",
                   JObj [("container", JV (container best));
                         ("codecs", JV (codecs best));
                         ("bitrate", JV (audioBitrate best));
                         ("sampleRate", JV (audioSampleRate best))]);
                 ("expiresAt", JV (JNum (now + 6 * 60 * 60 * 1000)));
                 ("note",
                   jstr "Use this URL directly in your media player or download client")])
       end)
    (fun error =>
       resStatus 500 ;;
       resJson env (errorWithDetails "Failed to get direct link" error)).

(** [req.query.bitrate || '128']. *)
Definition bitrateOrDefault (bitrate : option jsstring) : jsstring :=
  match bitrate with
  | Some (c :: rest) => c :: rest
  | _ => str "128"
  end.

(** [GET /download-mp3/:videoId]. *)
Definition downloadMp3 (videoId : jsstring) (bitrate : option jsstring)
  : M unit :=
  tryCatch
    (let bitrate := bitrateOrDefault bitrate in
     if negb (validateVideoId videoId)
     then resStatus 400 ;; resJson env invalidIdBody
     else
       let videoUrl := watchUrl videoId in
       videoInfo <- getCachedVideoInfo videoUrl videoId ;;
       let videoTitle := title (videoDetails videoInfo) in
       let sanitizedTitle := sanitizeFilename videoTitle in
       resSet (downloadHeaders sanitizedTitle) ;;
       let audioFormats :=
         ytdl_filterFormats env (formats videoInfo) audioonly in
       if (length audioFormats =? 0)%nat
       then resStatus 400 ;; resJson env (errorBody "No audio formats available")
       else
         resPipe
           {| sourceUrl := videoUrl;
              sourceHighWaterMark := Some (1024 * 512);
              jobAudioBitrate := parseInt (JStr bitrate);
              jobAudioCodec := Some "libmp3lame"%string;
              jobOutputOptions :=
                ["-preset"; "ultrafast"; "-threads"; "0"; "-ac"; "2"]%string;
              onRequestClose := [KillTranscoder SIGKILL] |})
    (fun error =>
       sent <- headersSent ;;
       if negb sent
       then resStatus 500 ;;
            resJson env (errorWithDetails "Download failed" error)
       else ret tt).

(** *** [POST /batch-download]

    [videoIds.map(async ...)] runs every callback up to its first pending
    [await] before any promise settles: an invalid identifier has already
    thrown, a fresh cache entry has been read, and for the others the
    resolver call has been issued. *)
Inductive Started :=
  | Threw (reason : JsError)
  | Hit (videoId : jsstring) (videoInfo : VideoInfo)
  | Pending (videoId : jsstring) (call : nat) (videoUrl : jsstring).

Definition startItem (videoId : jsstring) : M Started :=
  if negb (validateVideoId videoId)
  then ret (Threw (mkError (str "Invalid video ID: " ++ videoId)))
  else
    let videoUrl := watchUrl videoId in
    hit <- lookupCached videoId ;;
    match hit with
    | Some cachedData => ret (Hit videoId cachedData)
    | None =>
        call <- issueGetInfo videoUrl ;; ret (Pending videoId call videoUrl)
    end.

(** The rest of the callback, once the metadata is there. *)
Definition queuedItem (videoId : jsstring) (videoInfo : VideoInfo) : M Json :=
  let sanitizedTitle := sanitizeFilename (title (videoDetails videoInfo)) in
  uuid <- nextUuid env ;;
  let uniqueId := substring0 8 uuid in
  let filename := sanitizedTitle ++ str "_" ++ uniqueId ++ str ".mp3" in
  ret (JObj [("videoId", JV (JStr videoId));
             ("title", JV (JStr (title (videoDetails videoInfo))));
             ("filename", JV (JStr filename));
             ("downloadUrl", JV (JStr (str "/downloads/" ++ filename)));
             ("status", jstr "queued")]).

(** The promise of an async callback: an exception becomes its rejection. *)
Definition settle {A} (m : M A) : M (Settled A) :=
  fun st => let (r, st') := m st in (Fulfilled r, st').

Inductive Progress :=
  | Done (result : Settled Json)
  | Waiting (videoId : jsstring) (call : nat) (videoUrl : jsstring).

(** Callbacks whose [await] found a fresh cache entry go on first, in
    order. *)
Definition resumeHit (s : Started) : M Progress :=
  match s with
  | Threw reason => ret (Done (Rejected reason))
  | Hit videoId videoInfo =>
      r <- settle (queuedItem videoId videoInfo) ;; ret (Done r)
  | Pending videoId call videoUrl => ret (Waiting videoId call videoUrl)
  end.

(** Then the resolver calls settle, here in the order they were issued. *)
Definition resumePending (p : Progress) : M (Settled Json) :=
  match p with
  | Done result => ret result
  | Waiting videoId call videoUrl =>
      settle (videoInfo <- awaitGetInfo env call videoUrl ;;
              videoInfo <- storeResolved videoId videoInfo ;;
              queuedItem videoId videoInfo)
  end.

Fixpoint mapM {A B} (f : A -> M B) (l : list A) : M (list B) :=
  match l with
  | [] => ret []
  | a :: rest => b <- f a ;; bs <- mapM f rest ;; ret (b :: bs)
  end.

Definition allSettledItems (videoIds : list jsstring)
  : M (list (Settled Json)) :=
  started <- mapM startItem videoIds ;;
  progress <- mapM resumeHit started ;;
  mapM resumePending progress.

Definition fulfilledValue (r : Settled Json) : option Json :=
  match r with Fulfilled v => Some v | Rejected _ => None end.

Definition rejectedReason (r : Settled Json) : option JsError :=
  match r with Fulfilled _ => None | Rejected e => Some e end.

(** [results.filter(r => r.status === 'fulfilled').map(r => r.value)]. *)
Definition successfulOf (results : list (Settled Json)) : list Json :=
  omap fulfilledValue results.

Definition failedRecord (videoId : JsVal) (error : jsstring) : Json :=
  JObj [("videoId", JV videoId); ("error", JV (JStr error))].

(** [results.filter(r => r.status === 'rejected')
      .map((result, index) => ({ videoId: videoIds[index], ... }))]:
    [index] is the position in the filtered array. *)
Definition failedOf (videoIds : list jsstring)
  (results : list (Settled Json)) : list Json :=
  imap (fun index reason =>
          failedRecord (from_option JStr JUndefined (videoIds !! index))
            (message reason))
       (omap rejectedReason results).

(** [videoIds] is [None] when the body field is not an array. *)
Definition batchDownload (videoIds : option (list jsstring)) : M unit :=
  tryCatch
    (match videoIds with
     | None => resStatus 400 ;; resJson env (errorBody "videoIds array is required")
     | Some videoIds =>
         if (length videoIds =? 0)%nat
         then resStatus 400 ;;
              resJson env (errorBody "videoIds array is required")
         else if (10 <? length videoIds)%nat
         then resStatus 400 ;;
              resJson env (errorBody "Maximum 10 videos per batch")
         else
           results <- allSettledItems videoIds ;;
           let successful := successfulOf results in
           let failed := failedOf videoIds results in
           resJson env
             (JObj [("status", jstr "batch_queued");
                    ("successful", JArr successful);
                    ("failed", JArr failed);
                    ("total", JV (JNum (Z.of_nat (length videoIds))))])
     end)
    (fun error =>
       resStatus 500 ;;
       resJson env (errorWithDetails "Batch processing failed" error)).

(** [description?.substring(0, n) + '...']. *)
Definition describe (n : nat) (d : option jsstring) : jsstring :=
  match d with
  | Some d => substring0 n d ++ str "..."
  | None => str "undefined..."
  end.

(** [GET /video-info/:videoId]. *)
Definition videoInfo (videoId : jsstring) : M unit :=
  tryCatch
    (if negb (validateVideoId videoId)
     then resStatus 400 ;; resJson env invalidIdBody
     else
       let videoUrl := watchUrl videoId in
       videoInfo <- getCachedVideoInfo videoUrl videoId ;;
       let details := videoDetails videoInfo in
       cached <- cacheHas videoId ;;
       resJson env
         (JObj [("videoId", JV (JStr videoId));
                ("title", JV (JStr (title details)));
                ("author", JV (JStr (authorName details)));
                ("duration", JV (lengthSeconds details));
                ("viewCount", JV (viewCount details));
                ("description", JV (JStr (describe 300 (description details))));
                ("thumbnails", thumbnails details);
                ("uploadDate", JV (uploadDate details));
                ("category", JV (category details));
                ("cached", JBool cached)]))
    (fun error =>
       resStatus 404 ;;
       resJson env (errorWithDetails "Video not found" error)).

Definition audioInfoOf (format : Format) : Json :=
  JObj [("itag", JV (itag format));
        ("container", JV (container format));
        ("codecs", JV (codecs format));
        ("bitrate", JV (audioBitrate format));
        ("sampleRate", JV (audioSampleRate format));
        ("channels", JV (audioChannels format));
        ("size", JV (contentLength format))].

Definition videoFormatOf (format : Format) : Json :=
  JObj [("itag", JV (itag format));
        ("container", JV (container format));
        ("qualityLabel", JV (qualityLabel format));
        ("fps", JV (fps format));
        ("bitrate", JV (bitrate format));
        ("size", JV (contentLength format))].

(** [GET /formats/:videoId]. *)
Definition formatsOf (videoId : jsstring) : M unit :=
  tryCatch
    (if negb (validateVideoId videoId)
     then resStatus 400 ;; resJson env invalidIdBody
     else
       let videoUrl := watchUrl videoId in
       videoInfo <- getCachedVideoInfo videoUrl videoId ;;
       let audioFormats :=
         ytdl_filterFormats env (formats videoInfo) audioonly in
       let videoFormats :=
         ytdl_filterFormats env (formats videoInfo) videoonly in
       let audioInfo := map audioInfoOf audioFormats in
       let videoInfo_formats := map videoFormatOf (take 10 videoFormats) in
       resJson env
         (JObj [("videoId", JV (JStr videoId));
                ("videoTitle", JV (JStr (title (videoDetails videoInfo))));
                ("audioFormats", JArr audioInfo);
                ("videoFormats", JArr videoInfo_formats);
                ("recommendedAudio", default (JV JNull) (head audioInfo))]))
    (fun error =>
       resStatus 404 ;;
       resJson env (errorWithDetails "Video not found" error)).

(** [POST /clear-cache]. *)
Definition clearCache : M unit :=
  emit CacheClear ;;
  putCache JsMap.empty ;;
  now <- dateNow ;;
  resJson env (JObj [("status", jstr "Cache cleared");
                     ("timestamp", JV (JNum now))]).

(** [GET /cache-stats]. *)
Definition cacheStats : M unit :=
  c <- getCache ;;
  resJson env
    (JObj [("videoInfoCache",
             JObj [("size", JV (JNum (Z.of_nat (JsMap.size c))));
                   ("maxSize", JV (JNum 1000));
                   ("entries",
                     JArr (map (fun k => JV (JStr k))
                             (take 10 (JsMap.keys c))))])]).

(** The requests the server answers, and one step of the process. *)
Inductive Request :=
  | GetDirectLink (videoId : jsstring)
  | GetDownloadMp3 (videoId : jsstring) (bitrate : option jsstring)
  | PostBatchDownload (videoIds : option (list jsstring))
  | GetVideoInfo (videoId : jsstring)
  | GetFormats (videoId : jsstring)
  | GetCacheStats
  | PostClearCache.

Definition handler (r : Request) : M unit :=
  match r with
  | GetDirectLink videoId => directLink videoId
  | GetDownloadMp3 videoId bitrate => downloadMp3 videoId bitrate
  | PostBatchDownload videoIds => batchDownload videoIds
  | GetVideoInfo videoId => videoInfo videoId
  | GetFormats videoId => formatsOf videoId
  | GetCacheStats => cacheStats
  | PostClearCache => clearCache
  end.

Definition handle (r : Request) (st : State) : Res * State :=
  serve (handler r) st.

(** The process after a sequence of requests, time passing between them. *)
Fixpoint run (rs : list (Z * Request)) (st : State) : State :=
  match rs with
  | [] => st
  | (idle, r) :: rest =>
      run rest (snd (handle r (snd (advance idle st))))
  end.
End WithEnv.

(** The process as it starts: an empty cache. *)
Definition initial (t0 : Z) : State :=
  {| clock := t0; videoInfoCache := JsMap.empty; effects := [];
     uuids := 0; res := freshRes |}.

End Optimized.

(** ** The basic server *)

Module Basic.

(** [/[^a-z0-9]/gi]: with the [i] flag and without [u] the class holds the
    ASCII letters of both cases and the digits, nothing else. *)
Definition sanitizeFilename (filename : jsstring) : jsstring :=
  toLowerCase
    (replaceAllClass (fun c => negb (isLower c || isUpper c || isDigit c))
       (str "_") filename).

Definition videoIdRegexTest (videoId : jsstring) : bool :=
  testExactly 11
    (fun c => isLower c || isUpper c || isDigit c || (c =? 95)%N || isHyphen c)
    videoId.

Definition downloadHeaders (sanitizedTitle : jsstring)
  : list (string * jsstring) :=
  [("Content-Type", str "audio/mpeg");
   ("Content-Disposition",
     str "attachment; filename=" ++ 34%N :: sanitizedTitle
       ++ str ".mp3" ++ [34%N]);
   ("Access-Control-Allow-Origin", str "*")].

Section WithEnv.
Variable env : Env.

(** The [while (retries > 0)] loop around [ytdl.getInfo]; [None] is the
    variable left [undefined] when the loop body never runs. *)
Fixpoint getInfoWithRetries (retries : nat) (videoUrl : jsstring)
  : M (option VideoInfo) :=
  match retries with
  | O => ret None
  | S retries' =>
      tryCatch
        (videoInfo <- ytdlGetInfo env videoUrl ;; ret (Some videoInfo))
        (fun error =>
           if (retries' =? 0)%nat then throw error
           else sleep 2000 ;; getInfoWithRetries retries' videoUrl)
  end.

Definition typeError : JsError :=
  mkError (str "Cannot read properties of undefined (reading 'videoDetails')").

(** [GET /download-mp3/:videoId]. *)
Definition downloadMp3 (videoId : jsstring) : M unit :=
  tryCatch
    (if (length videoId =? 0)%nat
     then resStatus 400 ;; resJson env (errorBody "Video ID is required")
     else if negb (videoIdRegexTest videoId)
     then resStatus 400 ;;
          resJson env (errorBody "Invalid YouTube video ID format")
     else
       let videoUrl := watchUrl videoId in
       fetched <- getInfoWithRetries 3 videoUrl ;;
       match fetched with
       | None => throw typeError
       | Some videoInfo =>
           let videoTitle := title (videoDetails videoInfo) in
           let sanitizedTitle := sanitizeFilename videoTitle in
           resSet (downloadHeaders sanitizedTitle) ;;
           let audioFormats :=
             ytdl_filterFormats env (formats videoInfo) audioonly in
           if (length audioFormats =? 0)%nat
           then resStatus 400 ;;
                resJson env
                  (errorBody "No audio formats available for this video")
           else
             resPipe
               {| sourceUrl := videoUrl;
                  sourceHighWaterMark := None;
                  jobAudioBitrate := Some 128;
                  jobAudioCodec := None;
                  jobOutputOptions := [];
                  onRequestClose := [] |}
       end)
    (fun error =>
       sent <- headersSent ;;
       if negb sent
       then resStatus 500 ;;
            resJson env
              (JObj [("error", jstr "Internal server error");
                     ("details", JV (JStr (message error)));
                     ("suggestion",
                       jstr "Try again in a few moments or check if the video ID is correct")])
       else ret tt).

(** [GET /video-info/:videoId]. *)
Definition videoInfo (videoId : jsstring) : M unit :=
  tryCatch
    (let videoUrl := watchUrl videoId in
     videoInfo <- ytdlGetInfo env videoUrl ;;
     let details := videoDetails videoInfo in
     resJson env
       (JObj [("title", JV (JStr (title details)));
              ("author", JV (JStr (authorName details)));
              ("duration", JV (lengthSeconds details));
              ("viewCount", JV (viewCount details));
              ("description",
                JV (JStr (match description details with
                          | Some d => substring0 200 d ++ str "..."
                          | None => str "undefined..."
                          end)));
              ("thumbnails", thumbnails details)]))
    (fun error =>
       resStatus 404 ;;
       resJson env (errorWithDetails "Video not found" error)).

(** [GET /formats/:videoId]. *)
Definition formatsOf (videoId : jsstring) : M unit :=
  tryCatch
    (let videoUrl := watchUrl videoId in
     videoInfo <- ytdlGetInfo env videoUrl ;;
     let audioFormats :=
       ytdl_filterFormats env (formats videoInfo) audioonly in
     let formatsInfo :=
       map (fun format =>
              JObj [("itag", JV (itag format));
                    ("container", JV (container format));
                    ("codecs", JV (codecs format));
                    ("bitrate", JV (audioBitrate format));
                    ("sampleRate", JV (audioSampleRate format));
                    ("channels", JV (audioChannels format))])
           audioFormats in
     resJson env
       (JObj [("videoTitle", JV (JStr (title (videoDetails videoInfo))));
              ("availableAudioFormats", JArr formatsInfo)]))
    (fun error =>
       resStatus 404 ;;
       resJson env (errorWithDetails "Video not found" error)).

(** *** [POST /download-mp3]

    The handler answers by itself only when it refuses the request; otherwise
    it starts a conversion to a file and returns, and the answer is sent by
    the listener of the conversion's [end] or [error] event.  [SaveJob] is
    what the two listeners close over. *)
Record SaveJob := mkSave {
  saveSourceUrl : jsstring;
  saveQuality : jsstring;
  saveVideoTitle : jsstring;
  outputFileName : jsstring
}.

Definition postDownloadMp3 (videoId quality : option jsstring)
  : M (option SaveJob) :=
  tryCatch
    (let quality := default (str "highestaudio") quality in
     match videoId with
     | None | Some [] =>
         resStatus 400 ;;
         resJson env
           (JObj [("error", jstr "Video ID is required");
                  ("example", JObj [("videoId", jstr "dQw4w9WgXcQ")])]) ;;
         ret None
     | Some videoId =>
         if negb (videoIdRegexTest videoId)
         then resStatus 400 ;;
              resJson env (errorBody "Invalid YouTube video ID format") ;;
              ret None
         else
           let videoUrl := watchUrl videoId in
           fetched <-
             tryCatch
               (videoInfo <- ytdlGetInfo env videoUrl ;; ret (Some videoInfo))
               (fun error =>
                  resStatus 404 ;;
                  resJson env
                    (errorWithDetails "Video not found or unavailable" error) ;;
                  ret None) ;;
           match fetched with
           | None => ret None
           | Some videoInfo =>
               let videoTitle := title (videoDetails videoInfo) in
               let sanitizedTitle := sanitizeFilename videoTitle in
               uuid <- nextUuid env ;;
               let uniqueId := substring0 8 uuid in
               let outputFileName :=
                 sanitizedTitle ++ str "_" ++ uniqueId ++ str ".mp3" in
               ret (Some {| saveSourceUrl := videoUrl;
                            saveQuality := quality;
                            saveVideoTitle := videoTitle;
                            outputFileName := outputFileName |})
           end
     end)
    (fun error =>
       resStatus 500 ;;
       resJson env (errorWithDetails "Internal server error" error) ;;
       ret None).

(** The listener of [end]. *)
Definition onSaveEnd (job : SaveJob) : M unit :=
  resStatus 200 ;;
  resJson env
    (JObj [("status", jstr "completed");
           ("videoTitle", JV (JStr (saveVideoTitle job)));
           ("filename", JV (JStr (outputFileName job)));
           ("downloadUrl",
             JV (JStr (str "/downloads/" ++ outputFileName job)))]).

(** The listener of [error].  [partialFile] tells what the file system holds
    at the output path: [None] when there is no file, [Some None] when there
    is one and [unlinkSync] removes it, [Some (Some e)] when [unlinkSync]
    throws [e].  The value is whether a file was removed. *)
Definition onSaveError (job : SaveJob) (err : JsError)
  (partialFile : option (option JsError)) : M bool :=
  removed <-
    match partialFile with
    | None => ret false
    | Some None => ret true
    | Some (Some e) => throw e
    end ;;
  resStatus 500 ;;
  resJson env (errorWithDetails "Conversion failed" err) ;;
  ret removed.
End WithEnv.
End Basic.

(** ** The downloads directory and its janitors

    What a sweep sees of a file: the outcome of [stat] (the modification time
    in milliseconds, or an error) and whether [unlink] would fail.  A directory
    is either listed or unreadable ([readdirSync] throws). *)

Module Fs.

Record File := mkFile {
  fileName : jsstring;
  mtime : Settled Z;
  unlinkError : option JsError
}.

Inductive Directory :=
  | Listing (files : list File)
  | Unreadable (error : JsError).

Definition maxAge : Z := 24 * 60 * 60 * 1000.

End Fs.

(** The optimized server's [cleanUpOldFiles]: every file is looked at on its
    own; an error of [stat] or [unlink] is ignored, an unreadable directory is
    logged.  The value is the directory once every callback has run, with what
    went to [console.error]. *)
Module OptimizedJanitor.
Import Fs.

(** [!err && now - stats.mtime.getTime() > maxAge]. *)
Definition tooOld (now : Z) (f : File) : bool :=
  match mtime f with
  | Fulfilled modified => maxAge <? now - modified
  | Rejected _ => false
  end.

Definition sweepFile (now : Z) (f : File) : list File :=
  if tooOld now f
  then match unlinkError f with
       | None => []
       | Some _ => [f]
       end
  else [f].

Definition cleanUpOldFiles (now : Z) (dir : Directory)
  : Directory * list JsError :=
  match dir with
  | Unreadable error => (Unreadable error, [error])
  | Listing files => (Listing (flat_map (sweepFile now) files), [])
  end.

End OptimizedJanitor.

(** The basic server's [cleanUpOldFiles]: one synchronous loop without any
    [try]; the first exception ends it and leaves the function. *)
Module BasicJanitor.
Import Fs.

Fixpoint sweep (now : Z) (files : list File) : Settled unit * list File :=
  match files with
  | [] => (Fulfilled tt, [])
  | f :: rest =>
      match mtime f with
      | Rejected e => (Rejected e, f :: rest)
      | Fulfilled modified =>
          if maxAge <? now - modified
          then match unlinkError f with
               | Some e => (Rejected e, f :: rest)
               | None => sweep now rest
               end
          else let (outcome, rest') := sweep now rest in (outcome, f :: rest')
      end
  end.

Definition cleanUpOldFiles (now : Z) (dir : Directory)
  : Settled unit * Directory :=
  match dir with
  | Unreadable error => (Rejected error, Unreadable error)
  | Listing files =>
      let (outcome, files') := sweep now files in (outcome, Listing files')
  end.

End BasicJanitor.

(** ** What the specification says, in its own words *)

Module Spec.

(** A video identifier: exactly 11 characters from [[A-Za-z0-9_-]]. *)
Definition idChar (c : N) : Prop :=
  (65 <= c <= 90 \/ 97 <= c <= 122 \/ 48 <= c <= 57 \/ c = 95 \/ c = 45)%N.

Definition WellFormedId (s : jsstring) : Prop :=
  length s = 11%nat /\ Forall idChar s.

(** The characters file-name sanitization keeps: [[A-Za-z0-9_\s-]]. *)
Definition kept (c : N) : bool :=
  isUpper c || isLower c || isDigit c || (c =? 95)%N || isSpace c
  || (c =? 45)%N.

(** White space or hyphen. *)
Definition separator (c : N) : bool := isSpace c || (c =? 45)%N.

(** [Collapsed s s']: [s'] is [s] with every maximal run of separators
    replaced by a single underscore and everything else left as it is. *)
Inductive Collapsed : jsstring -> jsstring -> Prop :=
  | Collapsed_nil : Collapsed [] []
  | Collapsed_copy c s s' :
      separator c = false ->
      Collapsed s s' ->
      Collapsed (c :: s) (c :: s')
  | Collapsed_run c run s s' :
      Forall (fun x => separator x = true) (c :: run) ->
      head (separator <$> s) <> Some true ->
      Collapsed s s' ->
      Collapsed ((c :: run) ++ s) (95%N :: s').

(** The numeric bit rate of a format: the field parsed as an integer, zero
    when it is missing or not a number. *)
Definition numericBitrate (f : Format) : Z :=
  match parseInt (audioBitrate f) with
  | Some b => b
  | None => 0
  end.

(** [IsFirstMaximum l i best]: [best] stands at position [i] of [l], nothing
    in [l] has a larger bit rate and nothing before [i] has one as large. *)
Definition IsFirstMaximum (l : list Format) (i : nat) (best : Format) : Prop :=
  l !! i = Some best
  /\ (forall j g, l !! j = Some g -> numericBitrate g <= numericBitrate best)
  /\ (forall j g, (j < i)%nat -> l !! j = Some g ->
        numericBitrate g < numericBitrate best).

(** The retry policy: of at most [budget] attempts, how many are made when
    the resolver calls numbered from [n] on settle as the oracle says. *)
Fixpoint attemptsMade (env : Env) (videoUrl : jsstring) (budget n : nat)
  : nat :=
  match budget with
  | O => O
  | S budget' =>
      match snd (ytdl_getInfo env n videoUrl) with
      | Fulfilled _ => 1
      | Rejected _ =>
          match budget' with
          | O => 1
          | S _ => S (attemptsMade env videoUrl budget' (S n))
          end
      end
  end.

(** The effects of [k] attempts with a fixed delay between them. *)
Fixpoint attemptsTrace (videoUrl : jsstring) (delay : Z) (k : nat)
  : list Effect :=
  match k with
  | O => []
  | 1%nat => [Resolve videoUrl]
  | S k' => Resolve videoUrl :: Sleep delay :: attemptsTrace videoUrl delay k'
  end.

End Spec.

(** ** Observations on states and responses *)

Fixpoint lookupField (name : string) (fields : list (string * Json))
  : option Json :=
  match fields with
  | [] => None
  | (n, v) :: rest => if String.eqb n name then Some v else lookupField name rest
  end.

Definition jsonField (name : string) (j : Json) : option Json :=
  match j with
  | JObj fields => lookupField name fields
  | _ => None
  end.

Definition bodyField (name : string) (r : Res) : option Json :=
  match jsonBody r with
  | Some j => jsonField name j
  | None => None
  end.

Definition withFreshRes (st : State) : State :=
  {| clock := clock st; videoInfoCache := videoInfoCache st;
     effects := effects st; uuids := uuids st; res := freshRes |}.

(** The effects a computation adds to the log. *)
Definition added (before after : State) : list Effect :=
  drop (length (effects before)) (effects after).

Definition sleepsOf (es : list Effect) : list Effect :=
  filter (fun e => isSleep e = true) es.

Definition resolvesOf (es : list Effect) : list Effect :=
  filter (fun e => isResolve e = true) es.

(** [evictOldest] is the size check at the end of [getCachedVideoInfo]. *)
Definition evictOldest (c : JsMap.t CacheEntry) : JsMap.t CacheEntry :=
  if (1000 <? JsMap.size c)%nat
  then match JsMap.firstKey c with
       | Some k => JsMap.delete k c
       | None => c
       end
  else c.

Definition evictionEffects (c : JsMap.t CacheEntry) : list Effect :=
  if (1000 <? JsMap.size c)%nat
  then match JsMap.firstKey c with
       | Some k => [CacheDelete k]
       | None => []
       end
  else [].

(** A state after some time has passed, some effects were logged and the
    cache was replaced. *)
Definition evolved (elapsed : Z) (es : list Effect) (c : JsMap.t CacheEntry)
  (st : State) : State :=
  {| clock := clock st + elapsed; videoInfoCache := c;
     effects := effects st ++ es; uuids := uuids st; res := res st |}.

(** What the cache can answer at this instant: the metadata stored under the
    identifier, when it is younger than the time to live. *)
Definition freshHit (videoId : jsstring) (st : State) : option VideoInfo :=
  match JsMap.get videoId (videoInfoCache st) with
  | Some c =>
      if clock st - timestamp c <? Optimized.CACHE_TTL
      then Some (data c) else None
  | None => None
  end.

(** [Quiet st st']: nothing was logged, stored or waited for between the two
    states. *)
Definition Quiet (st st' : State) : Prop :=
  effects st' = effects st
  /\ videoInfoCache st' = videoInfoCache st
  /\ clock st' = clock st.

(** [Keeps P m]: the computation [m] preserves the state property [P]. *)
Definition Keeps {A} (P : State -> Prop) (m : M A) : Prop :=
  forall st, P st -> P (snd (m st)).

(** A state property that does not look at the clock, the log or the
    identifier counter. *)
Definition Insensitive (P : State -> Prop) : Prop :=
  forall st c es u,
    P st ->
    P {| clock := c; videoInfoCache := videoInfoCache st; effects := es;
         uuids := u; res := res st |}.

(** [AtMost calls m]: the computation [m] calls the resolver at most [calls]
    times and never sleeps. *)
Definition AtMost {A} (calls : nat) (m : M A) : Prop :=
  forall st,
    (resolverCalls st <= resolverCalls (snd (m st)) <= resolverCalls st + calls)%nat
    /\ sleepsOf (effects (snd (m st))) = sleepsOf (effects st).

(** The cache never holds more than its bound between two requests. *)
Definition CacheBounded (st : State) : Prop :=
  (JsMap.size (videoInfoCache st) <= 1000)%nat.

(** The status codes an endpoint of the optimized server can answer with. *)
Definition possibleStatus (r : Optimized.Request) : list Z :=
  match r with
  | Optimized.GetDirectLink _ => [200; 400; 500]
  | Optimized.GetDownloadMp3 _ _ => [200; 400; 500]
  | Optimized.PostBatchDownload _ => [200; 400]
  | Optimized.GetVideoInfo _ => [200; 400; 404]
  | Optimized.GetFormats _ => [200; 400; 404]
  | Optimized.GetCacheStats => [200]
  | Optimized.PostClearCache => [200]
  end.

(** The four endpoints that look one identifier up. *)
Definition lookupRequests (videoId : jsstring) (bitrate : option jsstring)
  : list Optimized.Request :=
  [Optimized.GetDirectLink videoId;
   Optimized.GetDownloadMp3 videoId bitrate;
   Optimized.GetVideoInfo videoId;
   Optimized.GetFormats videoId].

(** The characters a sanitized file name is made of: [[a-z0-9_]]. *)
Definition plain (c : N) : bool := isLower c || isDigit c || (c =? 95)%N.

(** The items of a JSON array field. *)
Definition arrayField (name : string) (r : Res) : option (list Json) :=
  match bodyField name r with
  | Some (JArr items) => Some items
  | _ => None
  end.

(** [QueuedFor env videoId videoInfo n item]: [item] is the record a batch
    gives for [videoId] from the metadata [videoInfo] and the [n]-th
    identifier [uuidv4] hands out: the identifier itself, the title of the
    metadata, a file name made of the sanitized title, an underscore, the
    first eight code units of that [uuidv4] result and [.mp3], the path of
    that file under [/downloads/], and the status [queued]. *)
Definition QueuedFor (env : Env) (videoId : jsstring) (videoInfo : VideoInfo)
  (n : nat) (item : Json) : Prop :=
  let videoTitle := title (videoDetails videoInfo) in
  let filename :=
    Optimized.sanitizeFilename videoTitle
    ++ str "_" ++ take 8 (uuidv4 env n) ++ str ".mp3" in
  item
  = JObj [("videoId", JV (JStr videoId));
          ("title", JV (JStr videoTitle));
          ("filename", JV (JStr filename));
          ("downloadUrl", JV (JStr (str "/downloads/" ++ filename)));
          ("status", jstr "queued")].

(** The identifiers of a batch that go to the resolver: the well-formed
    ones the cache cannot answer when the request arrives, with their
    repetitions. *)
Definition unanswered (st : State) (videoIds : list jsstring)
  : list jsstring :=
  filter (fun videoId =>
            Optimized.validateVideoId videoId = true
            /\ freshHit videoId st = None)
         videoIds.

(** What the item at position [i] of a batch gets as metadata when the batch
    arrives in state [st]: the fresh cache entry of its identifier, or else
    the outcome of its own resolver call.  The calls of a batch are issued in
    the order of the items that need one, so the call of position [i] comes
    after one call for every earlier position that needs one. *)
Definition metadataFor (env : Env) (st : State) (videoIds : list jsstring)
  (i : nat) (videoId : jsstring) : Settled VideoInfo :=
  match freshHit videoId st with
  | Some cachedData => Fulfilled cachedData
  | None =>
      snd (ytdl_getInfo env
             (resolverCalls st + length (unanswered st (take i videoIds)))
             (watchUrl videoId))
  end.

(** How the stretches of a batch item hand over.  [ticket] is the index of
    the [uuidv4] result the stretch took, if it took one.  After the second
    stretch an item the cache answered is queued, the others are where they
    were. *)
Definition HitResumed (env : Env) (s : Optimized.Started)
  (ticket : option nat) (p : Optimized.Progress) : Prop :=
  match s, ticket with
  | Optimized.Hit videoId info, Some n =>
      exists item,
        p = Optimized.Done (Fulfilled item)
        /\ QueuedFor env videoId info n item
  | Optimized.Threw reason, None => p = Optimized.Done (Rejected reason)
  | Optimized.Pending videoId call videoUrl, None =>
      p = Optimized.Waiting videoId call videoUrl
  | _, _ => False
  end.

(** After the third stretch an item that waited for the resolver is rejected
    with the resolver's error or queued from the resolver's answer. *)
Definition PendingResumed (env : Env) (p : Optimized.Progress)
  (ticket : option nat) (r : Settled Json) : Prop :=
  match p, ticket with
  | Optimized.Done result, None => r = result
  | Optimized.Waiting videoId call videoUrl, Some n =>
      exists info item,
        snd (ytdl_getInfo env call videoUrl) = Fulfilled info
        /\ r = Fulfilled item
        /\ QueuedFor env videoId info n item
  | Optimized.Waiting videoId call videoUrl, None =>
      exists err,
        snd (ytdl_getInfo env call videoUrl) = Rejected err
        /\ r = Rejected err
  | _, _ => False
  end.

(** The reason a batch item is rejected with before any lookup. *)
Definition invalidItem (videoId : jsstring) : JsError :=
  mkError (str "Invalid video ID: " ++ videoId).

(** ** Sample collaborators and data *)

Module Sample.

Definition format (rate : JsVal) (tag : Z) : Format :=
  {| itag := JNum tag; container := JStr (str "webm");
     codecs := JStr (str "opus"); audioBitrate := rate;
     audioSampleRate := JStr (str "48000"); audioChannels := JNum 2;
     contentLength := JUndefined; qualityLabel := JNull; fps := JUndefined;
     bitrate := JNum 130000;
     url := JStr (str "https://media.example/stream") |}.

Definition details : VideoDetails :=
  {| title := str "Artist: Song (Live) #1!"; authorName := str "Artist";
     lengthSeconds := JStr (str "212"); viewCount := JStr (str "1000");
     description := Some (str "Live recording"); thumbnails := JArr [];
     uploadDate := JStr (str "2020-01-01"); category := JStr (str "Music") |}.

Definition info : VideoInfo :=
  {| videoDetails := details;
     formats := [format (JNum 64) 1; format (JNum 160) 2;
                 format (JNum 128) 3; format (JNum 160) 4] |}.

(** What [res.json] of Express does to the [Content-Type] header: without
    one it sets [application/json], and [res.send] then writes the body as
    UTF-8 and says so in the header, whichever type it finds there.  The types
    the handlers set have no parameter, so the character set is appended.  The
    [Content-Length] and [ETag] headers, which depend on the body, are not
    part of this sample. *)
Definition expressJsonHeaders (hs : list (string * jsstring))
  : list (string * jsstring) :=
  match getHeader "Content-Type" hs with
  | Some type => setHeader "Content-Type" (type ++ str "; charset=utf-8") hs
  | None => setHeader "Content-Type" (str "application/json; charset=utf-8") hs
  end.

Definition tooManyRequests : JsError := mkError (str "Status code: 429").

(** A resolver that always answers after a quarter of a second. *)
Definition steady : Env :=
  {| ytdl_getInfo := fun _ _ => (250, Fulfilled info);
     ytdl_filterFormats := fun fs kind =>
       match kind with audioonly => fs | videoonly => [] end;
     uuidv4 := fun _ => str "3f2a9c1e-7b4d-4e2a-9c1e-0123456789ab";
     jsonHeaders := expressJsonHeaders |}.

(** A resolver whose first call fails and whose later calls answer. *)
Definition flaky : Env :=
  {| ytdl_getInfo := fun n _ =>
       match n with
       | O => (250, Rejected tooManyRequests)
       | S _ => (250, Fulfilled info)
       end;
     ytdl_filterFormats := ytdl_filterFormats steady;
     uuidv4 := uuidv4 steady;
     jsonHeaders := expressJsonHeaders |}.

(** A video without any audio-only format. *)
Definition silent : Env :=
  {| ytdl_getInfo := ytdl_getInfo steady;
     ytdl_filterFormats := fun _ _ => [];
     uuidv4 := uuidv4 steady;
     jsonHeaders := expressJsonHeaders |}.

Definition goodId : jsstring := str "dQw4w9WgXcQ".
Definition badId : jsstring := str "bad".

(** A cache at its bound: 1000 entries under distinct keys, stored at time
    0. *)
Definition fullCache : JsMap.t CacheEntry :=
  map (fun i => ([N.of_nat i], mkEntry info 0)) (seq 0 1000).

Definition fullState (now : Z) : State :=
  {| clock := now; videoInfoCache := fullCache; effects := [];
     uuids := 0; res := freshRes |}.

(** A resolver that never answers. *)
Definition dead : Env :=
  {| ytdl_getInfo := fun _ _ => (250, Rejected tooManyRequests);
     ytdl_filterFormats := ytdl_filterFormats steady;
     uuidv4 := uuidv4 steady;
     jsonHeaders := expressJsonHeaders |}.

Definition otherId : jsstring := str "9bZkp7q19f0".

Definition day : Z := 24 * 60 * 60 * 1000.

(** A downloads directory at time [2 * day]: a file older than a day, one
    exactly a day old, one whose [stat] fails, an old one that cannot be
    removed, and another old one. *)
Definition downloads : list Fs.File :=
  [Fs.mkFile (str "old.mp3") (Fulfilled 0) None;
   Fs.mkFile (str "edge.mp3") (Fulfilled day) None;
   Fs.mkFile (str "gone.mp3") (Rejected (mkError (str "ENOENT"))) None;
   Fs.mkFile (str "busy.mp3") (Fulfilled 0) (Some (mkError (str "EBUSY")));
   Fs.mkFile (str "older.mp3") (Fulfilled 1) None].

End Sample.

(** * Properties *)

#[local] Arguments Nat.ltb : simpl never.
#[local] Arguments Z.ltb : simpl never.
#[local] Arguments Z.add : simpl never.
#[local] Arguments Z.sub : simpl never.
#[local] Arguments Z.mul : simpl never.

Ltac unfold_monad :=
  unfold cacheGet, cacheHas, cacheSet, cacheDelete, cacheSize, cacheFirstKey,
    resStatus, resSet, resJson, resPipe, headersSent, sleep, tryCatch,
    modifyRes, getRes, putCache, getCache, dateNow, advance, emit, throw,
    bind, ret in *.

(** ** Regular expressions and strings *)

Lemma testExactly_spec (cls : N -> bool) (n : nat) (s : jsstring) :
  testExactly n cls s = true <->
  length s = n /\ Forall (fun c => cls c = true) s.
Proof.
  revert s; induction n as [|n IH]; intros [|c s]; simpl.
  - split; [intros _; split; [reflexivity | constructor] | reflexivity].
  - split; [discriminate | intros [H _]; discriminate].
  - split; [discriminate | intros [H _]; discriminate].
  - rewrite andb_true_iff, IH. split.
    + intros [Hc [Hlen Hall]]. split; [congruence | by constructor].
    + intros [Hlen Hall]. inversion Hall; subst. auto.
Qed.

Lemma between_spec (lo hi c : N) :
  between lo hi c = true <-> (lo <= c <= hi)%N.
Proof.
  unfold between. rewrite andb_true_iff, !N.leb_le. reflexivity.
Qed.

Lemma idClass_spec (c : N) :
  (isLower c || isUpper c || isDigit c || (c =? 95)%N || isHyphen c) = true
  <-> Spec.idChar c.
Proof.
  unfold Spec.idChar, isLower, isUpper, isDigit, isHyphen.
  rewrite !orb_true_iff, !between_spec, !N.eqb_eq. tauto.
Qed.

Lemma validateVideoId_spec (videoId : jsstring) :
  Optimized.validateVideoId videoId = true <-> Spec.WellFormedId videoId.
Proof.
  unfold Optimized.validateVideoId, Spec.WellFormedId.
  rewrite testExactly_spec. split; intros [Hlen Hall]; (split; [exact Hlen|]);
    (eapply Forall_impl; [exact Hall|]); intros c Hc; by apply idClass_spec.
Qed.

Lemma validateVideoId_false (videoId : jsstring) :
  ~ Spec.WellFormedId videoId -> Optimized.validateVideoId videoId = false.
Proof.
  intros H. destruct (Optimized.validateVideoId videoId) eqn:E; [|reflexivity].
  exfalso. by apply H, validateVideoId_spec.
Qed.

Lemma videoIdRegexTest_validate (videoId : jsstring) :
  Basic.videoIdRegexTest videoId = Optimized.validateVideoId videoId.
Proof. reflexivity. Qed.

Lemma replaceAllClass_strip (keep : N -> bool) (s : jsstring) :
  replaceAllClass (fun c => negb (keep c)) [] s
  = filter (fun c => keep c = true) s.
Proof.
  unfold replaceAllClass. induction s as [|c s IH]; [reflexivity|].
  rewrite filter_cons. cbn [flat_map]. rewrite IH.
  destruct (keep c) eqn:E; reflexivity.
Qed.

Lemma skipRun_split (cls : N -> bool) (s : jsstring) :
  exists run,
    s = run ++ skipRun cls s
    /\ Forall (fun x => cls x = true) run
    /\ head (cls <$> skipRun cls s) <> Some true.
Proof.
  induction s as [|c s (run & Hs & Hrun & Hhd)]; simpl.
  - exists []. repeat split; [constructor | discriminate].
  - destruct (cls c) eqn:E.
    + exists (c :: run). repeat split; [simpl; congruence | by constructor | done].
    + exists []. repeat split; [constructor | simpl; rewrite E; discriminate].
Qed.

Lemma skipRun_length (cls : N -> bool) (s : jsstring) :
  (length (skipRun cls s) <= length s)%nat.
Proof.
  induction s as [|c s IH]; simpl; [lia|]. destruct (cls c); simpl; lia.
Qed.

Lemma separator_class (c : N) :
  (isHyphen c || isSpace c) = Spec.separator c.
Proof. unfold Spec.separator, isHyphen. apply orb_comm. Qed.

Lemma replaceRunsFrom_collapsed (fuel : nat) (s : jsstring) :
  (length s <= fuel)%nat ->
  Spec.Collapsed s
    (replaceRunsFrom fuel (fun c => isHyphen c || isSpace c) (str "_") s).
Proof.
  revert s; induction fuel as [|fuel IH]; intros s Hlen.
  - destruct s; [constructor | simpl in Hlen; lia].
  - destruct s as [|c rest]; [constructor|]. simpl in Hlen. simpl.
    destruct (isHyphen c || isSpace c) eqn:E.
    + destruct (skipRun_split (fun c => isHyphen c || isSpace c) rest)
        as (run & Hrest & Hrun & Hhd).
      rewrite Hrest at 1.
      change (c :: run ++ ?t) with ((c :: run) ++ t).
      apply Spec.Collapsed_run.
      * constructor; [by rewrite <- separator_class|].
        eapply Forall_impl; [exact Hrun|]. intros x Hx.
        by rewrite <- separator_class.
      * intros Hh. apply Hhd. rewrite <- Hh. f_equal.
        apply list_fmap_ext. intros _ x _. apply separator_class.
      * apply IH. pose proof (skipRun_length (fun c => isHyphen c || isSpace c) rest). lia.
    + apply Spec.Collapsed_copy; [by rewrite <- separator_class|].
      apply IH. lia.
Qed.

Lemma kept_class (c : N) :
  (isWord c || isSpace c || isHyphen c) = Spec.kept c.
Proof.
  unfold Spec.kept, isWord, isHyphen. reflexivity.
Qed.

(** What the optimized server lower-cases holds word characters only, so
    the ASCII mapping is all of [toLowerCase] there. *)
Lemma Collapsed_word (s s' : jsstring) :
  Spec.Collapsed s s' ->
  Forall (fun c => Spec.kept c = true) s ->
  Forall (fun c => isWord c = true) s'.
Proof.
  induction 1 as [|c s s' Hc _ IH|c run s s' Hrun Hhd _ IH]; intros Hall.
  - constructor.
  - inversion Hall as [|? ? Hk Hrest]; subst. constructor; [|by apply IH].
    unfold Spec.kept in Hk. unfold Spec.separator in Hc. unfold isWord.
    destruct (isSpace c), (c =? 45)%N; simpl in *; try discriminate.
    rewrite !orb_false_r in Hk. exact Hk.
  - constructor; [reflexivity|]. apply IH.
    change (c :: run ++ s) with ((c :: run) ++ s) in Hall.
    by apply Forall_app in Hall as [_ ?].
Qed.

Lemma Optimized_lowercase_input_is_word (filename : jsstring) :
  Forall (fun c => isWord c = true)
    (replaceAllRuns (fun c => isHyphen c || isSpace c) (str "_")
       (replaceAllClass (fun c => negb (isWord c || isSpace c || isHyphen c))
          [] filename)).
Proof.
  eapply Collapsed_word.
  - apply replaceRunsFrom_collapsed. reflexivity.
  - rewrite replaceAllClass_strip. apply Forall_forall. intros c Hc.
    apply list_elem_of_filter in Hc as [Hc _].
    by rewrite <- kept_class.
Qed.

Lemma Basic_lowercase_input_is_word (filename : jsstring) :
  Forall (fun c => isWord c = true)
    (replaceAllClass (fun c => negb (isLower c || isUpper c || isDigit c))
       (str "_") filename).
Proof.
  unfold replaceAllClass. induction filename as [|c s IH]; simpl; [constructor|].
  apply Forall_app. split; [|exact IH].
  destruct (isLower c || isUpper c || isDigit c) eqn:E; simpl.
  - constructor; [|constructor]. unfold isWord.
    destruct (isLower c), (isUpper c), (isDigit c); simpl in *; try reflexivity;
      discriminate.
  - constructor; [reflexivity | constructor].
Qed.

(** [Collapsed] determines its result: a run is taken whole. *)
Lemma maximal_run_unique (run run' s s' : jsstring) :
  run ++ s = run' ++ s' ->
  Forall (fun x => Spec.separator x = true) run ->
  Forall (fun x => Spec.separator x = true) run' ->
  head (Spec.separator <$> s) <> Some true ->
  head (Spec.separator <$> s') <> Some true ->
  run = run' /\ s = s'.
Proof.
  revert run'. induction run as [|c run IH]; intros [|c' run'] Heq Hr Hr' Hs Hs';
    simpl in Heq.
  - by split.
  - subst s. inversion Hr' as [|? ? Hc _]; subst. simpl in Hs.
    rewrite Hc in Hs. congruence.
  - subst s'. inversion Hr as [|? ? Hc _]; subst. simpl in Hs'.
    rewrite Hc in Hs'. congruence.
  - injection Heq as -> Heq. inversion Hr; inversion Hr'; subst.
    destruct (IH run' Heq) as [-> ->]; auto.
Qed.

Lemma Collapsed_functional (s a b : jsstring) :
  Spec.Collapsed s a -> Spec.Collapsed s b -> a = b.
Proof.
  intros Ha. revert b.
  induction Ha as [|c s s' Hc _ IH|c run s s' Hrun Hhd _ IH]; intros b Hb.
  - remember [] as whole eqn:Hwhole.
    destruct Hb; [reflexivity | discriminate Hwhole | discriminate Hwhole].
  - remember (c :: s) as whole eqn:Hwhole.
    destruct Hb as [|c0 s0 s0' Hc0 Hs0|c0 run0 s0 s0' Hrun0 Hhd0 Hs0].
    + discriminate Hwhole.
    + injection Hwhole as -> ->. f_equal. by apply IH.
    + simpl in Hwhole. injection Hwhole as -> _.
      inversion Hrun0; subst. congruence.
  - remember ((c :: run) ++ s) as whole eqn:Hwhole.
    destruct Hb as [|c0 s0 s0' Hc0 Hs0|c0 run0 s0 s0' Hrun0 Hhd0 Hs0].
    + discriminate Hwhole.
    + simpl in Hwhole. injection Hwhole as -> _.
      inversion Hrun; subst. congruence.
    + destruct (maximal_run_unique _ _ _ _ Hwhole Hrun0 Hrun Hhd0 Hhd)
        as [_ ->].
      f_equal. by apply IH.
Qed.

Lemma Collapsed_length (s s' : jsstring) :
  Spec.Collapsed s s' -> (length s' <= length s)%nat.
Proof.
  induction 1; simpl; [lia | lia |]. rewrite length_app. lia.
Qed.

(** C7 (as amended).  The optimized server's [sanitizeFilename] keeps the
    characters of [[A-Za-z0-9_\s-]] only, replaces every maximal run of white
    space and hyphens in what is kept by one underscore, lower-cases and
    truncates to 100 code units; ["Artist: Song (Live) #1!"] becomes
    ["artist_song_live_1"].  The basic server's [sanitizeFilename] replaces
    each character outside [[A-Za-z0-9]] by an underscore and lower-cases,
    without collapsing or truncating. *)
Theorem sanitizeFilename_spec (filename : jsstring) :
  (exists collapsed,
      Spec.Collapsed (filter (fun c => Spec.kept c = true) filename) collapsed
      /\ Optimized.sanitizeFilename filename
         = take 100 (toLowerCase collapsed))
  /\ (length (Optimized.sanitizeFilename filename) <= 100)%nat
  /\ Forall (fun c => (isLower c || isDigit c || (c =? 95)%N) = true)
       (Optimized.sanitizeFilename filename)
  /\ Optimized.sanitizeFilename (str "Artist: Song (Live) #1!")
     = str "artist_song_live_1"
  /\ Basic.sanitizeFilename filename
     = map (fun c => if isLower c || isUpper c || isDigit c
                     then toLowerCaseUnit c else 95%N) filename.
Proof.
  split; [|split; [|split; [|split]]].
  - eexists. split.
    + rewrite <- (replaceAllClass_strip Spec.kept).
      apply replaceRunsFrom_collapsed. reflexivity.
    + reflexivity.
  - unfold Optimized.sanitizeFilename, substring0. rewrite length_take. lia.
  - unfold Optimized.sanitizeFilename, substring0, toLowerCase.
    apply Forall_take, Forall_fmap.
    eapply Forall_impl; [apply Optimized_lowercase_input_is_word|].
    intros c Hc. simpl. unfold toLowerCaseUnit, isWord in *.
    destruct (isUpper c) eqn:Eu.
    + unfold isUpper, isLower, isDigit, between in *.
      apply andb_true_iff in Eu as [H1 H2].
      apply N.leb_le in H1. apply N.leb_le in H2.
      replace ((97 <=? c + 32)%N) with true by (symmetry; apply N.leb_le; lia).
      replace ((c + 32 <=? 122)%N) with true by (symmetry; apply N.leb_le; lia).
      reflexivity.
    + simpl in Hc. exact Hc.
  - vm_compute. reflexivity.
  - unfold Basic.sanitizeFilename, toLowerCase, replaceAllClass.
    induction filename as [|c s IH]; [reflexivity|].
    simpl. destruct (isLower c || isUpper c || isDigit c); simpl;
      f_equal; exact IH.
Qed.

(** C7, the claim as it is written, fails for the basic server. *)
Lemma sanitizeFilename_basic_differs :
  Basic.sanitizeFilename (str "Artist: Song (Live) #1!")
  = str "artist__song__live___1_"
  /\ Basic.sanitizeFilename (str "Artist: Song (Live) #1!")
     <> str "artist_song_live_1"
  /\ length (Basic.sanitizeFilename (replicate 101 97%N)) = 101%nat.
Proof.
  split; [vm_compute; reflexivity|]. split; [|vm_compute; reflexivity].
  vm_compute. discriminate.
Qed.

(** ** Format selection *)

Lemma numericBitrate_orZero (f : Format) :
  orZero (parseInt (audioBitrate f)) = Spec.numericBitrate f.
Proof. unfold Spec.numericBitrate, orZero. by destruct (parseInt _). Qed.

Lemma betterOf_cases (best current : Format) :
  (Spec.numericBitrate best < Spec.numericBitrate current
   /\ Optimized.betterOf best current = current)
  \/ (Spec.numericBitrate current <= Spec.numericBitrate best
      /\ Optimized.betterOf best current = best).
Proof.
  unfold Optimized.betterOf. rewrite !numericBitrate_orZero.
  destruct (Z.ltb_spec (Spec.numericBitrate best) (Spec.numericBitrate current));
    [left | right]; by split.
Qed.

(** The invariant of the scan: the accumulator is the first maximum of what
    has been seen. *)
Lemma bestFormat_scan (rest seen : list Format) (i : nat) (acc : Format) :
  Spec.IsFirstMaximum seen i acc ->
  exists i',
    Spec.IsFirstMaximum (seen ++ rest) i' (fold_left Optimized.betterOf rest acc).
Proof.
  revert seen i acc. induction rest as [|x rest IH]; intros seen i acc Hinv.
  - exists i. by rewrite app_nil_r.
  - simpl. replace (seen ++ x :: rest) with ((seen ++ [x]) ++ rest)
      by (by rewrite <- app_assoc).
    destruct Hinv as (Hat & Hmax & Hfirst).
    destruct (betterOf_cases acc x) as [[Hlt ->] | [Hle ->]].
    + apply (IH _ (length seen)). repeat split.
      * rewrite lookup_app_r by lia. by rewrite Nat.sub_diag.
      * intros j g Hj. apply lookup_app_Some in Hj as [Hj | [_ Hj]].
        -- specialize (Hmax _ _ Hj). lia.
        -- destruct (j - length seen)%nat; simpl in Hj; [|done].
           injection Hj as ->. lia.
      * intros j g Hlt' Hj. rewrite lookup_app_l in Hj by lia.
        specialize (Hmax _ _ Hj). lia.
    + apply (IH _ i). repeat split.
      * apply lookup_app_l_Some. exact Hat.
      * intros j g Hj. apply lookup_app_Some in Hj as [Hj | [_ Hj]].
        -- eauto.
        -- destruct (j - length seen)%nat; simpl in Hj; [|done].
           by injection Hj as ->.
      * intros j g Hlt' Hj. apply lookup_lt_Some in Hat.
        rewrite lookup_app_l in Hj by lia. eauto.
Qed.

(** An integer of at most 53 bits is a double, and [parseInt] of such a
    number is the number. *)
Lemma toDouble_exact (z : Z) : Z.abs z < 2 ^ 53 -> toDouble z = z.
Proof.
  intros Hsmall. unfold toDouble. cbv zeta.
  assert (Hbits : Z.log2 (Z.abs z) + 1 - 53 <= 0).
  { destruct (Z.eq_dec (Z.abs z) 0) as [->|Hnz]; [simpl; lia|].
    assert (Z.log2 (Z.abs z) < 53); [|lia].
    apply Z.log2_lt_pow2; lia. }
  destruct (Z.leb_spec (Z.log2 (Z.abs z) + 1 - 53) 0); [reflexivity | lia].
Qed.

Lemma parseInt_safe_integer (z : Z) :
  Z.abs z < 2 ^ 53 -> parseInt (JNum z) = Some z.
Proof.
  intros Hsmall. unfold parseInt, parseIntNumber. cbv zeta.
  rewrite (toDouble_exact z Hsmall).
  assert (H53 : 2 ^ 53 = 9007199254740992) by reflexivity.
  assert (H21 : 10 ^ 21 = 1000000000000000000000) by reflexivity.
  assert (Hinf : 2 ^ 53 < infinity) by (vm_compute; reflexivity).
  destruct (Z.leb_spec infinity (Z.abs z)); [lia|].
  destruct (Z.ltb_spec (Z.abs z) (10 ^ 21)); [reflexivity | lia].
Qed.

(** C4.  On a non-empty list of audio-only formats the selector returns the
    first format of maximal numeric bit rate: nothing in the list has a larger
    one and nothing before it has one as large.  The numeric bit rate is what
    [parseInt] makes of the field, a double: a bit rate that is missing or
    does not parse as a number counts as 0, an integer of at most 53 bits
    counts as itself, and two fields that read as the same double tie, the
    first one winning.  For the bit rates 64, 160, 128, 160 the result is the
    format at position 1. *)
Theorem bestFormat_first_maximum (first : Format) (rest : list Format) :
  (exists i best,
      Optimized.bestFormat (first :: rest) = Some best
      /\ Spec.IsFirstMaximum (first :: rest) i best)
  /\ (forall best current,
        Optimized.betterOf best current
        = if Spec.numericBitrate best <? Spec.numericBitrate current
          then current else best)
  /\ (forall f, audioBitrate f = JUndefined \/ audioBitrate f = JNull ->
        orZero (parseInt (audioBitrate f)) = 0)
  /\ (forall f, parseInt (audioBitrate f) = None ->
        orZero (parseInt (audioBitrate f)) = 0)
  /\ parseInt (JStr (str "high")) = None
  /\ parseInt (JStr (str "")) = None
  /\ parseInt (JStr (str "160")) = Some 160
  /\ Optimized.bestFormat (formats Sample.info) = Some (Sample.format (JNum 160) 2)
  /\ Optimized.bestFormat
       [Sample.format JUndefined 1; Sample.format (JStr (str "n/a")) 2;
        Sample.format (JNum 48) 3; Sample.format (JNum 48) 4]
     = Some (Sample.format (JNum 48) 3)
  /\ (forall f z, audioBitrate f = JNum z -> Z.abs z < 2 ^ 53 ->
        Spec.numericBitrate f = z)
  /\ parseInt (JStr (str "9007199254740993")) = Some 9007199254740992
  /\ Optimized.bestFormat
       [Sample.format (JStr (str "9007199254740992")) 1;
        Sample.format (JStr (str "9007199254740993")) 2]
     = Some (Sample.format (JStr (str "9007199254740992")) 1)
  /\ parseInt (JNum (10 ^ 21)) = Some 1
  /\ Optimized.bestFormat
       [Sample.format (JNum 2) 1; Sample.format (JNum (10 ^ 21)) 2]
     = Some (Sample.format (JNum 2) 1).
Proof.
  split; [|split; [|split; [|split; [|split; [|split; [|split; [|split;
    [|split; [|split]]]]]]]]].
  - destruct (bestFormat_scan rest [first] 0 first) as [i Hi].
    + repeat split.
      * intros j g Hj. destruct j; simpl in Hj; [|done].
        injection Hj as ->. lia.
      * intros j g Hlt. lia.
    + exists i, (fold_left Optimized.betterOf rest first). by split.
  - intros best current. unfold Optimized.betterOf.
    by rewrite !numericBitrate_orZero.
  - intros f [-> | ->]; reflexivity.
  - intros f ->. reflexivity.
  - vm_compute; reflexivity.
  - vm_compute; reflexivity.
  - vm_compute; reflexivity.
  - vm_compute; reflexivity.
  - vm_compute; reflexivity.
  - intros f z Hf Hsmall. unfold Spec.numericBitrate.
    by rewrite Hf, (parseInt_safe_integer z Hsmall).
  - repeat split; vm_compute; reflexivity.
Qed.

(** ** The metadata cache *)

Lemma evolved_id (st : State) : evolved 0 [] (videoInfoCache st) st = st.
Proof. destruct st. unfold evolved. simpl. by rewrite app_nil_r, Z.add_0_r. Qed.

Lemma evolved_evolved dt1 es1 c1 dt2 es2 c2 st :
  evolved dt2 es2 c2 (evolved dt1 es1 c1 st)
  = evolved (dt1 + dt2) (es1 ++ es2) c2 st.
Proof. unfold evolved. simpl. by rewrite app_assoc, Z.add_assoc. Qed.

Lemma resolverCalls_evolved dt es c st :
  resolverCalls (evolved dt es c st)
  = (resolverCalls st + length (resolvesOf es))%nat.
Proof. unfold resolverCalls, resolvesOf. simpl. by rewrite filter_app, length_app. Qed.

Lemma lookupCached_run (videoId : jsstring) (st : State) :
  Optimized.lookupCached videoId st
  = (Fulfilled (freshHit videoId st),
     evolved 0 [CacheRead videoId] (videoInfoCache st) st).
Proof.
  unfold Optimized.lookupCached, evolved, freshHit. unfold_monad. simpl.
  rewrite Z.add_0_r.
  destruct (JsMap.get videoId (videoInfoCache st)) as [c|]; [|reflexivity].
  by destruct (clock st - timestamp c <? Optimized.CACHE_TTL).
Qed.

Lemma ytdlGetInfo_run (env : Env) (videoUrl : jsstring) (st : State) :
  ytdlGetInfo env videoUrl st
  = (snd (ytdl_getInfo env (resolverCalls st) videoUrl),
     evolved (fst (ytdl_getInfo env (resolverCalls st) videoUrl))
       [Resolve videoUrl] (videoInfoCache st) st).
Proof.
  unfold ytdlGetInfo, issueGetInfo, awaitGetInfo, evolved. unfold_monad. simpl.
  destruct (ytdl_getInfo env (resolverCalls st) videoUrl) as [elapsed [info|err]];
    reflexivity.
Qed.

Lemma storeResolved_run (videoId : jsstring) (info : VideoInfo) (st : State) :
  Optimized.storeResolved videoId info st
  = let stored :=
      JsMap.set videoId {| data := info; timestamp := clock st |}
        (videoInfoCache st) in
    (Fulfilled info,
     evolved 0 (CacheWrite videoId :: evictionEffects stored)
       (evictOldest stored) st).
Proof.
  unfold Optimized.storeResolved, evolved, evictionEffects, evictOldest.
  unfold_monad. simpl. rewrite Z.add_0_r. unfold JsMap.size.
  destruct (1000 <? length _)%nat; simpl.
  - destruct (JsMap.firstKey _); simpl; [by rewrite <- app_assoc | reflexivity].
  - reflexivity.
Qed.

Lemma getCachedVideoInfo_run env videoUrl videoId st :
  Optimized.getCachedVideoInfo env videoUrl videoId st
  = match freshHit videoId st with
    | Some cachedData =>
        (Fulfilled cachedData,
         evolved 0 [CacheRead videoId] (videoInfoCache st) st)
    | None =>
        let elapsed := fst (ytdl_getInfo env (resolverCalls st) videoUrl) in
        match snd (ytdl_getInfo env (resolverCalls st) videoUrl) with
        | Rejected err =>
            (Rejected err,
             evolved elapsed [CacheRead videoId; Resolve videoUrl]
               (videoInfoCache st) st)
        | Fulfilled info =>
            let stored :=
              JsMap.set videoId
                {| data := info; timestamp := clock st + elapsed |}
                (videoInfoCache st) in
            (Fulfilled info,
             evolved elapsed
               ([CacheRead videoId; Resolve videoUrl; CacheWrite videoId]
                ++ evictionEffects stored)
               (evictOldest stored) st)
        end
    end.
Proof.
  unfold Optimized.getCachedVideoInfo. unfold bind at 1.
  rewrite lookupCached_run. destruct (freshHit videoId st) as [d|]; [reflexivity|].
  unfold bind. rewrite ytdlGetInfo_run, resolverCalls_evolved. simpl.
  rewrite Nat.add_0_r.
  destruct (snd (ytdl_getInfo env (resolverCalls st) videoUrl)) as [info|err].
  - rewrite storeResolved_run. simpl. rewrite !evolved_evolved. simpl.
    rewrite ?Z.add_0_r, ?Z.add_0_l. reflexivity.
  - rewrite evolved_evolved. simpl. rewrite ?Z.add_0_l. reflexivity.
Qed.

Section JsMapFacts.
Context {V : Type}.
Implicit Types (m : JsMap.t V) (k : jsstring) (v : V).

Lemma get_set_eq k v m : JsMap.get k (JsMap.set k v m) = Some v.
Proof.
  induction m as [|[k' v'] m IH]; simpl.
  - by rewrite decide_True.
  - destruct (decide (k' = k)) as [->|Hne]; simpl.
    + by rewrite decide_True.
    + by rewrite decide_False.
Qed.

Lemma get_set_ne k k' v m :
  k <> k' -> JsMap.get k' (JsMap.set k v m) = JsMap.get k' m.
Proof.
  intros Hne. induction m as [|[k0 v0] m IH]; simpl.
  - by rewrite decide_False.
  - destruct (decide (k0 = k)) as [->|Hne0]; simpl.
    + by rewrite !decide_False.
    + by rewrite IH.
Qed.

Lemma set_absent k v m :
  JsMap.get k m = None -> JsMap.set k v m = m ++ [(k, v)].
Proof.
  induction m as [|[k' v'] m IH]; simpl; [reflexivity|].
  destruct (decide (k' = k)); [discriminate|]. intros H. by rewrite IH.
Qed.

Lemma size_set_present k v m :
  is_Some (JsMap.get k m) -> JsMap.size (JsMap.set k v m) = JsMap.size m.
Proof.
  unfold JsMap.size. induction m as [|[k' v'] m IH]; simpl.
  - intros [? ?]. discriminate.
  - destruct (decide (k' = k)); simpl; [reflexivity|]. intros H. by rewrite IH.
Qed.

Lemma size_set_le k v m :
  (JsMap.size (JsMap.set k v m) <= S (JsMap.size m))%nat.
Proof.
  unfold JsMap.size. induction m as [|[k' v'] m IH]; simpl; [lia|].
  destruct (decide (k' = k)); simpl; lia.
Qed.

Lemma delete_firstKey entry m :
  JsMap.firstKey (entry :: m) = Some entry.1
  /\ JsMap.delete entry.1 (entry :: m) = m.
Proof. destruct entry as [k v]. simpl. by rewrite decide_True. Qed.
End JsMapFacts.

Lemma evictOldest_small (c : JsMap.t CacheEntry) :
  (JsMap.size c <= 1000)%nat -> evictOldest c = c /\ evictionEffects c = [].
Proof.
  intros H. unfold evictOldest, evictionEffects.
  destruct (Nat.ltb_spec 1000 (JsMap.size c)); [lia | done].
Qed.

Lemma evictOldest_over (entry : jsstring * CacheEntry) (c : JsMap.t CacheEntry) :
  (1000 <= JsMap.size c)%nat ->
  evictOldest (entry :: c) = c
  /\ evictionEffects (entry :: c) = [CacheDelete entry.1].
Proof.
  intros H. unfold evictOldest, evictionEffects.
  destruct (Nat.ltb_spec 1000 (JsMap.size (entry :: c))) as [_|Hle].
  - destruct (delete_firstKey entry c) as [-> ->]. done.
  - unfold JsMap.size in *. simpl in Hle. lia.
Qed.

Lemma evictOldest_bounded (k : jsstring) (e : CacheEntry) (c : JsMap.t CacheEntry) :
  (JsMap.size c <= 1000)%nat ->
  (JsMap.size (evictOldest (JsMap.set k e c)) <= 1000)%nat.
Proof.
  intros Hc. pose proof (size_set_le k e c) as Hle.
  destruct (JsMap.set k e c) as [|entry rest] eqn:E.
  - unfold evictOldest, JsMap.size. simpl. lia.
  - destruct (Nat.le_gt_cases 1000 (JsMap.size rest)).
    + destruct (evictOldest_over entry rest) as [-> _]; [done|].
      unfold JsMap.size in *. simpl in Hle. lia.
    + destruct (evictOldest_small (entry :: rest)) as [-> _];
        unfold JsMap.size in *; simpl in *; lia.
Qed.

(** A new key goes to the end; at the bound the head is what leaves. *)
Lemma store_new_key (k : jsstring) (e : CacheEntry) (c : JsMap.t CacheEntry) :
  JsMap.get k c = None ->
  evictOldest (JsMap.set k e c)
  = if (1000 <=? JsMap.size c)%nat then tail c ++ [(k, e)] else c ++ [(k, e)].
Proof.
  intros Habsent. rewrite (set_absent _ _ _ Habsent).
  destruct (Nat.leb_spec 1000 (JsMap.size c)) as [Hfull|Hroom].
  - destruct c as [|entry rest]; [unfold JsMap.size in Hfull; simpl in Hfull; lia|].
    simpl. destruct (evictOldest_over entry (rest ++ [(k, e)])) as [-> _]; [|done].
    unfold JsMap.size in *. rewrite length_app. simpl in *. lia.
  - destruct (evictOldest_small (c ++ [(k, e)])) as [-> _]; [|done].
    unfold JsMap.size in *. rewrite length_app. simpl. lia.
Qed.

Lemma get_appended (k : jsstring) (e : CacheEntry) (c : JsMap.t CacheEntry) :
  JsMap.get k c = None -> JsMap.get k (c ++ [(k, e)]) = Some e.
Proof.
  induction c as [|[k' v'] c IH]; simpl.
  - by rewrite decide_True.
  - destruct (decide (k' = k)); [discriminate | exact IH].
Qed.

Lemma get_after_store_new (k : jsstring) (e : CacheEntry)
  (c : JsMap.t CacheEntry) :
  JsMap.get k c = None ->
  JsMap.get k (evictOldest (JsMap.set k e c)) = Some e.
Proof.
  intros Habsent. rewrite store_new_key by done.
  destruct (1000 <=? JsMap.size c)%nat; [|by apply get_appended].
  destruct c as [|[k' v'] rest]; simpl in *; [by rewrite decide_True|].
  destruct (decide (k' = k)); [discriminate | by apply get_appended].
Qed.

Lemma get_after_store (k : jsstring) (e : CacheEntry) (c : JsMap.t CacheEntry) :
  (JsMap.size c <= 1000)%nat ->
  JsMap.get k (evictOldest (JsMap.set k e c)) = Some e.
Proof.
  intros Hbound. destruct (JsMap.get k c) as [old|] eqn:E.
  - destruct (evictOldest_small (JsMap.set k e c)) as [-> _].
    + rewrite size_set_present; [done | by rewrite E].
    + apply get_set_eq.
  - by apply get_after_store_new.
Qed.

Lemma added_evolved (dt : Z) (es : list Effect) (c : JsMap.t CacheEntry)
  (st : State) :
  added st (evolved dt es c st) = es.
Proof. unfold added, evolved. simpl. by rewrite drop_app_length. Qed.

Lemma freshHit_hit (videoId : jsstring) (st : State) (e : CacheEntry) :
  JsMap.get videoId (videoInfoCache st) = Some e ->
  clock st - timestamp e < Optimized.CACHE_TTL ->
  freshHit videoId st = Some (data e).
Proof.
  intros Hget Hfresh. unfold freshHit. rewrite Hget.
  destruct (Z.ltb_spec (clock st - timestamp e) Optimized.CACHE_TTL);
    [reflexivity | lia].
Qed.

Lemma freshHit_miss (videoId : jsstring) (st : State) :
  (forall e, JsMap.get videoId (videoInfoCache st) = Some e ->
     Optimized.CACHE_TTL <= clock st - timestamp e) ->
  freshHit videoId st = None.
Proof.
  intros Hstale. unfold freshHit.
  destruct (JsMap.get videoId (videoInfoCache st)) as [e|]; [|reflexivity].
  specialize (Hstale e eq_refl).
  destruct (Z.ltb_spec (clock st - timestamp e) Optimized.CACHE_TTL);
    [lia | reflexivity].
Qed.

Lemma resolvesOf_eviction (c : JsMap.t CacheEntry) :
  resolvesOf (evictionEffects c) = [].
Proof.
  unfold evictionEffects. destruct (1000 <? _)%nat; [|reflexivity].
  by destruct (JsMap.firstKey _).
Qed.

Lemma resolvesOf_cons (e : Effect) (es : list Effect) :
  resolvesOf (e :: es)
  = if isResolve e then e :: resolvesOf es else resolvesOf es.
Proof.
  unfold resolvesOf. rewrite filter_cons. by destruct (isResolve e).
Qed.

Lemma sleepsOf_cons (e : Effect) (es : list Effect) :
  sleepsOf (e :: es) = if isSleep e then e :: sleepsOf es else sleepsOf es.
Proof.
  unfold sleepsOf. rewrite filter_cons. by destruct (isSleep e).
Qed.

(** C5.  A lookup that finds an entry younger than ten minutes returns its
    metadata, calls the resolver not at all and leaves the cache as it is.  A
    lookup that finds nothing, or an entry of ten minutes or more, calls the
    resolver exactly once; when the resolver answers, the answer is returned
    and stands in the cache under the identifier with the time of the store as
    its timestamp; when it fails, the failure is passed on and the cache is
    left as it is. *)
Theorem getCachedVideoInfo_contract (env : Env) (videoUrl videoId : jsstring)
  (st : State) :
  CacheBounded st ->
  let outcome := fst (Optimized.getCachedVideoInfo env videoUrl videoId st) in
  let st' := snd (Optimized.getCachedVideoInfo env videoUrl videoId st) in
  (forall e,
      JsMap.get videoId (videoInfoCache st) = Some e ->
      clock st - timestamp e < 10 * 60 * 1000 ->
      outcome = Fulfilled (data e)
      /\ resolvesOf (added st st') = []
      /\ videoInfoCache st' = videoInfoCache st)
  /\ ((forall e,
         JsMap.get videoId (videoInfoCache st) = Some e ->
         10 * 60 * 1000 <= clock st - timestamp e) ->
      resolvesOf (added st st') = [Resolve videoUrl]
      /\ outcome = snd (ytdl_getInfo env (resolverCalls st) videoUrl)
      /\ (forall info,
            outcome = Fulfilled info ->
            JsMap.get videoId (videoInfoCache st')
            = Some {| data := info; timestamp := clock st' |}
            /\ CacheBounded st')
      /\ (forall err,
            outcome = Rejected err ->
            videoInfoCache st' = videoInfoCache st)).
Proof.
  intros Hbound outcome st'. subst outcome st'.
  rewrite getCachedVideoInfo_run. split.
  - intros e Hget Hfresh. rewrite (freshHit_hit _ _ _ Hget Hfresh). simpl.
    rewrite added_evolved. done.
  - intros Hstale. rewrite (freshHit_miss _ _ Hstale). simpl.
    destruct (snd (ytdl_getInfo env (resolverCalls st) videoUrl))
      as [info|err]; cbn [fst snd]; rewrite added_evolved.
    + repeat split.
      * rewrite !resolvesOf_cons. simpl. by rewrite resolvesOf_eviction.
      * injection H as <-. by apply get_after_store.
      * injection H as <-. unfold CacheBounded. simpl.
        by apply evictOldest_bounded.
      * discriminate.
    + repeat split; discriminate.
Qed.

Lemma getCachedVideoInfo_contract_witness :
  CacheBounded (Optimized.initial 0)
  /\ (let st := Optimized.initial 0 in
      let st' :=
        snd (Optimized.getCachedVideoInfo Sample.steady
               (watchUrl Sample.goodId) Sample.goodId st) in
      resolvesOf (added st st') = [Resolve (watchUrl Sample.goodId)]
      /\ JsMap.get Sample.goodId (videoInfoCache st')
         = Some {| data := Sample.info; timestamp := 250 |})
  /\ (let st := Optimized.run Sample.steady
                  [(0, Optimized.GetVideoInfo Sample.goodId)]
                  (Optimized.initial 0) in
      let st' :=
        snd (Optimized.getCachedVideoInfo Sample.steady
               (watchUrl Sample.goodId) Sample.goodId
               (snd (advance 599999 st))) in
      resolvesOf (added (snd (advance 599999 st)) st') = []).
Proof.
  assert (Hinit : CacheBounded (Optimized.initial 0)) by (vm_compute; lia).
  split; [exact Hinit|]. split.
  - destruct (getCachedVideoInfo_contract Sample.steady
                (watchUrl Sample.goodId) Sample.goodId (Optimized.initial 0)
                Hinit) as [_ Hmiss].
    destruct Hmiss as (Hcalls & _ & Hstored & _).
    + intros e He. vm_compute in He. discriminate.
    + split; [exact Hcalls|].
      destruct (Hstored Sample.info) as [Hget _]; [vm_compute; reflexivity|].
      exact Hget.
  - assert (Hb : CacheBounded
             (snd (advance 599999
                (Optimized.run Sample.steady
                   [(0, Optimized.GetVideoInfo Sample.goodId)]
                   (Optimized.initial 0))))) by (vm_compute; lia).
    destruct (getCachedVideoInfo_contract Sample.steady
                (watchUrl Sample.goodId) Sample.goodId _ Hb) as [Hhit _].
    destruct (Hhit {| data := Sample.info; timestamp := 250 |})
      as (_ & Hnone & _).
    + vm_compute. reflexivity.
    + vm_compute. reflexivity.
    + exact Hnone.
Defined.

(** C6.  When the cache holds 1000 entries and a lookup resolves an identifier
    that is not in it, the entry that leaves is the first in insertion order,
    the new entry goes to the end, and the cache holds 1000 entries again.  A
    lookup answered from the cache leaves every entry where it is. *)
Theorem cache_eviction_is_fifo (env : Env) (videoUrl videoId : jsstring)
  (st : State) (info : VideoInfo) :
  JsMap.size (videoInfoCache st) = 1000%nat ->
  JsMap.get videoId (videoInfoCache st) = None ->
  snd (ytdl_getInfo env (resolverCalls st) videoUrl) = Fulfilled info ->
  let st' := snd (Optimized.getCachedVideoInfo env videoUrl videoId st) in
  (exists oldest rest,
      videoInfoCache st = oldest :: rest
      /\ videoInfoCache st'
         = rest ++ [(videoId, {| data := info; timestamp := clock st' |})]
      /\ added st st'
         = [CacheRead videoId; Resolve videoUrl; CacheWrite videoId;
            CacheDelete oldest.1])
  /\ JsMap.size (videoInfoCache st') = 1000%nat
  /\ (forall (readUrl readId : jsstring) (before : State) (e : CacheEntry),
        JsMap.get readId (videoInfoCache before) = Some e ->
        clock before - timestamp e < 10 * 60 * 1000 ->
        videoInfoCache
          (snd (Optimized.getCachedVideoInfo env readUrl readId before))
        = videoInfoCache before).
Proof.
  intros Hsize Habsent Hok st'. subst st'.
  rewrite getCachedVideoInfo_run.
  rewrite freshHit_miss by (intros e He; congruence).
  rewrite Hok. cbn [fst snd].
  destruct (videoInfoCache st) as [|oldest rest] eqn:Ecache;
    [unfold JsMap.size in Hsize; simpl in Hsize; lia|].
  rewrite <- Ecache in Habsent.
  set (entry := {| data := info; timestamp := _ |}).
  rewrite added_evolved.
  assert (Hset : JsMap.set videoId entry (oldest :: rest)
                 = oldest :: (rest ++ [(videoId, entry)])).
  { rewrite <- Ecache, set_absent by done. by rewrite Ecache. }
  rewrite Hset.
  destruct (evictOldest_over oldest (rest ++ [(videoId, entry)])) as [Hev Heff].
  { unfold JsMap.size in *. rewrite length_app. simpl in *. lia. }
  rewrite Hev, Heff. split; [|split].
  - exists oldest, rest. done.
  - simpl. unfold JsMap.size in *. rewrite length_app. simpl in *. lia.
  - intros readUrl readId before e Hget Hfresh.
    rewrite getCachedVideoInfo_run, (freshHit_hit _ _ _ Hget Hfresh).
    reflexivity.
Qed.

Lemma cache_eviction_is_fifo_witness :
  let st := Sample.fullState 600000 in
  let st' :=
    snd (Optimized.getCachedVideoInfo Sample.steady
           (watchUrl Sample.goodId) Sample.goodId st) in
  JsMap.size (videoInfoCache st) = 1000%nat
  /\ JsMap.firstKey (videoInfoCache st) = Some [0%N]
  /\ JsMap.firstKey (videoInfoCache st') = Some [1%N]
  /\ JsMap.size (videoInfoCache st') = 1000%nat.
Proof.
  assert (Hsize : JsMap.size (videoInfoCache (Sample.fullState 600000))
                  = 1000%nat) by (vm_compute; reflexivity).
  assert (Habsent : JsMap.get Sample.goodId
                      (videoInfoCache (Sample.fullState 600000)) = None)
    by (vm_compute; reflexivity).
  destruct (cache_eviction_is_fifo Sample.steady (watchUrl Sample.goodId)
              Sample.goodId (Sample.fullState 600000) Sample.info
              Hsize Habsent eq_refl)
    as ((oldest & rest & Hold & Hnew & _) & Hsize' & _).
  cbv zeta. split; [exact Hsize|]. split; [vm_compute; reflexivity|].
  split; [|exact Hsize'].
  rewrite Hnew. vm_compute in Hold. injection Hold as <- <-.
  vm_compute. reflexivity.
Defined.

(** ** Resolver calls and delays, computation by computation *)

Section Costs.
Context {A B : Type}.

Lemma atMost_ret (a : A) : AtMost 0 (ret a).
Proof. intros st. simpl. split; [lia | reflexivity]. Qed.

Lemma atMost_throw (e : JsError) : AtMost 0 (@throw A e).
Proof. intros st. simpl. split; [lia | reflexivity]. Qed.

Lemma atMost_weaken (c c' : nat) (m : M A) :
  (c <= c')%nat -> AtMost c m -> AtMost c' m.
Proof. intros Hle H st. destruct (H st) as [? ?]. split; [lia | done]. Qed.

Lemma atMost_bind (c1 c2 : nat) (m : M A) (k : A -> M B) :
  AtMost c1 m -> (forall a, AtMost c2 (k a)) -> AtMost (c1 + c2) (bind m k).
Proof.
  intros Hm Hk st. unfold bind. specialize (Hm st).
  destruct (m st) as [[a|e] st1]; simpl in *.
  - specialize (Hk a st1). destruct Hm as [? ?], Hk as [? ?].
    split; [lia | congruence].
  - destruct Hm as [? ?]. split; [lia | done].
Qed.

Lemma atMost_tryCatch (c1 c2 : nat) (body : M A) (handler : JsError -> M A) :
  AtMost c1 body -> (forall e, AtMost c2 (handler e)) ->
  AtMost (c1 + c2) (tryCatch body handler).
Proof.
  intros Hm Hk st. unfold tryCatch. specialize (Hm st).
  destruct (body st) as [[a|e] st1]; simpl in *.
  - destruct Hm as [? ?]. split; [lia | done].
  - specialize (Hk e st1). destruct Hm as [? ?], Hk as [? ?].
    split; [lia | congruence].
Qed.
End Costs.

Lemma atMost_state_only {A} (f : State -> A) (g : State -> State) :
  (forall st, effects (g st) = effects st) ->
  AtMost 0 (fun st => (Fulfilled (f st), g st)).
Proof.
  intros Hg st. simpl. unfold resolverCalls. rewrite Hg. split; [lia | done].
Qed.

Lemma atMost_emit (e : Effect) :
  isResolve e = false -> isSleep e = false -> AtMost 0 (emit e).
Proof.
  intros Hr Hs st. unfold emit, resolverCalls, sleepsOf. simpl.
  rewrite !filter_app, !filter_cons, Hr, Hs. simpl.
  rewrite !app_nil_r. split; [lia | done].
Qed.

Lemma atMost_free_bind {A B} (c : nat) (m : M A) (k : A -> M B) :
  AtMost 0 m -> (forall a, AtMost c (k a)) -> AtMost c (bind m k).
Proof. intros. by apply (atMost_bind 0 c). Qed.

Lemma atMost_bind_free {A B} (c : nat) (m : M A) (k : A -> M B) :
  AtMost c m -> (forall a, AtMost 0 (k a)) -> AtMost c (bind m k).
Proof. intros. rewrite <- (Nat.add_0_r c). by apply atMost_bind. Qed.

Lemma atMost_tryCatch_free {A} (c : nat) (body : M A)
  (handler : JsError -> M A) :
  AtMost c body -> (forall e, AtMost 0 (handler e)) ->
  AtMost c (tryCatch body handler).
Proof. intros. rewrite <- (Nat.add_0_r c). by apply atMost_tryCatch. Qed.

Create HintDb free discriminated.

Lemma free_dateNow : AtMost 0 dateNow.
Proof. by apply (atMost_state_only clock id). Qed.

Lemma free_getCache : AtMost 0 getCache.
Proof. by apply (atMost_state_only videoInfoCache id). Qed.

Lemma free_getRes : AtMost 0 getRes.
Proof. by apply (atMost_state_only res id). Qed.

Lemma free_putCache (c : JsMap.t CacheEntry) : AtMost 0 (putCache c).
Proof. by apply (atMost_state_only (fun _ => tt)). Qed.

Lemma free_modifyRes (f : Res -> Res) : AtMost 0 (modifyRes f).
Proof. by apply (atMost_state_only (fun _ => tt)). Qed.

Lemma free_advance (ms : Z) : AtMost 0 (advance ms).
Proof. by apply (atMost_state_only (fun _ => tt)). Qed.

Lemma free_nextUuid (env : Env) : AtMost 0 (nextUuid env).
Proof. by apply (atMost_state_only (fun st => uuidv4 env (uuids st))). Qed.

#[local] Hint Resolve atMost_ret atMost_throw free_dateNow free_getCache
  free_getRes free_putCache free_modifyRes free_advance free_nextUuid : free.

(** Splits a computation along [bind], [tryCatch] and its branches; what is
    left are the calls that may cost something. *)
Ltac free :=
  repeat first
    [ match goal with |- forall _, _ => intro end
    | solve [auto with free]
    | match goal with
      | |- AtMost _ (emit _) => apply atMost_emit; reflexivity
      | |- AtMost _ (bind _ _) => apply atMost_free_bind
      | |- AtMost _ (tryCatch _ _) => apply (atMost_tryCatch 0 0)
      | |- AtMost _ (if ?b then _ else _) => destruct b
      | |- AtMost _ (match ?x with _ => _ end) => destruct x
      end ].

Lemma free_cacheGet (k : jsstring) : AtMost 0 (cacheGet k).
Proof. unfold cacheGet. free. Qed.

Lemma free_cacheHas (k : jsstring) : AtMost 0 (cacheHas k).
Proof. unfold cacheHas. free. Qed.

Lemma free_cacheSet (k : jsstring) (e : CacheEntry) : AtMost 0 (cacheSet k e).
Proof. unfold cacheSet. free. Qed.

Lemma free_cacheDelete (k : option jsstring) : AtMost 0 (cacheDelete k).
Proof. unfold cacheDelete. free. Qed.

Lemma free_resJson (env : Env) (body : Json) : AtMost 0 (resJson env body).
Proof. apply free_modifyRes. Qed.

Lemma free_resStatus (code : Z) : AtMost 0 (resStatus code).
Proof. apply free_modifyRes. Qed.

Lemma free_resSet (hs : list (string * jsstring)) : AtMost 0 (resSet hs).
Proof. apply free_modifyRes. Qed.

Lemma free_resPipe (job : TranscodeJob) : AtMost 0 (resPipe job).
Proof. apply free_modifyRes. Qed.

Lemma free_headersSent : AtMost 0 headersSent.
Proof. unfold headersSent. free. Qed.

Lemma free_lookupCached (videoId : jsstring) :
  AtMost 0 (Optimized.lookupCached videoId).
Proof. unfold Optimized.lookupCached. free; apply free_cacheGet. Qed.

Lemma free_storeResolved (videoId : jsstring) (info : VideoInfo) :
  AtMost 0 (Optimized.storeResolved videoId info).
Proof.
  unfold Optimized.storeResolved, cacheSize, cacheFirstKey.
  free; first [apply free_cacheSet | apply free_cacheDelete].
Qed.

Lemma free_awaitGetInfo (env : Env) (n : nat) (videoUrl : jsstring) :
  AtMost 0 (awaitGetInfo env n videoUrl).
Proof. unfold awaitGetInfo. destruct (ytdl_getInfo env n videoUrl). free. Qed.

Lemma once_issueGetInfo (videoUrl : jsstring) :
  AtMost 1 (issueGetInfo videoUrl).
Proof.
  intros st. unfold issueGetInfo, emit, bind, ret, resolverCalls, sleepsOf.
  simpl. rewrite !filter_app, !filter_cons. simpl.
  rewrite length_app, app_nil_r. simpl. split; [lia | done].
Qed.

Lemma once_ytdlGetInfo (env : Env) (videoUrl : jsstring) :
  AtMost 1 (ytdlGetInfo env videoUrl).
Proof.
  unfold ytdlGetInfo. apply atMost_bind_free; [apply once_issueGetInfo|].
  intros n. apply free_awaitGetInfo.
Qed.

Lemma once_getCachedVideoInfo (env : Env) (videoUrl videoId : jsstring) :
  AtMost 1 (Optimized.getCachedVideoInfo env videoUrl videoId).
Proof.
  unfold Optimized.getCachedVideoInfo.
  apply atMost_free_bind; [apply free_lookupCached|].
  intros [cachedData|].
  - apply (atMost_weaken 0); [lia | apply atMost_ret].
  - apply atMost_bind_free; [apply once_ytdlGetInfo|].
    intros info. apply free_storeResolved.
Qed.

#[local] Hint Resolve free_cacheGet free_cacheHas free_cacheSet
  free_cacheDelete free_resJson free_resStatus free_resSet free_resPipe
  free_headersSent free_lookupCached free_storeResolved free_awaitGetInfo
  : free.

(** A handler that calls [getCachedVideoInfo] once and the resolver nowhere
    else. *)
Ltac one_lookup :=
  apply atMost_tryCatch_free; [|free];
  repeat match goal with
    | |- AtMost 1 (if ?b then _ else _) => destruct b
    | |- AtMost 1 (let _ := _ in _) => cbv zeta
    end;
  first
    [ apply atMost_bind_free; [apply once_getCachedVideoInfo | free]
    | apply (atMost_weaken 0); [lia | free] ].

Lemma once_directLink (env : Env) (videoId : jsstring) :
  AtMost 1 (Optimized.directLink env videoId).
Proof. unfold Optimized.directLink. one_lookup. Qed.

Lemma once_downloadMp3 (env : Env) (videoId : jsstring)
  (bitrate : option jsstring) :
  AtMost 1 (Optimized.downloadMp3 env videoId bitrate).
Proof. unfold Optimized.downloadMp3. one_lookup. Qed.

Lemma once_videoInfo (env : Env) (videoId : jsstring) :
  AtMost 1 (Optimized.videoInfo env videoId).
Proof. unfold Optimized.videoInfo. one_lookup. Qed.

Lemma once_formatsOf (env : Env) (videoId : jsstring) :
  AtMost 1 (Optimized.formatsOf env videoId).
Proof. unfold Optimized.formatsOf. one_lookup. Qed.

Lemma atMost_mapM {A B} (c : nat) (f : A -> M B) (l : list A) :
  (forall a, AtMost c (f a)) -> AtMost (length l * c) (Optimized.mapM f l).
Proof.
  intros Hf. induction l as [|a l IH]; simpl; [apply atMost_ret|].
  apply atMost_bind; [apply Hf|]. intros b.
  apply atMost_bind_free; [exact IH | intros; apply atMost_ret].
Qed.

Lemma atMost_settle {A} (c : nat) (m : M A) :
  AtMost c m -> AtMost c (Optimized.settle m).
Proof.
  intros Hm st. unfold Optimized.settle. specialize (Hm st).
  by destruct (m st).
Qed.

Lemma once_startItem (videoId : jsstring) :
  AtMost 1 (Optimized.startItem videoId).
Proof.
  unfold Optimized.startItem. destruct (negb _).
  - apply (atMost_weaken 0); [lia | free].
  - cbv zeta. apply atMost_free_bind; [apply free_lookupCached|].
    intros [d|]; [apply (atMost_weaken 0); [lia | free]|].
    apply atMost_bind_free; [apply once_issueGetInfo | free].
Qed.

Lemma free_queuedItem (env : Env) (videoId : jsstring) (info : VideoInfo) :
  AtMost 0 (Optimized.queuedItem env videoId info).
Proof. unfold Optimized.queuedItem. free. Qed.

Lemma free_resumeHit (env : Env) (s : Optimized.Started) :
  AtMost 0 (Optimized.resumeHit env s).
Proof.
  destruct s; simpl; free; apply atMost_settle, free_queuedItem.
Qed.

Lemma free_resumePending (env : Env) (p : Optimized.Progress) :
  AtMost 0 (Optimized.resumePending env p).
Proof.
  destruct p; simpl; free. apply atMost_settle. free.
  all: try apply free_queuedItem.
Qed.

(** Every item of a batch costs at most one resolver call, and none of them
    waits. *)
Lemma atMost_allSettledItems (env : Env) (videoIds : list jsstring) :
  AtMost (length videoIds) (Optimized.allSettledItems env videoIds).
Proof.
  unfold Optimized.allSettledItems.
  apply atMost_bind_free.
  - rewrite <- (Nat.mul_1_r (length videoIds)).
    apply atMost_mapM, once_startItem.
  - intros started. apply atMost_free_bind.
    + rewrite <- (Nat.mul_0_r (length started)).
      apply atMost_mapM, free_resumeHit.
    + intros progress. rewrite <- (Nat.mul_0_r (length progress)).
      apply atMost_mapM, free_resumePending.
Qed.

Lemma atMost_batchDownload (env : Env) (videoIds : list jsstring) :
  AtMost (length videoIds) (Optimized.batchDownload env (Some videoIds)).
Proof.
  unfold Optimized.batchDownload.
  apply atMost_tryCatch_free; [|free].
  destruct (length videoIds =? 0)%nat;
    [apply (atMost_weaken 0); [lia | free]|].
  destruct (10 <? length videoIds)%nat;
    [apply (atMost_weaken 0); [lia | free]|].
  apply atMost_bind_free; [apply atMost_allSettledItems | free].
Qed.

(** ** The retry loop of the basic server *)

Lemma attemptsMade_bounds (env : Env) (videoUrl : jsstring) (budget n : nat) :
  (1 <= budget)%nat ->
  (1 <= Spec.attemptsMade env videoUrl budget n <= budget)%nat.
Proof.
  revert n. induction budget as [|budget IH]; intros n Hb; [lia|].
  simpl. destruct (snd (ytdl_getInfo env n videoUrl)); [lia|].
  destruct budget as [|budget]; [lia|].
  specialize (IH (S n)). lia.
Qed.

Lemma attemptsTrace_succ (videoUrl : jsstring) (delay : Z) (k : nat) :
  (1 <= k)%nat ->
  Spec.attemptsTrace videoUrl delay (S k)
  = Resolve videoUrl :: Sleep delay :: Spec.attemptsTrace videoUrl delay k.
Proof. destruct k; [lia | reflexivity]. Qed.

Lemma sleep_run (ms : Z) (st : State) :
  sleep ms st = (Fulfilled tt, evolved ms [Sleep ms] (videoInfoCache st) st).
Proof. reflexivity. Qed.

Lemma getInfoWithRetries_step (env : Env) (videoUrl : jsstring)
  (budget : nat) (st : State) :
  Basic.getInfoWithRetries env (S budget) videoUrl st
  = let elapsed := fst (ytdl_getInfo env (resolverCalls st) videoUrl) in
    match snd (ytdl_getInfo env (resolverCalls st) videoUrl) with
    | Fulfilled info =>
        (Fulfilled (Some info),
         evolved elapsed [Resolve videoUrl] (videoInfoCache st) st)
    | Rejected err =>
        if (budget =? 0)%nat
        then (Rejected err,
              evolved elapsed [Resolve videoUrl] (videoInfoCache st) st)
        else Basic.getInfoWithRetries env budget videoUrl
               (evolved (elapsed + 2000) [Resolve videoUrl; Sleep 2000]
                  (videoInfoCache st) st)
    end.
Proof.
  cbn [Basic.getInfoWithRetries]. unfold tryCatch, bind at 1.
  rewrite ytdlGetInfo_run.
  destruct (snd (ytdl_getInfo env (resolverCalls st) videoUrl)) as [info|err];
    [reflexivity|].
  cbv zeta. destruct (budget =? 0)%nat; [reflexivity|].
  unfold bind. rewrite sleep_run, evolved_evolved. reflexivity.
Qed.

(** What the loop leaves behind: the attempts and the pauses between them,
    and nothing else. *)
Lemma getInfoWithRetries_run (env : Env) (videoUrl : jsstring) (budget : nat)
  (st : State) :
  (1 <= budget)%nat ->
  let k := Spec.attemptsMade env videoUrl budget (resolverCalls st) in
  exists st',
    Basic.getInfoWithRetries env budget videoUrl st
    = (match snd (ytdl_getInfo env (resolverCalls st + k - 1) videoUrl) with
       | Fulfilled info => Fulfilled (Some info)
       | Rejected err => Rejected err
       end, st')
    /\ effects st' = effects st ++ Spec.attemptsTrace videoUrl 2000 k
    /\ videoInfoCache st' = videoInfoCache st
    /\ res st' = res st.
Proof.
  revert st. induction budget as [|budget IH]; intros st Hb; [lia|].
  rewrite getInfoWithRetries_step. cbn [Spec.attemptsMade]. cbv zeta.
  destruct (snd (ytdl_getInfo env (resolverCalls st) videoUrl))
    as [info|err] eqn:Efirst.
  - replace (resolverCalls st + 1 - 1)%nat with (resolverCalls st) by lia.
    rewrite Efirst. eexists. split; [reflexivity|]. done.
  - destruct budget as [|budget].
    + replace (resolverCalls st + 1 - 1)%nat with (resolverCalls st) by lia.
      rewrite Efirst. eexists. split; [reflexivity|]. done.
    + change (S budget =? 0)%nat with false. cbv iota.
      set (st1 := evolved _ _ _ st).
      assert (Hcalls : resolverCalls st1 = S (resolverCalls st)).
      { subst st1. rewrite resolverCalls_evolved. simpl. lia. }
      destruct (IH st1 ltac:(lia)) as (st' & Hrun & Heff & Hcache & Hres).
      rewrite Hcalls in *.
      pose proof (attemptsMade_bounds env videoUrl (S budget)
                    (S (resolverCalls st)) ltac:(lia)) as Hk.
      rewrite attemptsTrace_succ by lia.
      exists st'. repeat split.
      * rewrite Hrun.
        replace (resolverCalls st
                 + S (Spec.attemptsMade env videoUrl (S budget)
                        (S (resolverCalls st))) - 1)%nat
          with (S (resolverCalls st)
                + Spec.attemptsMade env videoUrl (S budget)
                    (S (resolverCalls st)) - 1)%nat by lia.
        reflexivity.
      * rewrite Heff. subst st1. simpl. by rewrite <- app_assoc.
      * rewrite Hcache. reflexivity.
      * rewrite Hres. reflexivity.
Qed.

(** ** Responses, path by path *)

Lemma resolverCalls_withFreshRes (st : State) :
  resolverCalls (withFreshRes st) = resolverCalls st.
Proof. reflexivity. Qed.

Lemma freshHit_withFreshRes (videoId : jsstring) (st : State) :
  freshHit videoId (withFreshRes st) = freshHit videoId st.
Proof. reflexivity. Qed.

Lemma added_of (st final : State) (es : list Effect) :
  effects final = effects st ++ es -> added st final = es.
Proof. intros H. unfold added. by rewrite H, drop_app_length. Qed.

Lemma valid_id_nonempty (videoId : jsstring) :
  Optimized.validateVideoId videoId = true -> (length videoId =? 0)%nat = false.
Proof.
  intros H. apply validateVideoId_spec in H as [-> _]. reflexivity.
Qed.

(** The basic server's streaming download leaves in the log exactly the
    attempts of its retry loop. *)
Lemma Basic_downloadMp3_attempts (env : Env) (videoId : jsstring) (st : State) :
  Optimized.validateVideoId videoId = true ->
  added st (snd (serve (Basic.downloadMp3 env videoId) st))
  = Spec.attemptsTrace (watchUrl videoId) 2000
      (Spec.attemptsMade env (watchUrl videoId) 3 (resolverCalls st)).
Proof.
  intros Hvalid. unfold serve. fold (withFreshRes st). cbn [snd].
  unfold Basic.downloadMp3. rewrite (valid_id_nonempty _ Hvalid).
  rewrite videoIdRegexTest_validate, Hvalid. cbn [negb]. cbv zeta.
  destruct (getInfoWithRetries_run env (watchUrl videoId) 3 (withFreshRes st))
    as (st' & Hrun & Heff & _); [lia|].
  rewrite resolverCalls_withFreshRes in *.
  unfold tryCatch, bind at 1. rewrite Hrun.
  assert (Hadded : forall final, effects final = effects st' ->
            added st final
            = Spec.attemptsTrace (watchUrl videoId) 2000
                (Spec.attemptsMade env (watchUrl videoId) 3 (resolverCalls st))).
  { intros final Hfinal. apply added_of. by rewrite Hfinal, Heff. }
  destruct (snd (ytdl_getInfo env _ (watchUrl videoId))) as [info|err].
  - unfold_monad. cbn [fst snd].
    destruct (length (ytdl_filterFormats env (formats info) audioonly) =? 0)%nat;
      by apply Hadded.
  - unfold_monad. cbn [fst snd]. destruct (jsonBody (res st')); by apply Hadded.
Qed.

Lemma Basic_videoInfo_run (env : Env) (videoId : jsstring) (st : State) :
  added st (snd (serve (Basic.videoInfo env videoId) st))
  = [Resolve (watchUrl videoId)]
  /\ (forall err,
        snd (ytdl_getInfo env (resolverCalls st) (watchUrl videoId))
        = Rejected err ->
        fst (serve (Basic.videoInfo env videoId) st)
        = {| statusCode := 404; headers := jsonHeaders env [];
             jsonBody := Some (errorWithDetails "Video not found" err);
             piped := None |}).
Proof.
  unfold serve. fold (withFreshRes st). cbn [fst snd].
  unfold Basic.videoInfo, tryCatch, bind. cbv zeta.
  rewrite !ytdlGetInfo_run, resolverCalls_withFreshRes.
  destruct (snd (ytdl_getInfo env (resolverCalls st) (watchUrl videoId)))
    as [info|err]; (split; [by apply added_of|]).
  - discriminate.
  - intros ? [= <-]. reflexivity.
Qed.

Lemma Basic_formatsOf_run (env : Env) (videoId : jsstring) (st : State) :
  added st (snd (serve (Basic.formatsOf env videoId) st))
  = [Resolve (watchUrl videoId)]
  /\ (forall err,
        snd (ytdl_getInfo env (resolverCalls st) (watchUrl videoId))
        = Rejected err ->
        fst (serve (Basic.formatsOf env videoId) st)
        = {| statusCode := 404; headers := jsonHeaders env [];
             jsonBody := Some (errorWithDetails "Video not found" err);
             piped := None |}).
Proof.
  unfold serve. fold (withFreshRes st). cbn [fst snd].
  unfold Basic.formatsOf, tryCatch, bind. cbv zeta.
  rewrite !ytdlGetInfo_run, resolverCalls_withFreshRes.
  destruct (snd (ytdl_getInfo env (resolverCalls st) (watchUrl videoId)))
    as [info|err]; (split; [by apply added_of|]).
  - discriminate.
  - intros ? [= <-]. reflexivity.
Qed.

Lemma has_after_store_new (k : jsstring) (e : CacheEntry)
  (c : JsMap.t CacheEntry) :
  JsMap.get k c = None ->
  JsMap.has k (evictOldest (JsMap.set k e c)) = true.
Proof.
  intros H. unfold JsMap.has. by rewrite get_after_store_new.
Qed.

Lemma resolvesOf_app (es1 es2 : list Effect) :
  resolvesOf (es1 ++ es2) = resolvesOf es1 ++ resolvesOf es2.
Proof. apply filter_app. Qed.

(** C9.  On the first request for an identifier (nothing stored under it)
    whose resolution succeeds, the video-info response carries [cached: true]:
    the flag is read from the cache after the lookup has stored the entry, so
    it tells that the entry is there now, not that the lookup was a hit.  The
    resolver was called for this request. *)
Theorem videoInfo_cached_flag_on_miss (env : Env) (videoId : jsstring)
  (st : State) (info : VideoInfo) :
  Optimized.validateVideoId videoId = true ->
  JsMap.get videoId (videoInfoCache st) = None ->
  snd (ytdl_getInfo env (resolverCalls st) (watchUrl videoId))
  = Fulfilled info ->
  let response := fst (Optimized.handle env (Optimized.GetVideoInfo videoId) st) in
  let st' := snd (Optimized.handle env (Optimized.GetVideoInfo videoId) st) in
  statusCode response = 200
  /\ bodyField "cached" response = Some (JBool true)
  /\ bodyField "title" response = Some (JV (JStr (title (videoDetails info))))
  /\ resolvesOf (added st st') = [Resolve (watchUrl videoId)].
Proof.
  intros Hvalid Habsent Hok response st'. subst response st'.
  unfold Optimized.handle, serve. fold (withFreshRes st). cbn [fst snd].
  unfold Optimized.handler, Optimized.videoInfo. rewrite Hvalid. cbn [negb].
  cbv zeta. unfold tryCatch, bind.
  rewrite getCachedVideoInfo_run, freshHit_withFreshRes.
  rewrite freshHit_miss by (intros e He; simpl in He; congruence).
  rewrite resolverCalls_withFreshRes, Hok. cbv zeta.
  unfold_monad. cbn [fst snd evolved videoInfoCache effects res clock uuids
                     withFreshRes].
  rewrite has_after_store_new by exact Habsent.
  repeat split.
  erewrite added_of by (cbn [effects]; rewrite <- app_assoc; reflexivity).
  rewrite !resolvesOf_app, resolvesOf_eviction. reflexivity.
Qed.

Lemma videoInfo_cached_flag_on_miss_witness :
  let response :=
    fst (Optimized.handle Sample.steady (Optimized.GetVideoInfo Sample.goodId)
           (Optimized.initial 0)) in
  JsMap.has Sample.goodId (videoInfoCache (Optimized.initial 0)) = false
  /\ statusCode response = 200
  /\ bodyField "cached" response = Some (JBool true).
Proof.
  cbv zeta. split; [reflexivity|].
  destruct (videoInfo_cached_flag_on_miss Sample.steady Sample.goodId
              (Optimized.initial 0) Sample.info)
    as (Hstatus & Hcached & _); [vm_compute; reflexivity .. |].
  split; [exact Hstatus | exact Hcached].
Defined.

(** C10.  In the streaming download the download headers are set before the
    audio formats are looked at: when the metadata is there and holds no
    audio-only format, the 400 [No audio formats available] answer is sent on
    a response that carries the five download headers, as the JSON serializer
    leaves them: the content type [audio/mpeg], the content disposition
    [attachment; filename="<sanitized title>.mp3"], and the three headers for
    cross-origin access, caching and the connection.  Nothing is piped. *)
Theorem downloadMp3_no_audio_keeps_headers (env : Env) (videoId : jsstring)
  (bitrate : option jsstring) (st : State) (info : VideoInfo) :
  Optimized.validateVideoId videoId = true ->
  fst (Optimized.getCachedVideoInfo env (watchUrl videoId) videoId
         (withFreshRes st)) = Fulfilled info ->
  ytdl_filterFormats env (formats info) audioonly = [] ->
  fst (Optimized.handle env (Optimized.GetDownloadMp3 videoId bitrate) st)
  = {| statusCode := 400;
       headers :=
         jsonHeaders env
           [("Content-Type", str "audio/mpeg");
            ("Content-Disposition",
              str "attachment; filename="
              ++ 34%N :: Optimized.sanitizeFilename (title (videoDetails info))
              ++ str ".mp3" ++ [34%N]);
            ("Access-Control-Allow-Origin", str "*");
            ("Cache-Control", str "no-cache");
            ("Connection", str "keep-alive")];
       jsonBody := Some (JObj [("error", jstr "No audio formats available")]);
       piped := None |}.
Proof.
  intros Hvalid Hinfo Hnone.
  unfold Optimized.handle, serve. fold (withFreshRes st). cbn [fst snd].
  unfold Optimized.handler, Optimized.downloadMp3. rewrite Hvalid. cbn [negb].
  cbv zeta. unfold tryCatch, bind.
  destruct (Optimized.getCachedVideoInfo env (watchUrl videoId) videoId
              (withFreshRes st)) as [outcome st1] eqn:Erun.
  assert (Hres : res st1 = freshRes).
  { rewrite getCachedVideoInfo_run in Erun.
    destruct (freshHit videoId (withFreshRes st)).
    - by injection Erun as _ <-.
    - cbv zeta in Erun.
      destruct (snd (ytdl_getInfo env _ _)); by injection Erun as _ <-. }
  simpl in Hinfo. subst outcome. rewrite Hnone.
  unfold_monad. cbn [fst snd length Nat.eqb res]. rewrite Hres.
  reflexivity.
Qed.

(** With the serializer of Express the content type goes out as
    [audio/mpeg; charset=utf-8] and the other four headers as they were
    set. *)
Lemma downloadMp3_no_audio_keeps_headers_witness :
  let response :=
    fst (Optimized.handle Sample.silent
           (Optimized.GetDownloadMp3 Sample.goodId None)
           (Optimized.initial 0)) in
  statusCode response = 400
  /\ getHeader "Content-Type" (headers response)
     = Some (str "audio/mpeg; charset=utf-8")
  /\ getHeader "Content-Disposition" (headers response)
     = Some (str "attachment; filename=" ++ 34%N :: str "artist_song_live_1.mp3"
             ++ [34%N])
  /\ getHeader "Access-Control-Allow-Origin" (headers response)
     = Some (str "*")
  /\ getHeader "Cache-Control" (headers response) = Some (str "no-cache")
  /\ getHeader "Connection" (headers response) = Some (str "keep-alive")
  /\ bodyField "error" response = Some (jstr "No audio formats available").
Proof.
  cbv zeta.
  rewrite (downloadMp3_no_audio_keeps_headers Sample.silent Sample.goodId None
             (Optimized.initial 0) Sample.info);
    [|vm_compute; reflexivity ..].
  repeat split; vm_compute; reflexivity.
Defined.

(** The basic server sets its three headers before the same check. *)
Lemma Basic_downloadMp3_no_audio_keeps_headers (env : Env)
  (videoId : jsstring) (st : State) (info : VideoInfo) :
  Optimized.validateVideoId videoId = true ->
  fst (Basic.getInfoWithRetries env 3 (watchUrl videoId) (withFreshRes st))
  = Fulfilled (Some info) ->
  ytdl_filterFormats env (formats info) audioonly = [] ->
  fst (serve (Basic.downloadMp3 env videoId) st)
  = {| statusCode := 400;
       headers :=
         jsonHeaders env
           (Basic.downloadHeaders
              (Basic.sanitizeFilename (title (videoDetails info))));
       jsonBody :=
         Some (errorBody "No audio formats available for this video");
       piped := None |}.
Proof.
  intros Hvalid Hinfo Hnone.
  unfold serve. fold (withFreshRes st). cbn [fst snd].
  unfold Basic.downloadMp3. rewrite (valid_id_nonempty _ Hvalid).
  rewrite videoIdRegexTest_validate, Hvalid. cbn [negb]. cbv zeta.
  destruct (getInfoWithRetries_run env (watchUrl videoId) 3 (withFreshRes st))
    as (st' & Hrun & _ & _ & Hres); [lia|].
  unfold tryCatch, bind. rewrite Hrun in *. cbn [fst] in Hinfo.
  rewrite Hinfo, Hnone. unfold_monad. cbn [fst snd length Nat.eqb res].
  rewrite Hres. reflexivity.
Qed.

(** ** Identifiers that fail validation *)


Lemma startItem_invalid (videoId : jsstring) (st : State) :
  Optimized.validateVideoId videoId = false ->
  Optimized.startItem videoId st
  = (Fulfilled
       (Optimized.Threw (mkError (str "Invalid video ID: " ++ videoId))),
     st).
Proof. intros Hbad. unfold Optimized.startItem. by rewrite Hbad. Qed.


(** ** The batch endpoint *)

Lemma mapM_Forall2 {A B} (f : A -> M B) (R : A -> B -> Prop) :
  (forall a st, exists b st', f a st = (Fulfilled b, st') /\ R a b) ->
  forall l st,
    exists bs st', Optimized.mapM f l st = (Fulfilled bs, st') /\ Forall2 R l bs.
Proof.
  intros Hf. induction l as [|a l IH]; intros st; simpl.
  - exists [], st. split; [reflexivity | constructor].
  - destruct (Hf a st) as (b & st1 & Hrun & Hb).
    destruct (IH st1) as (bs & st2 & Hruns & Hbs).
    exists (b :: bs), st2. unfold bind. rewrite Hrun, Hruns.
    split; [reflexivity | by constructor].
Qed.

Lemma lookupCached_fulfilled (videoId : jsstring) (st : State) :
  exists hit st', Optimized.lookupCached videoId st = (Fulfilled hit, st').
Proof. rewrite lookupCached_run. eauto. Qed.

Lemma startItem_total (videoId : jsstring) (st : State) :
  exists s st',
    Optimized.startItem videoId st = (Fulfilled s, st')
    /\ (Optimized.validateVideoId videoId = false ->
        s = Optimized.Threw (mkError (str "Invalid video ID: " ++ videoId))).
Proof.
  destruct (Optimized.validateVideoId videoId) eqn:E.
  - unfold Optimized.startItem. rewrite E. cbn [negb]. cbv zeta.
    unfold bind. rewrite lookupCached_run.
    destruct (freshHit videoId st); eexists _, _; (split; [reflexivity | done]).
  - rewrite startItem_invalid by done. eauto.
Qed.

Lemma settle_fulfilled {A} (m : M A) (st : State) :
  exists r st', Optimized.settle m st = (Fulfilled r, st').
Proof. unfold Optimized.settle. destruct (m st). eauto. Qed.

Lemma resumeHit_total (env : Env) (s : Optimized.Started) (st : State) :
  exists p st',
    Optimized.resumeHit env s st = (Fulfilled p, st')
    /\ (forall e, s = Optimized.Threw e -> p = Optimized.Done (Rejected e)).
Proof.
  destruct s as [reason|videoId info|videoId call videoUrl]; simpl.
  - eexists _, _. split; [reflexivity|]. by intros e [= ->].
  - unfold bind.
    destruct (settle_fulfilled (Optimized.queuedItem env videoId info) st)
      as (r & st' & ->).
    eexists _, _. split; [reflexivity | discriminate].
  - eexists _, _. split; [reflexivity | discriminate].
Qed.

Lemma resumePending_total (env : Env) (p : Optimized.Progress) (st : State) :
  exists r st',
    Optimized.resumePending env p st = (Fulfilled r, st')
    /\ (forall x, p = Optimized.Done x -> r = x).
Proof.
  destruct p as [result|videoId call videoUrl]; simpl.
  - eexists _, _. split; [reflexivity|]. by intros x [= ->].
  - match goal with |- context [Optimized.settle ?m st] =>
      destruct (settle_fulfilled m st) as (r & st' & ->) end.
    eexists _, _. split; [reflexivity | discriminate].
Qed.

(** The batch never rejects as a whole; an identifier that fails validation
    settles as the rejection [Invalid video ID: ...] at its own position. *)
Lemma allSettledItems_total (env : Env) (videoIds : list jsstring) (st : State) :
  exists results st',
    Optimized.allSettledItems env videoIds st = (Fulfilled results, st')
    /\ Forall2
         (fun videoId r =>
            Optimized.validateVideoId videoId = false ->
            r = Rejected (mkError (str "Invalid video ID: " ++ videoId)))
         videoIds results.
Proof.
  unfold Optimized.allSettledItems, bind.
  destruct (mapM_Forall2 Optimized.startItem _ startItem_total videoIds st)
    as (started & st1 & -> & H1).
  destruct (mapM_Forall2 (Optimized.resumeHit env) _ (resumeHit_total env)
              started st1) as (progress & st2 & -> & H2).
  destruct (mapM_Forall2 (Optimized.resumePending env) _
              (resumePending_total env) progress st2)
    as (results & st3 & -> & H3).
  exists results, st3. split; [reflexivity|].
  clear -H1 H2 H3. revert started progress results H1 H2 H3.
  induction videoIds as [|videoId videoIds IH];
    intros started progress results H1 H2 H3.
  - inversion H1; subst. inversion H2; subst. inversion H3; subst. constructor.
  - inversion H1 as [|? s ? started' Hs H1']; subst.
    inversion H2 as [|? p ? progress' Hp H2']; subst.
    inversion H3 as [|? r ? results' Hr H3']; subst.
    constructor; [|by eapply IH].
    intros Hbad. apply Hr, (Hp _ (Hs Hbad)).
Qed.

(** ** State properties kept by the handlers *)

Section Keeping.
Variable P : State -> Prop.

Lemma keeps_ret {A} (a : A) : Keeps P (ret a).
Proof. by intros st. Qed.

Lemma keeps_throw {A} (e : JsError) : Keeps P (@throw A e).
Proof. by intros st. Qed.

Lemma keeps_bind {A B} (m : M A) (k : A -> M B) :
  Keeps P m -> (forall a, Keeps P (k a)) -> Keeps P (bind m k).
Proof.
  intros Hm Hk st HP. unfold bind. specialize (Hm st HP).
  destruct (m st) as [[a|e] st1]; [by apply Hk | exact Hm].
Qed.

Lemma keeps_tryCatch {A} (body : M A) (handler : JsError -> M A) :
  Keeps P body -> (forall e, Keeps P (handler e)) ->
  Keeps P (tryCatch body handler).
Proof.
  intros Hm Hk st HP. unfold tryCatch. specialize (Hm st HP).
  destruct (body st) as [[a|e] st1]; [exact Hm | by apply Hk].
Qed.

Lemma keeps_settle {A} (m : M A) : Keeps P m -> Keeps P (Optimized.settle m).
Proof.
  intros Hm st HP. unfold Optimized.settle. specialize (Hm st HP).
  by destruct (m st).
Qed.

Lemma keeps_mapM {A B} (f : A -> M B) (l : list A) :
  (forall a, Keeps P (f a)) -> Keeps P (Optimized.mapM f l).
Proof.
  intros Hf. induction l as [|a l IH]; simpl; [apply keeps_ret|].
  apply keeps_bind; [apply Hf|]. intros b.
  apply keeps_bind; [exact IH | intros; apply keeps_ret].
Qed.

Lemma keeps_reader {A} (f : State -> A) :
  Keeps P (fun st => (Fulfilled (f st), st)).
Proof. by intros st. Qed.

Hypothesis insensitive : Insensitive P.

Lemma keeps_emit (e : Effect) : Keeps P (emit e).
Proof. intros st HP. by apply insensitive. Qed.

Lemma keeps_advance (ms : Z) : Keeps P (advance ms).
Proof. intros st HP. by apply insensitive. Qed.

Lemma keeps_nextUuid (env : Env) : Keeps P (nextUuid env).
Proof. intros st HP. by apply insensitive. Qed.

Lemma keeps_awaitGetInfo (env : Env) (n : nat) (videoUrl : jsstring) :
  Keeps P (awaitGetInfo env n videoUrl).
Proof.
  unfold awaitGetInfo. destruct (ytdl_getInfo env n videoUrl) as [dt [i|e]];
    (apply keeps_bind; [apply keeps_advance | intros _]);
    [apply keeps_ret | apply keeps_throw].
Qed.

Lemma keeps_issueGetInfo (videoUrl : jsstring) :
  Keeps P (issueGetInfo videoUrl).
Proof. intros st HP. by apply insensitive. Qed.
End Keeping.

Lemma CacheBounded_insensitive : Insensitive CacheBounded.
Proof. by intros st c es u H. Qed.

Lemma resIs_insensitive (r : Res) : Insensitive (fun st => res st = r).
Proof. by intros st c es u H. Qed.

Ltac keeps :=
  repeat first
    [ match goal with |- forall _, _ => intro end
    | match goal with
      | |- Keeps _ (ret _) => apply keeps_ret
      | |- Keeps _ (throw _) => apply keeps_throw
      | |- Keeps _ dateNow => apply (keeps_reader _ clock)
      | |- Keeps _ getCache => apply (keeps_reader _ videoInfoCache)
      | |- Keeps _ getRes => apply (keeps_reader _ res)
      | |- Keeps _ (emit _) =>
          apply keeps_emit;
          first [apply CacheBounded_insensitive | apply resIs_insensitive]
      | |- Keeps _ (advance _) =>
          apply keeps_advance;
          first [apply CacheBounded_insensitive | apply resIs_insensitive]
      | |- Keeps _ (nextUuid _) =>
          apply keeps_nextUuid;
          first [apply CacheBounded_insensitive | apply resIs_insensitive]
      | |- Keeps _ (awaitGetInfo _ _ _) =>
          apply keeps_awaitGetInfo;
          first [apply CacheBounded_insensitive | apply resIs_insensitive]
      | |- Keeps _ (issueGetInfo _) =>
          apply keeps_issueGetInfo;
          first [apply CacheBounded_insensitive | apply resIs_insensitive]
      | |- Keeps _ (bind _ _) => apply keeps_bind
      | |- Keeps _ (tryCatch _ _) => apply keeps_tryCatch
      | |- Keeps _ (Optimized.settle _) => apply keeps_settle
      | |- Keeps _ (Optimized.mapM _ _) => apply keeps_mapM
      | |- Keeps _ (if ?b then _ else _) => destruct b
      | |- Keeps _ (match ?x with _ => _ end) => destruct x
      | |- Keeps CacheBounded (modifyRes _) => by intros ? ?
      | |- Keeps (fun st => res st = _) (putCache _) => by intros ? ?
      end ].

Lemma bounded_storeResolved (videoId : jsstring) (info : VideoInfo) :
  Keeps CacheBounded (Optimized.storeResolved videoId info).
Proof.
  intros st Hb. rewrite storeResolved_run. unfold CacheBounded. simpl.
  by apply evictOldest_bounded.
Qed.

Lemma bounded_lookupCached (videoId : jsstring) :
  Keeps CacheBounded (Optimized.lookupCached videoId).
Proof. intros st Hb. by rewrite lookupCached_run. Qed.

Lemma bounded_getCachedVideoInfo (env : Env) (videoUrl videoId : jsstring) :
  Keeps CacheBounded (Optimized.getCachedVideoInfo env videoUrl videoId).
Proof.
  unfold Optimized.getCachedVideoInfo, ytdlGetInfo.
  keeps; first [apply bounded_lookupCached | apply bounded_storeResolved].
Qed.

Lemma bounded_handler (env : Env) (r : Optimized.Request) :
  Keeps CacheBounded (Optimized.handler env r).
Proof.
  destruct r; simpl;
    unfold Optimized.directLink, Optimized.downloadMp3,
      Optimized.batchDownload, Optimized.videoInfo, Optimized.formatsOf,
      Optimized.cacheStats, Optimized.clearCache, Optimized.allSettledItems,
      Optimized.startItem, Optimized.resumeHit, Optimized.resumePending,
      Optimized.queuedItem,
      resStatus, resJson, resSet, resPipe, headersSent, cacheHas;
    cbv zeta; keeps;
    try first [ apply bounded_getCachedVideoInfo | apply bounded_lookupCached
              | apply bounded_storeResolved ].
  intros st _. unfold CacheBounded, putCache. simpl. unfold JsMap.size. simpl. lia.
Qed.

(** The cache bound is an invariant of the process: after any sequence of
    requests, from the empty cache, it holds at most 1000 entries. *)
Lemma cache_bound_invariant (env : Env) (rs : list (Z * Optimized.Request))
  (t0 : Z) :
  CacheBounded (Optimized.run env rs (Optimized.initial t0)).
Proof.
  assert (Hgen : forall st, CacheBounded st ->
                   CacheBounded (Optimized.run env rs st)).
  { induction rs as [|[idle r] rs IH]; intros st Hb; [exact Hb|].
    simpl. apply IH. unfold Optimized.handle, serve. cbn [snd].
    by apply bounded_handler. }
  apply Hgen. unfold CacheBounded, JsMap.size. simpl. lia.
Qed.

Lemma allSettledItems_keeps_res (env : Env) (videoIds : list jsstring)
  (r : Res) :
  Keeps (fun st => res st = r) (Optimized.allSettledItems env videoIds).
Proof.
  unfold Optimized.allSettledItems. keeps.
  - unfold Optimized.startItem, Optimized.lookupCached, cacheGet. cbv zeta.
    keeps.
  - unfold Optimized.resumeHit, Optimized.queuedItem. keeps.
  - unfold Optimized.resumePending, Optimized.queuedItem,
      Optimized.storeResolved, cacheSet, cacheSize, cacheFirstKey, cacheDelete.
    cbv zeta. keeps.
Qed.

Lemma batchDownload_response (env : Env) (videoIds : list jsstring)
  (st : State) :
  (1 <= length videoIds <= 10)%nat ->
  exists results,
    fst (Optimized.allSettledItems env videoIds (withFreshRes st))
    = Fulfilled results
    /\ fst (Optimized.handle env (Optimized.PostBatchDownload (Some videoIds)) st)
       = {| statusCode := 200; headers := jsonHeaders env [];
            jsonBody :=
              Some (JObj [("status", jstr "batch_queued");
                          ("successful", JArr (Optimized.successfulOf results));
                          ("failed", JArr (Optimized.failedOf videoIds results));
                          ("total", JV (JNum (Z.of_nat (length videoIds))))]);
            piped := None |}.
Proof.
  intros Hlen.
  destruct (allSettledItems_total env videoIds (withFreshRes st))
    as (results & st' & Hrun & _).
  exists results. split; [by rewrite Hrun|].
  unfold Optimized.handle, serve. fold (withFreshRes st). cbn [fst snd].
  unfold Optimized.handler, Optimized.batchDownload.
  destruct (Nat.eqb_spec (length videoIds) 0) as [|_]; [lia|].
  destruct (Nat.ltb_spec 10 (length videoIds)) as [|_]; [lia|].
  unfold tryCatch, bind. rewrite Hrun.
  assert (Hres : res st' = freshRes).
  { pose proof (allSettledItems_keeps_res env videoIds freshRes
                  (withFreshRes st) eq_refl) as Hkept.
    by rewrite Hrun in Hkept. }
  unfold_monad. cbn [fst snd res]. rewrite Hres. reflexivity.
Qed.




(** ** Resolution failures, call site by call site *)

Lemma optimized_failure_surfaces (env : Env) (videoId : jsstring)
  (bitrate : option jsstring) (st : State) (err : JsError) :
  Optimized.validateVideoId videoId = true ->
  freshHit videoId st = None ->
  snd (ytdl_getInfo env (resolverCalls st) (watchUrl videoId)) = Rejected err ->
  let failed code msg :=
    {| statusCode := code; headers := jsonHeaders env [];
       jsonBody := Some (errorWithDetails msg err); piped := None |} in
  fst (Optimized.handle env (Optimized.GetDirectLink videoId) st)
  = failed 500 "Failed to get direct link"
  /\ fst (Optimized.handle env (Optimized.GetDownloadMp3 videoId bitrate) st)
     = failed 500 "Download failed"
  /\ fst (Optimized.handle env (Optimized.GetVideoInfo videoId) st)
     = failed 404 "Video not found"
  /\ fst (Optimized.handle env (Optimized.GetFormats videoId) st)
     = failed 404 "Video not found".
Proof.
  intros Hvalid Hmiss Hfail failed. subst failed.
  repeat split;
    unfold Optimized.handle, serve; fold (withFreshRes st); cbn [fst snd];
    unfold Optimized.handler, Optimized.directLink, Optimized.downloadMp3,
      Optimized.videoInfo, Optimized.formatsOf;
    rewrite Hvalid; cbn [negb]; cbv zeta; unfold tryCatch, bind;
    rewrite getCachedVideoInfo_run, freshHit_withFreshRes, Hmiss,
      resolverCalls_withFreshRes, Hfail;
    reflexivity.
Qed.

(** ** Failure records of a batch *)

Lemma failedOf_lookup (videoIds : list jsstring)
  (results : list (Settled Json)) (i : nat) (record : Json) :
  Optimized.failedOf videoIds results !! i = Some record ->
  exists reason,
    omap Optimized.rejectedReason results !! i = Some reason
    /\ record
       = Optimized.failedRecord
           (from_option JStr JUndefined (videoIds !! i)) (message reason).
Proof.
  unfold Optimized.failedOf. rewrite list_lookup_imap.
  destruct (omap Optimized.rejectedReason results !! i) as [reason|];
    [|discriminate].
  intros [= <-]. by exists reason.
Qed.

(** When every failure comes before every success the records do name the
    identifiers that failed. *)
Lemma failedOf_failures_first (videoIds : list jsstring)
  (reasons : list JsError) (values : list Json) :
  Optimized.failedOf videoIds
    (map Rejected reasons ++ map Fulfilled values)
  = imap (fun i reason =>
            Optimized.failedRecord
              (from_option JStr JUndefined (videoIds !! i)) (message reason))
         reasons.
Proof.
  unfold Optimized.failedOf. f_equal. rewrite omap_app.
  assert (Hv : omap Optimized.rejectedReason (map Fulfilled values) = []).
  { induction values as [|v values IH]; [reflexivity | exact IH]. }
  rewrite Hv, app_nil_r.
  induction reasons as [|e reasons IH]; [reflexivity|].
  cbn. by rewrite IH.
Qed.

(** C1 fails on the code.  For the batch of a well-formed identifier followed
    by a malformed one, the single failure record carries the reason of the
    malformed identifier under the name of the well-formed one: the index
    used to read the identifier back is the position among the failures, not
    the position in the submitted list. *)
Theorem batch_failed_names_wrong_identifier :
  let response :=
    fst (Optimized.handle Sample.steady
           (Optimized.PostBatchDownload (Some [Sample.goodId; Sample.badId]))
           (Optimized.initial 0)) in
  Optimized.validateVideoId Sample.goodId = true
  /\ Optimized.validateVideoId Sample.badId = false
  /\ statusCode response = 200
  /\ bodyField "total" response = Some (JV (JNum 2))
  /\ bodyField "failed" response
     = Some (JArr [Optimized.failedRecord (JStr Sample.goodId)
                     (str "Invalid video ID: bad")])
  /\ bodyField "failed" response
     <> Some (JArr [Optimized.failedRecord (JStr Sample.badId)
                      (str "Invalid video ID: bad")])
  /\ (exists item,
         bodyField "successful" response = Some (JArr [item])
         /\ jsonField "videoId" item = Some (JV (JStr Sample.goodId))).
Proof.
  cbv zeta. repeat split; try (vm_compute; reflexivity).
  - vm_compute. discriminate.
  - eexists. split; vm_compute; reflexivity.
Qed.

(** ** The transcoding job and the close of the request *)

(** What the endpoints register on the request's [close] event: the optimized
    server's streaming download kills the transcoder with [SIGKILL]; the basic
    server's registers nothing.  What the transcoder and the response stream
    do after that is theirs, not the handlers'. *)
Lemma streaming_job_close_listener (env : Env) (videoId : jsstring)
  (bitrate : option jsstring) (st : State) (job : TranscodeJob) :
  (piped (fst (Optimized.handle env (Optimized.GetDownloadMp3 videoId bitrate) st))
   = Some job ->
   onRequestClose job = [KillTranscoder SIGKILL])
  /\ (piped (fst (serve (Basic.downloadMp3 env videoId) st)) = Some job ->
      onRequestClose job = []).
Proof.
  split.
  - unfold Optimized.handle, serve. fold (withFreshRes st). cbn [fst snd].
    unfold Optimized.handler, Optimized.downloadMp3.
    destruct (Optimized.validateVideoId videoId); cbn [negb];
      [|discriminate].
    cbv zeta. unfold tryCatch, bind.
    destruct (Optimized.getCachedVideoInfo env (watchUrl videoId) videoId
                (withFreshRes st)) as [outcome st1] eqn:Erun.
    assert (Hres : res st1 = freshRes).
    { rewrite getCachedVideoInfo_run in Erun.
      destruct (freshHit videoId (withFreshRes st)).
      - by injection Erun as _ <-.
      - cbv zeta in Erun.
        destruct (snd (ytdl_getInfo env _ _)); by injection Erun as _ <-. }
    destruct st1 as [c1 v1 e1 u1 r1]. simpl in Hres. subst r1.
    destruct outcome as [info|err]; unfold_monad; simpl.
    + destruct (length (ytdl_filterFormats env (formats info) audioonly));
        simpl; [discriminate|]. by intros [= <-].
    + discriminate.
  - unfold serve. fold (withFreshRes st). cbn [fst snd].
    unfold Basic.downloadMp3.
    destruct (length videoId =? 0)%nat; [discriminate|].
    destruct (Basic.videoIdRegexTest videoId); cbn [negb]; [|discriminate].
    cbv zeta.
    destruct (getInfoWithRetries_run env (watchUrl videoId) 3 (withFreshRes st))
      as (st' & Hrun & _ & _ & Hres); [lia|].
    unfold tryCatch, bind. rewrite Hrun.
    destruct st' as [c1 v1 e1 u1 r1]. simpl in Hres. subst r1.
    destruct (snd (ytdl_getInfo env _ (watchUrl videoId))) as [info|err];
      unfold_monad; simpl.
    + destruct (length (ytdl_filterFormats env (formats info) audioonly));
        simpl; [discriminate|]. by intros [= <-].
    + discriminate.
Qed.

(** * Further properties of the code *)

(** ** File names *)

Lemma replaceRunsFrom_no_separator (cls : N -> bool) (r s : jsstring)
  (fuel : nat) :
  (length s <= fuel)%nat ->
  Forall (fun c => cls c = false) s ->
  replaceRunsFrom fuel cls r s = s.
Proof.
  revert s. induction fuel as [|fuel IH]; intros [|c s] Hlen Hall; simpl in *;
    try reflexivity; try lia.
  inversion Hall as [|? ? Hc Hrest]; subst. rewrite Hc. f_equal.
  apply IH; [lia | done].
Qed.

Lemma plain_range (c : N) :
  plain c = true <-> (97 <= c <= 122 \/ 48 <= c <= 57 \/ c = 95)%N.
Proof.
  unfold plain, isLower, isDigit.
  rewrite !orb_true_iff, !between_spec, N.eqb_eq. tauto.
Qed.

Lemma between_false (lo hi c : N) :
  (c < lo \/ hi < c)%N -> between lo hi c = false.
Proof.
  intros H. unfold between. apply andb_false_iff.
  destruct H; [left | right]; apply N.leb_gt; lia.
Qed.

Lemma plain_facts (c : N) :
  plain c = true ->
  Spec.kept c = true
  /\ (isHyphen c || isSpace c) = false
  /\ isUpper c = false
  /\ (isLower c || isUpper c || isDigit c) = (isLower c || isDigit c).
Proof.
  intros H. pose proof H as Hr. apply plain_range in Hr.
  assert (Hu : isUpper c = false) by (apply between_false; lia).
  assert (Hh : isHyphen c = false) by (apply N.eqb_neq; lia).
  assert (Hs : isSpace c = false).
  { unfold isSpace. rewrite !between_false by lia.
    repeat match goal with
      | |- context [(c =? ?k)%N] =>
          replace (c =? k)%N with false by (symmetry; apply N.eqb_neq; lia)
      end.
    reflexivity. }
  repeat split.
  - unfold Spec.kept, plain in *. rewrite Hu, Hs.
    fold (isHyphen c). rewrite Hh.
    rewrite !orb_false_r. cbn [orb].
    destruct (isLower c), (isDigit c), (c =? 95)%N; try reflexivity;
      discriminate.
  - by rewrite Hh, Hs.
  - exact Hu.
  - rewrite Hu. by rewrite orb_false_r.
Qed.

Lemma Optimized_sanitize_plain (s : jsstring) :
  Forall (fun c => plain c = true) s ->
  (length s <= 100)%nat ->
  Optimized.sanitizeFilename s = s.
Proof.
  intros Hplain Hlen. unfold Optimized.sanitizeFilename.
  rewrite (replaceAllClass_strip (fun c => isWord c || isSpace c || isHyphen c)).
  assert (Hkeep : filter (fun c => (isWord c || isSpace c || isHyphen c) = true) s
                  = s).
  { clear Hlen. induction s as [|c s IH]; [reflexivity|].
    inversion Hplain as [|? ? Hc Hrest]; subst. rewrite filter_cons.
    destruct (plain_facts c Hc) as (Hk & _). rewrite <- kept_class in Hk.
    rewrite decide_True by exact Hk. f_equal. by apply IH. }
  rewrite Hkeep. unfold replaceAllRuns.
  rewrite replaceRunsFrom_no_separator; [|reflexivity|].
  - unfold substring0. rewrite take_ge by (unfold toLowerCase; rewrite length_map; lia).
    unfold toLowerCase. clear Hkeep Hlen.
    induction s as [|c s IH]; [reflexivity|].
    inversion Hplain as [|? ? Hc Hrest]; subst. simpl.
    destruct (plain_facts c Hc) as (_ & _ & Hu & _).
    unfold toLowerCaseUnit. rewrite Hu. f_equal. by apply IH.
  - eapply Forall_impl; [exact Hplain|]. intros c Hc.
    by destruct (plain_facts c Hc) as (_ & Hs & _).
Qed.

Lemma Optimized_sanitize_is_plain (s : jsstring) :
  Forall (fun c => plain c = true) (Optimized.sanitizeFilename s)
  /\ (length (Optimized.sanitizeFilename s) <= 100)%nat.
Proof.
  split.
  - unfold Optimized.sanitizeFilename, substring0, toLowerCase.
    apply Forall_take, Forall_fmap.
    eapply Forall_impl; [apply Optimized_lowercase_input_is_word|].
    intros c Hc. simpl. unfold plain, toLowerCaseUnit, isWord in *.
    destruct (isUpper c) eqn:Eu.
    + unfold isUpper, isLower, isDigit, between in *.
      apply andb_true_iff in Eu as [H1 H2].
      apply N.leb_le in H1. apply N.leb_le in H2.
      replace ((97 <=? c + 32)%N) with true by (symmetry; apply N.leb_le; lia).
      replace ((c + 32 <=? 122)%N) with true by (symmetry; apply N.leb_le; lia).
      reflexivity.
    + simpl in Hc. exact Hc.
  - unfold Optimized.sanitizeFilename, substring0. rewrite length_take. lia.
Qed.

Lemma Basic_sanitize_map (s : jsstring) :
  Basic.sanitizeFilename s
  = map (fun c => if isLower c || isUpper c || isDigit c
                  then toLowerCaseUnit c else 95%N) s.
Proof.
  unfold Basic.sanitizeFilename, toLowerCase, replaceAllClass.
  induction s as [|c s IH]; [reflexivity|].
  simpl. destruct (isLower c || isUpper c || isDigit c); simpl;
    f_equal; exact IH.
Qed.

Lemma lowered_plain (c : N) :
  (isLower c || isUpper c || isDigit c) = true ->
  plain (toLowerCaseUnit c) = true.
Proof.
  intros H. unfold toLowerCaseUnit. destruct (isUpper c) eqn:Eu.
  - apply plain_range. apply between_spec in Eu. lia.
  - rewrite orb_false_r in H. unfold plain. by rewrite H.
Qed.

Lemma Basic_sanitize_is_plain (s : jsstring) :
  Forall (fun c => plain c = true) (Basic.sanitizeFilename s)
  /\ length (Basic.sanitizeFilename s) = length s.
Proof.
  rewrite Basic_sanitize_map. split; [|apply length_map].
  apply Forall_fmap, Forall_forall. intros c _. simpl.
  destruct (isLower c || isUpper c || isDigit c) eqn:E;
    [by apply lowered_plain | reflexivity].
Qed.

Lemma Basic_sanitize_plain (s : jsstring) :
  Forall (fun c => plain c = true) s -> Basic.sanitizeFilename s = s.
Proof.
  rewrite Basic_sanitize_map.
  induction 1 as [|c s Hc _ IH]; [reflexivity|].
  simpl. rewrite IH. f_equal.
  destruct (plain_facts c Hc) as (_ & _ & Hu & Hcls). rewrite Hcls.
  unfold toLowerCaseUnit. rewrite Hu.
  destruct (isLower c || isDigit c) eqn:E; [reflexivity|].
  unfold plain in Hc. rewrite E in Hc. simpl in Hc.
  apply N.eqb_eq in Hc. by subst c.
Qed.

(** X1.  Sanitizing a file name twice gives what sanitizing it once gives, in
    both servers: a sanitized name is a fixed point. *)
Theorem sanitizeFilename_idempotent (filename : jsstring) :
  Optimized.sanitizeFilename (Optimized.sanitizeFilename filename)
  = Optimized.sanitizeFilename filename
  /\ Basic.sanitizeFilename (Basic.sanitizeFilename filename)
     = Basic.sanitizeFilename filename.
Proof.
  split.
  - destruct (Optimized_sanitize_is_plain filename) as [Hplain Hlen].
    by apply Optimized_sanitize_plain.
  - destruct (Basic_sanitize_is_plain filename) as [Hplain _].
    by apply Basic_sanitize_plain.
Qed.

Lemma Collapsed_nil_inv (s : jsstring) : Spec.Collapsed s [] -> s = [].
Proof.
  intros H. remember [] as out eqn:Hout.
  destruct H; [reflexivity | discriminate | discriminate].
Qed.

Lemma filter_kept_nil (s : jsstring) :
  filter (fun c => Spec.kept c = true) s = []
  <-> Forall (fun c => Spec.kept c = false) s.
Proof.
  induction s as [|c s IH]; [split; [constructor | reflexivity]|].
  rewrite filter_cons. destruct (Spec.kept c) eqn:E; simpl.
  - split; [discriminate|]. intros H. inversion H; subst. congruence.
  - rewrite IH. split; [by constructor | by inversion 1].
Qed.

(** X2.  What both servers put into a file name is made of lower-case
    letters, digits and underscores only: no quote, slash, backslash, dot,
    carriage return or line feed can come out of a title.  The basic server
    keeps the length of the title; the optimized server gives at most 100 code
    units. *)
Theorem sanitized_names_are_plain (filename : jsstring) :
  (forall c,
      c ∈ Optimized.sanitizeFilename filename
      \/ c ∈ Basic.sanitizeFilename filename ->
      (97 <= c <= 122 \/ 48 <= c <= 57 \/ c = 95)%N
      /\ (c ∉ [34; 47; 92; 46; 13; 10]%N))
  /\ length (Basic.sanitizeFilename filename) = length filename
  /\ (length (Optimized.sanitizeFilename filename)
      <= Nat.min 100 (length filename))%nat.
Proof.
  split; [|split].
  - intros c Hc.
    assert (Hplain : plain c = true).
    { destruct Hc as [Hc|Hc].
      - destruct (Optimized_sanitize_is_plain filename) as [H _].
        by apply (proj1 (Forall_forall _ _) H).
      - destruct (Basic_sanitize_is_plain filename) as [H _].
        by apply (proj1 (Forall_forall _ _) H). }
    apply plain_range in Hplain. split; [exact Hplain|].
    intros Hin. repeat (apply elem_of_cons in Hin as [->|Hin]; [lia|]).
    by apply elem_of_nil in Hin.
  - apply Basic_sanitize_is_plain.
  - unfold Optimized.sanitizeFilename, substring0, toLowerCase.
    rewrite length_take, length_map.
    pose proof (Collapsed_length _ _
      (replaceRunsFrom_collapsed _ _ (Nat.le_refl
         (length (replaceAllClass
            (fun c => negb (isWord c || isSpace c || isHyphen c)) []
            filename))))) as Hle.
    fold (replaceAllRuns (fun c => isHyphen c || isSpace c) (str "_")
            (replaceAllClass
               (fun c => negb (isWord c || isSpace c || isHyphen c)) []
               filename)) in Hle.
    rewrite replaceAllClass_strip in *.
    pose proof (length_filter
      (fun c => (isWord c || isSpace c || isHyphen c) = true) filename).
    lia.
Qed.

(** X3.  The optimized server's file name is empty exactly when the title has
    no letter, digit, underscore, white space or hyphen: a title written
    entirely in other characters is served as [.mp3]. *)
Theorem sanitizeFilename_empty_iff (filename : jsstring) :
  Optimized.sanitizeFilename filename = []
  <-> Forall (fun c => Spec.kept c = false) filename.
Proof.
  rewrite <- filter_kept_nil.
  unfold Optimized.sanitizeFilename.
  rewrite (replaceAllClass_strip (fun c => isWord c || isSpace c || isHyphen c)).
  replace (filter (fun c => (isWord c || isSpace c || isHyphen c) = true) filename)
    with (filter (fun c => Spec.kept c = true) filename)
    by (apply list_filter_iff; intros c; by rewrite kept_class).
  set (stripped := filter _ filename).
  pose proof (replaceRunsFrom_collapsed _ stripped (Nat.le_refl _)) as Hcol.
  fold (replaceAllRuns (fun c => isHyphen c || isSpace c) (str "_") stripped)
    in Hcol.
  split.
  - intros Hnil.
    destruct (replaceAllRuns _ _ stripped) as [|x rest] eqn:E.
    + by apply Collapsed_nil_inv.
    + discriminate Hnil.
  - intros ->. reflexivity.
Qed.

(** ** Identifiers *)

(** X4.  Both servers accept as a video identifier exactly the strings of 11
    code units drawn from [[A-Za-z0-9_-]]: a shorter or longer string is
    refused, and so is any string that ends in a character outside the
    alphabet, a trailing line feed included. *)
Theorem validateVideoId_accepts_exactly (videoId : jsstring) :
  (Optimized.validateVideoId videoId = true <-> Spec.WellFormedId videoId)
  /\ Basic.videoIdRegexTest videoId = Optimized.validateVideoId videoId
  /\ (length videoId <> 11%nat -> Optimized.validateVideoId videoId = false)
  /\ (forall c, ~ Spec.idChar c ->
        Optimized.validateVideoId (videoId ++ [c]) = false)
  /\ Optimized.validateVideoId (videoId ++ [10%N]) = false.
Proof.
  assert (Hlast : forall c, ~ Spec.idChar c ->
            Optimized.validateVideoId (videoId ++ [c]) = false).
  { intros c Hc. apply validateVideoId_false. intros [_ Hall].
    apply Forall_app in Hall as [_ Hall]. inversion Hall; subst. tauto. }
  split; [apply validateVideoId_spec|]. split; [reflexivity|].
  split; [|split; [exact Hlast|]].
  - intros Hlen. apply validateVideoId_false. intros [? _]. tauto.
  - apply Hlast. unfold Spec.idChar. lia.
Qed.

(** ** The cache, request after request *)

Lemma getCachedVideoInfo_res (env : Env) (videoUrl videoId : jsstring)
  (st : State) :
  res (snd (Optimized.getCachedVideoInfo env videoUrl videoId st)) = res st.
Proof.
  rewrite getCachedVideoInfo_run. destruct (freshHit videoId st); [reflexivity|].
  cbv zeta. by destruct (snd (ytdl_getInfo env _ _)).
Qed.

(** After the lookup the four endpoints only build their response: the cache
    and the clock stay as the lookup left them, and no resolver call or pause
    is added. *)
Lemma handler_after_lookup (env : Env) (videoId : jsstring)
  (bitrate : option jsstring) (r : Optimized.Request) (st : State) :
  Optimized.validateVideoId videoId = true ->
  r ∈ lookupRequests videoId bitrate ->
  let looked :=
    snd (Optimized.getCachedVideoInfo env (watchUrl videoId) videoId
           (withFreshRes st)) in
  let st' := snd (Optimized.handle env r st) in
  videoInfoCache st' = videoInfoCache looked
  /\ clock st' = clock looked
  /\ exists es,
       effects st' = effects looked ++ es
       /\ resolvesOf es = [] /\ sleepsOf es = [].
Proof.
  intros Hvalid Hr looked st'. subst looked st'.
  pose proof (getCachedVideoInfo_res env (watchUrl videoId) videoId
                (withFreshRes st)) as Hres.
  unfold lookupRequests in Hr.
  repeat (apply elem_of_cons in Hr as [->|Hr]);
    [.. | by apply elem_of_nil in Hr];
    unfold Optimized.handle, serve; fold (withFreshRes st); cbn [fst snd];
    unfold Optimized.handler, Optimized.directLink, Optimized.downloadMp3,
      Optimized.videoInfo, Optimized.formatsOf;
    rewrite Hvalid; cbn [negb]; cbv zeta; unfold tryCatch, bind;
    destruct (Optimized.getCachedVideoInfo env (watchUrl videoId) videoId
                (withFreshRes st)) as [[info|err] [c1 v1 e1 u1 r1]];
    cbn [snd] in *; simpl in Hres; subst r1.
  - destruct (Optimized.bestFormat _); unfold_monad; simpl;
      (split; [reflexivity|]); (split; [reflexivity|]);
      exists []; by rewrite app_nil_r.
  - unfold_monad; simpl. split; [reflexivity|]. split; [reflexivity|].
    exists []. by rewrite app_nil_r.
  - unfold_monad; simpl.
    destruct (length (ytdl_filterFormats env (formats info) audioonly));
      simpl; (split; [reflexivity|]); (split; [reflexivity|]);
      exists []; by rewrite app_nil_r.
  - unfold_monad; simpl. split; [reflexivity|]. split; [reflexivity|].
    exists []. by rewrite app_nil_r.
  - unfold_monad; simpl. split; [reflexivity|]. split; [reflexivity|].
    exists [CacheRead videoId]. done.
  - unfold_monad; simpl. split; [reflexivity|]. split; [reflexivity|].
    exists []. by rewrite app_nil_r.
  - unfold_monad; simpl. split; [reflexivity|]. split; [reflexivity|].
    exists []. by rewrite app_nil_r.
  - unfold_monad; simpl. split; [reflexivity|]. split; [reflexivity|].
    exists []. by rewrite app_nil_r.
Qed.

Lemma resolves_of_handler (env : Env) (videoId : jsstring)
  (bitrate : option jsstring) (r : Optimized.Request) (st : State) :
  Optimized.validateVideoId videoId = true ->
  r ∈ lookupRequests videoId bitrate ->
  resolvesOf (added st (snd (Optimized.handle env r st)))
  = resolvesOf
      (added st
         (snd (Optimized.getCachedVideoInfo env (watchUrl videoId) videoId
                 (withFreshRes st)))).
Proof.
  intros Hvalid Hr.
  destruct (handler_after_lookup env videoId bitrate r st Hvalid Hr)
    as (_ & _ & es & Heff & Hres & _).
  rewrite getCachedVideoInfo_run in *.
  destruct (freshHit videoId (withFreshRes st)).
  - cbn [snd] in *. erewrite (added_of st (snd _)); [|rewrite Heff; simpl;
      rewrite <- app_assoc; reflexivity].
    erewrite (added_of st (evolved _ _ _ _)) by reflexivity.
    by rewrite resolvesOf_app, Hres, app_nil_r.
  - cbv zeta in *. destruct (snd (ytdl_getInfo env _ _)); cbn [snd] in *.
    + erewrite (added_of st (snd _)); [|rewrite Heff; simpl;
        rewrite <- app_assoc; reflexivity].
      erewrite (added_of st (evolved _ _ _ _)) by reflexivity.
      by rewrite resolvesOf_app, Hres, app_nil_r.
    + erewrite (added_of st (snd _)); [|rewrite Heff; simpl;
        rewrite <- app_assoc; reflexivity].
      erewrite (added_of st (evolved _ _ _ _)) by reflexivity.
      by rewrite resolvesOf_app, Hres, app_nil_r.
Qed.



Lemma keys_set_present (k : jsstring) (e old : CacheEntry)
  (c : JsMap.t CacheEntry) :
  JsMap.get k c = Some old -> JsMap.keys (JsMap.set k e c) = JsMap.keys c.
Proof.
  unfold JsMap.keys. induction c as [|[k' v'] c IH]; simpl; [discriminate|].
  destruct (decide (k' = k)) as [->|Hne]; simpl; [reflexivity|].
  intros H. by rewrite IH.
Qed.

(** X6.  Resolving an identifier again after its entry has expired renews the
    entry where it stands: the order of the keys, and with it the turn of
    every entry to be evicted, is what it was before, nothing is evicted, and
    the entry carries the new metadata and the time of the store. *)
Theorem refresh_keeps_eviction_order (env : Env) (videoUrl videoId : jsstring)
  (st : State) (old : CacheEntry) (info : VideoInfo) :
  CacheBounded st ->
  JsMap.get videoId (videoInfoCache st) = Some old ->
  10 * 60 * 1000 <= clock st - timestamp old ->
  snd (ytdl_getInfo env (resolverCalls st) videoUrl) = Fulfilled info ->
  let st' := snd (Optimized.getCachedVideoInfo env videoUrl videoId st) in
  JsMap.keys (videoInfoCache st') = JsMap.keys (videoInfoCache st)
  /\ JsMap.get videoId (videoInfoCache st')
     = Some {| data := info; timestamp := clock st' |}
  /\ added st st'
     = [CacheRead videoId; Resolve videoUrl; CacheWrite videoId].
Proof.
  intros Hbound Hget Hold Hok st'. subst st'.
  rewrite getCachedVideoInfo_run.
  rewrite freshHit_miss
    by (intros e He; rewrite Hget in He; injection He as <-;
        unfold Optimized.CACHE_TTL; lia).
  rewrite Hok. cbn [fst snd].
  set (entry := {| data := info; timestamp := _ |}).
  destruct (evictOldest_small (JsMap.set videoId entry (videoInfoCache st)))
    as [Hev Heff].
  { rewrite size_set_present; [exact Hbound | by rewrite Hget]. }
  rewrite added_evolved, Hev, Heff. cbn [evolved videoInfoCache clock].
  split; [by apply (keys_set_present _ _ old)|].
  split; [apply get_set_eq | by rewrite app_nil_r].
Qed.

Lemma refresh_keeps_eviction_order_witness :
  let st := Sample.fullState 600000 in
  let st' :=
    snd (Optimized.getCachedVideoInfo Sample.steady (watchUrl [0%N]) [0%N] st) in
  JsMap.firstKey (videoInfoCache st') = Some [0%N]
  /\ JsMap.get [0%N] (videoInfoCache st')
     = Some {| data := Sample.info; timestamp := 600250 |}.
Proof.
  cbv zeta.
  assert (Hbound : CacheBounded (Sample.fullState 600000))
    by (vm_compute; lia).
  assert (Hget : JsMap.get [0%N] (videoInfoCache (Sample.fullState 600000))
                 = Some {| data := Sample.info; timestamp := 0 |})
    by (vm_compute; reflexivity).
  assert (Hold : 10 * 60 * 1000
                 <= clock (Sample.fullState 600000)
                    - timestamp {| data := Sample.info; timestamp := 0 |})
    by (vm_compute; discriminate).
  destruct (refresh_keeps_eviction_order Sample.steady (watchUrl [0%N]) [0%N]
              (Sample.fullState 600000) _ Sample.info Hbound Hget Hold eq_refl)
    as (Hkeys & Hstored & _).
  split.
  - unfold JsMap.firstKey. rewrite Hkeys. vm_compute. reflexivity.
  - rewrite Hstored. vm_compute. reflexivity.
Defined.

Lemma miss_resolves_once (env : Env) (videoUrl videoId : jsstring) (st : State) :
  freshHit videoId st = None ->
  resolvesOf (added st (snd (Optimized.getCachedVideoInfo env videoUrl videoId st)))
  = [Resolve videoUrl].
Proof.
  intros Hmiss. rewrite getCachedVideoInfo_run, Hmiss. cbv zeta.
  destruct (snd (ytdl_getInfo env _ _)); cbn [snd]; rewrite added_evolved.
  - by rewrite resolvesOf_app, resolvesOf_eviction.
  - reflexivity.
Qed.

(** X7.  [POST /clear-cache] answers 200 and leaves the cache empty without
    calling the resolver; whatever was stored before, the next request for a
    well-formed identifier on any of the four lookup endpoints calls the
    resolver exactly once. *)
Theorem clearCache_forgets_everything (env : Env) (videoId : jsstring)
  (bitrate : option jsstring) (r : Optimized.Request) (st : State) :
  Optimized.validateVideoId videoId = true ->
  r ∈ lookupRequests videoId bitrate ->
  let cleared := snd (Optimized.handle env Optimized.PostClearCache st) in
  statusCode (fst (Optimized.handle env Optimized.PostClearCache st)) = 200
  /\ videoInfoCache cleared = []
  /\ added st cleared = [CacheClear]
  /\ resolvesOf (added cleared (snd (Optimized.handle env r cleared)))
     = [Resolve (watchUrl videoId)].
Proof.
  intros Hvalid Hr cleared. subst cleared.
  split; [reflexivity|]. split; [reflexivity|].
  split; [by apply added_of|].
  rewrite (resolves_of_handler env videoId bitrate) by done.
  exact (miss_resolves_once env (watchUrl videoId) videoId
           (withFreshRes
              (snd (Optimized.handle env Optimized.PostClearCache st)))
           eq_refl).
Qed.

Lemma clearCache_forgets_everything_witness :
  let warm :=
    snd (Optimized.handle Sample.steady (Optimized.GetVideoInfo Sample.goodId)
           (Optimized.initial 0)) in
  let cleared :=
    snd (Optimized.handle Sample.steady Optimized.PostClearCache warm) in
  JsMap.has Sample.goodId (videoInfoCache warm) = true
  /\ resolvesOf
       (added cleared
          (snd (Optimized.handle Sample.steady
                  (Optimized.GetVideoInfo Sample.goodId) cleared)))
     = [Resolve (watchUrl Sample.goodId)].
Proof.
  cbv zeta. split; [vm_compute; reflexivity|].
  assert (Hvalid : Optimized.validateVideoId Sample.goodId = true)
    by (vm_compute; reflexivity).
  assert (Hr : Optimized.GetVideoInfo Sample.goodId
               ∈ lookupRequests Sample.goodId None)
    by (apply list_elem_of_lookup; by exists 2%nat).
  exact (proj2 (proj2 (proj2
    (clearCache_forgets_everything Sample.steady Sample.goodId None _
       (snd (Optimized.handle Sample.steady
               (Optimized.GetVideoInfo Sample.goodId) (Optimized.initial 0)))
       Hvalid Hr)))).
Defined.

Lemma has_of_get (k : jsstring) (c : JsMap.t CacheEntry) (e : CacheEntry) :
  JsMap.get k c = Some e -> JsMap.has k c = true.
Proof. unfold JsMap.has. by intros ->. Qed.

(** X8.  The [cached] field of a video-info answer never tells a hit from a
    miss: every 200 answer carries [cached: true], and the other answers
    (400 and 404) carry no such field. *)
Theorem cached_flag_is_always_true (env : Env) (videoId : jsstring)
  (st : State) :
  CacheBounded st ->
  let response :=
    fst (Optimized.handle env (Optimized.GetVideoInfo videoId) st) in
  (statusCode response = 200
   /\ bodyField "cached" response = Some (JBool true))
  \/ ((statusCode response = 400 \/ statusCode response = 404)
      /\ bodyField "cached" response = None).
Proof.
  intros Hbound response. subst response.
  unfold Optimized.handle, serve. fold (withFreshRes st). cbn [fst snd].
  unfold Optimized.handler, Optimized.videoInfo.
  destruct (Optimized.validateVideoId videoId) eqn:Hvalid; cbn [negb];
    [|right; split; [by left | reflexivity]].
  cbv zeta. unfold tryCatch, bind.
  rewrite getCachedVideoInfo_run, freshHit_withFreshRes,
    resolverCalls_withFreshRes.
  unfold freshHit.
  destruct (JsMap.get videoId (videoInfoCache st)) as [e|] eqn:Hget.
  - destruct (clock st - timestamp e <? Optimized.CACHE_TTL).
    + left. unfold_monad. cbn [fst snd evolved videoInfoCache withFreshRes res].
      rewrite (has_of_get _ _ _ Hget). by split.
    + cbv zeta.
      destruct (snd (ytdl_getInfo env _ _)) as [info|err].
      * left. unfold_monad.
        cbn [fst snd evolved videoInfoCache withFreshRes res].
        erewrite has_of_get by (by apply get_after_store). by split.
      * right. split; [by right | reflexivity].
  - cbv zeta. destruct (snd (ytdl_getInfo env _ _)) as [info|err].
    + left. unfold_monad.
      cbn [fst snd evolved videoInfoCache withFreshRes res].
      rewrite has_after_store_new by exact Hget. by split.
    + right. split; [by right | reflexivity].
Qed.

Lemma cached_flag_is_always_true_witness :
  let warm :=
    snd (Optimized.handle Sample.steady (Optimized.GetVideoInfo Sample.goodId)
           (Optimized.initial 0)) in
  bodyField "cached"
    (fst (Optimized.handle Sample.steady
            (Optimized.GetVideoInfo Sample.goodId) (Optimized.initial 0)))
  = bodyField "cached"
      (fst (Optimized.handle Sample.steady
              (Optimized.GetVideoInfo Sample.goodId) warm)).
Proof.
  cbv zeta.
  assert (Hcold : CacheBounded (Optimized.initial 0)) by (vm_compute; lia).
  assert (Hwarm : CacheBounded
            (snd (Optimized.handle Sample.steady
                    (Optimized.GetVideoInfo Sample.goodId)
                    (Optimized.initial 0)))) by (vm_compute; lia).
  destruct (cached_flag_is_always_true Sample.steady Sample.goodId _ Hcold)
    as [[_ ->] | [[H|H] _]]; [|vm_compute in H; discriminate ..].
  destruct (cached_flag_is_always_true Sample.steady Sample.goodId _ Hwarm)
    as [[_ ->] | [[H|H] _]]; [|vm_compute in H; discriminate ..].
  reflexivity.
Defined.

(** ** Status codes *)

Lemma batchDownload_refused (env : Env) (videoIds : option (list jsstring))
  (st : State) :
  match videoIds with
  | None => True
  | Some ids => ids = [] \/ (10 < length ids)%nat
  end ->
  statusCode (fst (Optimized.handle env (Optimized.PostBatchDownload videoIds) st))
  = 400
  /\ bodyField "error"
       (fst (Optimized.handle env (Optimized.PostBatchDownload videoIds) st))
     = Some (jstr (match videoIds with
                   | Some (_ :: _) => "Maximum 10 videos per batch"
                   | _ => "videoIds array is required"
                   end))
  /\ Quiet st (snd (Optimized.handle env (Optimized.PostBatchDownload videoIds) st)).
Proof.
  destruct videoIds as [ids|]; [|intros _; by repeat split].
  intros [->|Hlong]; [by repeat split|].
  unfold Optimized.handle, serve, Optimized.handler, Optimized.batchDownload.
  destruct ids as [|id ids]; [simpl in Hlong; lia|].
  change (length (id :: ids) =? 0)%nat with false. cbv iota.
  destruct (Nat.ltb_spec 10 (length (id :: ids))) as [_|]; [|lia].
  by repeat split.
Qed.

(** X9.  The status codes of the optimized server, endpoint by endpoint: the
    streaming download and the direct link answer 200, 400 or 500 and never
    404; the info and formats endpoints answer 200, 400 or 404 and never 500;
    a batch answers 200 or 400 and never 500; cache statistics and cache
    clearing always answer 200. *)
Theorem status_codes_by_endpoint (env : Env) (r : Optimized.Request)
  (st : State) :
  statusCode (fst (Optimized.handle env r st)) ∈ possibleStatus r.
Proof.
  assert (H200 : forall l, (200 : Z) ∈ 200 :: l) by (intros; by left).
  assert (H400 : forall a l, (400 : Z) ∈ a :: 400 :: l)
    by (intros; right; by left).
  assert (Hthird : forall a b (x : Z), x ∈ [a; b; x])
    by (intros; right; right; by left).
  assert (Hlookup : forall videoId : jsstring,
    exists outcome c1 v1 e1 u1,
      Optimized.getCachedVideoInfo env (watchUrl videoId) videoId
        (withFreshRes st)
      = (outcome,
         {| clock := c1; videoInfoCache := v1; effects := e1; uuids := u1;
            res := freshRes |})).
  { intros videoId.
    pose proof (getCachedVideoInfo_res env (watchUrl videoId) videoId
                  (withFreshRes st)) as Hres.
    destruct (Optimized.getCachedVideoInfo env (watchUrl videoId) videoId
                (withFreshRes st)) as [outcome [c1 v1 e1 u1 r1]].
    simpl in Hres. subst r1. by exists outcome, c1, v1, e1, u1. }
  destruct r as [videoId|videoId bitrate|videoIds|videoId|videoId| |];
    cbn [possibleStatus]; try apply H200.
  - (* direct link *)
    unfold Optimized.handle, serve. fold (withFreshRes st). cbn [fst snd].
    unfold Optimized.handler, Optimized.directLink.
    destruct (Optimized.validateVideoId videoId); cbn [negb]; [|apply H400].
    cbv zeta. unfold tryCatch, bind.
    destruct (Hlookup videoId) as ([info|err] & c1 & v1 & e1 & u1 & ->);
      [|apply Hthird].
    destruct (Optimized.bestFormat _); [apply H200 | apply H400].
  - (* streaming download *)
    unfold Optimized.handle, serve. fold (withFreshRes st). cbn [fst snd].
    unfold Optimized.handler, Optimized.downloadMp3.
    destruct (Optimized.validateVideoId videoId); cbn [negb]; [|apply H400].
    cbv zeta. unfold tryCatch, bind.
    destruct (Hlookup videoId) as ([info|err] & c1 & v1 & e1 & u1 & ->);
      unfold_monad; simpl; [|apply Hthird].
    destruct (length (ytdl_filterFormats env (formats info) audioonly));
      simpl; [apply H400 | apply H200].
  - (* batch *)
    destruct videoIds as [ids|].
    + destruct (Nat.le_gt_cases (length ids) 10) as [Hle|Hgt].
      * destruct ids as [|id ids].
        -- destruct (batchDownload_refused env (Some []) st) as [-> _];
             [by left | apply H400].
        -- destruct (batchDownload_response env (id :: ids) st)
             as (results & _ & ->); [simpl in *; lia | apply H200].
      * destruct (batchDownload_refused env (Some ids) st) as [-> _];
          [by right | apply H400].
    + destruct (batchDownload_refused env None st) as [-> _];
        [exact I | apply H400].
  - (* video info *)
    unfold Optimized.handle, serve. fold (withFreshRes st). cbn [fst snd].
    unfold Optimized.handler, Optimized.videoInfo.
    destruct (Optimized.validateVideoId videoId); cbn [negb]; [|apply H400].
    cbv zeta. unfold tryCatch, bind.
    destruct (Hlookup videoId) as ([info|err] & c1 & v1 & e1 & u1 & ->);
      [apply H200 | apply Hthird].
  - (* formats *)
    unfold Optimized.handle, serve. fold (withFreshRes st). cbn [fst snd].
    unfold Optimized.handler, Optimized.formatsOf.
    destruct (Optimized.validateVideoId videoId); cbn [negb]; [|apply H400].
    cbv zeta. unfold tryCatch, bind.
    destruct (Hlookup videoId) as ([info|err] & c1 & v1 & e1 & u1 & ->);
      [apply H200 | apply Hthird].
Qed.

(** ** Resolver calls of a batch *)

Lemma freshHit_same (videoId : jsstring) (st st' : State) :
  videoInfoCache st' = videoInfoCache st -> clock st' = clock st ->
  freshHit videoId st' = freshHit videoId st.
Proof. unfold freshHit. by intros -> ->. Qed.

Lemma unanswered_same (st st' : State) (videoIds : list jsstring) :
  videoInfoCache st' = videoInfoCache st -> clock st' = clock st ->
  unanswered st' videoIds = unanswered st videoIds.
Proof.
  intros Hc Ht. unfold unanswered. apply list_filter_iff. intros videoId.
  by rewrite (freshHit_same videoId st st' Hc Ht).
Qed.

(** The first stretch of a batch item reads the cache and, on a miss, issues
    its resolver call; it leaves the cache and the clock alone. *)
Lemma startItem_calls (videoId : jsstring) (st : State) :
  let st' := snd (Optimized.startItem videoId st) in
  videoInfoCache st' = videoInfoCache st
  /\ clock st' = clock st
  /\ resolverCalls st'
     = (resolverCalls st + length (unanswered st [videoId]))%nat.
Proof.
  unfold Optimized.startItem, unanswered. rewrite filter_cons, filter_nil.
  destruct (Optimized.validateVideoId videoId); cbn [negb].
  - cbv zeta. unfold bind. rewrite lookupCached_run.
    destruct (freshHit videoId st) as [info|] eqn:Hhit.
    + rewrite decide_False by (intros [_ ?]; discriminate).
      unfold ret. cbn [snd]. rewrite resolverCalls_evolved. simpl.
      repeat split; lia.
    + rewrite decide_True by done.
      unfold issueGetInfo, emit, ret, bind. cbn [snd fst].
      repeat split; [simpl; lia|].
      unfold resolverCalls. simpl.
      rewrite !filter_app, !length_app. simpl. lia.
  - rewrite decide_False by (intros [? _]; discriminate).
    simpl. repeat split; lia.
Qed.

Lemma mapM_startItem_calls (videoIds : list jsstring) (st : State) :
  let st' := snd (Optimized.mapM Optimized.startItem videoIds st) in
  videoInfoCache st' = videoInfoCache st
  /\ clock st' = clock st
  /\ resolverCalls st'
     = (resolverCalls st + length (unanswered st videoIds))%nat.
Proof.
  revert st. induction videoIds as [|videoId videoIds IH]; intros st.
  - simpl. repeat split; lia.
  - cbn [Optimized.mapM]. unfold bind.
    destruct (startItem_total videoId st) as (s & st1 & Hrun & _).
    pose proof (startItem_calls videoId st) as (Hc1 & Ht1 & Hn1).
    rewrite Hrun in Hc1, Ht1, Hn1 |- *. cbn [snd] in Hc1, Ht1, Hn1.
    pose proof (IH st1) as (Hc2 & Ht2 & Hn2).
    destruct (Optimized.mapM Optimized.startItem videoIds st1)
      as [[started|err] st2]; cbn [snd ret] in *.
    all: rewrite (unanswered_same st st1 videoIds Hc1 Ht1) in Hn2.
    all: replace (unanswered st (videoId :: videoIds))
           with (unanswered st [videoId] ++ unanswered st videoIds)
           by (unfold unanswered; by rewrite <- filter_app).
    all: rewrite length_app; repeat split; try congruence; lia.
Qed.

Lemma free_calls {A} (m : M A) (st : State) :
  AtMost 0 m -> resolverCalls (snd (m st)) = resolverCalls st.
Proof. intros Hm. destruct (Hm st) as [? _]. lia. Qed.

Lemma free_mapM {A B} (f : A -> M B) (l : list A) :
  (forall a, AtMost 0 (f a)) -> AtMost 0 (Optimized.mapM f l).
Proof.
  intros Hf. pose proof (atMost_mapM 0 f l Hf) as Hall.
  by rewrite Nat.mul_0_r in Hall.
Qed.

(** X12.  A batch does not share lookups between its items.  Every item reads
    the cache before any resolver call of the batch has been answered, so an
    accepted batch makes exactly one resolver call for every occurrence of a
    well-formed identifier the cache could not answer when the request
    arrived: an identifier repeated in the list is resolved once per
    occurrence. *)
Theorem batch_resolves_every_occurrence (env : Env)
  (videoIds : list jsstring) (st : State) :
  (1 <= length videoIds <= 10)%nat ->
  resolverCalls
    (snd (Optimized.handle env (Optimized.PostBatchDownload (Some videoIds)) st))
  = (resolverCalls st + length (unanswered st videoIds))%nat.
Proof.
  intros Hlen.
  unfold Optimized.handle, serve. fold (withFreshRes st). cbn [snd].
  unfold Optimized.handler, Optimized.batchDownload.
  destruct (Nat.eqb_spec (length videoIds) 0) as [|_]; [lia|].
  destruct (Nat.ltb_spec 10 (length videoIds)) as [|_]; [lia|].
  destruct (allSettledItems_total env videoIds (withFreshRes st))
    as (results & st' & Hrun & _).
  unfold tryCatch, bind. rewrite Hrun.
  unfold resJson, modifyRes. cbn [snd].
  change (resolverCalls st'
          = (resolverCalls st + length (unanswered st videoIds))%nat).
  replace st' with (snd (Optimized.allSettledItems env videoIds (withFreshRes st)))
    by (by rewrite Hrun).
  clear Hrun. unfold Optimized.allSettledItems, bind.
  pose proof (mapM_startItem_calls videoIds (withFreshRes st)) as (_ & _ & Hn).
  rewrite resolverCalls_withFreshRes in Hn.
  rewrite (unanswered_same st (withFreshRes st)) in Hn by done.
  destruct (Optimized.mapM Optimized.startItem videoIds (withFreshRes st))
    as [[started|err] st1]; cbn [snd] in Hn |- *; [|exact Hn].
  pose proof (free_calls _ st1 (free_mapM _ started (free_resumeHit env)))
    as Hn2.
  destruct (Optimized.mapM (Optimized.resumeHit env) started st1)
    as [[progress|err] st2]; cbn [snd] in Hn2 |- *; [|lia].
  pose proof (free_calls _ st2 (free_mapM _ progress (free_resumePending env)))
    as Hn3.
  lia.
Qed.

Lemma batch_resolves_every_occurrence_witness :
  resolverCalls
    (snd (Optimized.handle Sample.steady
            (Optimized.PostBatchDownload
               (Some [Sample.goodId; Sample.badId; Sample.goodId]))
            (Optimized.initial 0)))
  = 2%nat.
Proof.
  exact (batch_resolves_every_occurrence Sample.steady
           [Sample.goodId; Sample.badId; Sample.goodId] (Optimized.initial 0)
           ltac:(simpl; lia)).
Defined.

(** ** Cache statistics *)

(** X13.  After any sequence of requests, with any pauses between them,
    [GET /cache-stats] answers 200 with a size that is at most the reported
    maximum of 1000, and lists at most ten keys: the oldest ones, in insertion
    order, all of them when the cache holds fewer than ten.  Asking changes
    nothing in the cache. *)
Theorem cache_stats_within_bound (env : Env)
  (rs : list (Z * Optimized.Request)) (t0 : Z) :
  let st := Optimized.run env rs (Optimized.initial t0) in
  let answer := Optimized.handle env Optimized.GetCacheStats st in
  let shown := take 10 (JsMap.keys (videoInfoCache st)) in
  statusCode (fst answer) = 200
  /\ bodyField "videoInfoCache" (fst answer)
     = Some (JObj [("size",
                     JV (JNum (Z.of_nat (JsMap.size (videoInfoCache st)))));
                   ("maxSize", JV (JNum 1000));
                   ("entries", JArr (map (fun k => JV (JStr k)) shown))])
  /\ 0 <= Z.of_nat (JsMap.size (videoInfoCache st)) <= 1000
  /\ length shown = Nat.min 10 (JsMap.size (videoInfoCache st))
  /\ shown `prefix_of` JsMap.keys (videoInfoCache st)
  /\ Quiet st (snd answer).
Proof.
  intros st answer shown.
  pose proof (cache_bound_invariant env rs t0) as Hbound.
  fold st in Hbound. unfold CacheBounded in Hbound.
  repeat split; try reflexivity; try lia.
  - subst shown. rewrite length_take. unfold JsMap.size, JsMap.keys.
    by rewrite length_map.
  - apply prefix_take.
Qed.

(** ** What the direct-link and formats endpoints pick *)

(** X14.  When the lookup of a well-formed identifier gives metadata, from the
    cache or from the resolver: without audio-only formats the direct-link
    endpoint answers 400 while the formats endpoint still answers 200, with
    [recommendedAudio] null; otherwise the direct link is the URL of the first
    audio-only format of maximal numeric bit rate, it is announced to expire
    six hours after the instant of the answer, and the formats endpoint
    recommends the first audio-only format, whose bit rate can only be lower
    or equal, and lists at most ten video-only formats. *)
Theorem direct_link_and_recommended_format (env : Env) (videoId : jsstring)
  (info : VideoInfo) (st : State) :
  Optimized.validateVideoId videoId = true ->
  fst (Optimized.getCachedVideoInfo env (watchUrl videoId) videoId
         (withFreshRes st)) = Fulfilled info ->
  let looked :=
    snd (Optimized.getCachedVideoInfo env (watchUrl videoId) videoId
           (withFreshRes st)) in
  let audio := ytdl_filterFormats env (formats info) audioonly in
  let link := fst (Optimized.handle env (Optimized.GetDirectLink videoId) st) in
  let listed := fst (Optimized.handle env (Optimized.GetFormats videoId) st) in
  statusCode listed = 200
  /\ (exists shown,
        arrayField "videoFormats" listed = Some shown
        /\ (length shown <= 10)%nat)
  /\ arrayField "audioFormats" listed = Some (map Optimized.audioInfoOf audio)
  /\ match audio with
     | [] =>
         statusCode link = 400
         /\ bodyField "error" link
            = Some (jstr "No audio formats available for this video")
         /\ bodyField "recommendedAudio" listed = Some (JV JNull)
     | first :: _ =>
         exists i best,
           Spec.IsFirstMaximum audio i best
           /\ statusCode link = 200
           /\ bodyField "directUrl" link = Some (JV (url best))
           /\ bodyField "expiresAt" link
              = Some (JV (JNum (clock looked + 6 * 60 * 60 * 1000)))
           /\ bodyField "recommendedAudio" listed
              = Some (Optimized.audioInfoOf first)
           /\ Spec.numericBitrate first <= Spec.numericBitrate best
     end.
Proof.
  intros Hvalid Hinfo looked audio link listed.
  subst looked link listed.
  unfold Optimized.handle, serve. fold (withFreshRes st). cbn [fst snd].
  unfold Optimized.handler, Optimized.directLink, Optimized.formatsOf.
  rewrite Hvalid. cbn [negb]. cbv zeta. unfold tryCatch, bind.
  pose proof (getCachedVideoInfo_res env (watchUrl videoId) videoId
                (withFreshRes st)) as Hres.
  destruct (Optimized.getCachedVideoInfo env (watchUrl videoId) videoId
              (withFreshRes st)) as [outcome [c1 v1 e1 u1 r1]].
  simpl in Hres, Hinfo. subst r1 outcome. fold audio.
  split; [reflexivity|]. split.
  { eexists. split; [reflexivity|]. rewrite length_map, length_take. lia. }
  split; [reflexivity|].
  destruct audio as [|first rest] eqn:Haudio; [by repeat split|].
  destruct (bestFormat_scan rest [first] 0 first) as [i Hi].
  { repeat split.
    - intros j g Hj. destruct j; simpl in Hj; [|done].
      injection Hj as ->. lia.
    - intros j g Hlt. lia. }
  exists i, (fold_left Optimized.betterOf rest first).
  split; [exact Hi|].
  repeat split.
  destruct Hi as (_ & Hmax & _). by apply (Hmax 0%nat first).
Qed.

Lemma direct_link_and_recommended_format_witness :
  statusCode
    (fst (Optimized.handle Sample.steady
            (Optimized.GetFormats Sample.goodId) (Optimized.initial 0)))
  = 200.
Proof.
  assert (Hvalid : Optimized.validateVideoId Sample.goodId = true)
    by (vm_compute; reflexivity).
  assert (Hinfo :
    fst (Optimized.getCachedVideoInfo Sample.steady (watchUrl Sample.goodId)
           Sample.goodId (withFreshRes (Optimized.initial 0)))
    = Fulfilled Sample.info) by (vm_compute; reflexivity).
  exact (proj1 (direct_link_and_recommended_format Sample.steady Sample.goodId
                  Sample.info (Optimized.initial 0) Hvalid Hinfo)).
Defined.

(** ** The janitors of the downloads directory *)

Lemma tooOld_later (now later : Z) (f : Fs.File) :
  now <= later ->
  OptimizedJanitor.tooOld now f = true ->
  OptimizedJanitor.tooOld later f = true.
Proof.
  unfold OptimizedJanitor.tooOld. intros Hle.
  destruct (Fs.mtime f) as [modified|]; [|done].
  intros Hold%Z.ltb_lt. apply Z.ltb_lt. lia.
Qed.

Lemma sweepFile_later (now later : Z) (f : Fs.File) :
  now <= later ->
  flat_map (OptimizedJanitor.sweepFile later) (OptimizedJanitor.sweepFile now f)
  = OptimizedJanitor.sweepFile later f.
Proof.
  intros Hle. unfold OptimizedJanitor.sweepFile at 2.
  destruct (OptimizedJanitor.tooOld now f) eqn:Hold.
  - pose proof (tooOld_later now later f Hle Hold) as Hlater.
    destruct (Fs.unlinkError f) eqn:Hunlink; simpl.
    + by rewrite app_nil_r.
    + unfold OptimizedJanitor.sweepFile. by rewrite Hlater, Hunlink.
  - simpl. by rewrite app_nil_r.
Qed.

Lemma sweepFile_sublist (now : Z) (f : Fs.File) :
  sublist (OptimizedJanitor.sweepFile now f) [f].
Proof.
  unfold OptimizedJanitor.sweepFile.
  destruct (OptimizedJanitor.tooOld now f); [|done].
  destruct (Fs.unlinkError f); [done|]. apply sublist_nil_l.
Qed.

(** X15.  The optimized server's janitor never throws and only removes: what
    it leaves is a sublist of the listing, in the same order; a file goes
    exactly when its [stat] succeeds, it was modified more than 24 hours
    (86400000 ms) before the sweep, a file exactly 24 hours old staying, and
    its [unlink] succeeds.  Sweeps compose: a sweep after an earlier sweep
    leaves what it would have left alone, so a repeated sweep at the same
    instant changes nothing.  An unreadable directory is logged and left as it
    is. *)
Theorem optimized_janitor_sweeps_compose (now later : Z)
  (dir : Fs.Directory) :
  now <= later ->
  let swept := fst (OptimizedJanitor.cleanUpOldFiles now dir) in
  OptimizedJanitor.cleanUpOldFiles later swept
  = OptimizedJanitor.cleanUpOldFiles later dir
  /\ OptimizedJanitor.cleanUpOldFiles now swept
     = OptimizedJanitor.cleanUpOldFiles now dir
  /\ match dir with
     | Fs.Unreadable error =>
         OptimizedJanitor.cleanUpOldFiles now dir = (dir, [error])
     | Fs.Listing files =>
         exists left,
           OptimizedJanitor.cleanUpOldFiles now dir = (Fs.Listing left, [])
           /\ sublist left files
           /\ forall f, f ∈ files ->
                (f ∈ left <->
                 ~ (exists modified,
                      Fs.mtime f = Fulfilled modified
                      /\ 86400000 < now - modified
                      /\ Fs.unlinkError f = None))
     end.
Proof.
  intros Hle swept. subst swept.
  assert (Hcompose : forall t, now <= t ->
            OptimizedJanitor.cleanUpOldFiles t
              (fst (OptimizedJanitor.cleanUpOldFiles now dir))
            = OptimizedJanitor.cleanUpOldFiles t dir).
  { intros t Ht. destruct dir as [files|error]; [|reflexivity].
    cbn [OptimizedJanitor.cleanUpOldFiles fst]. do 2 f_equal.
    induction files as [|f files IH]; [reflexivity|].
    cbn [flat_map]. rewrite flat_map_app, IH. f_equal.
    by apply sweepFile_later. }
  split; [by apply Hcompose|]. split; [apply Hcompose; lia|].
  destruct dir as [files|error]; [|reflexivity].
  eexists. split; [reflexivity|]. split.
  - clear Hcompose. induction files as [|f files IH]; [done|].
    cbn [flat_map]. change (f :: files) with ([f] ++ files).
    apply sublist_app; [apply sweepFile_sublist | exact IH].
  - intros f Hf. rewrite list_elem_of_In, in_flat_map. split.
    + intros (g & Hg & Hin) (modified & Hstat & Hold & Hunlink).
      unfold OptimizedJanitor.sweepFile, OptimizedJanitor.tooOld in Hin.
      destruct (Fs.mtime g) as [m|e] eqn:Hm.
      * destruct (Z.ltb_spec Fs.maxAge (now - m)) as [Hlt|Hge].
        -- destruct (Fs.unlinkError g) eqn:Hu; [|done].
           destruct Hin as [->|[]]. congruence.
        -- destruct Hin as [->|[]].
           rewrite Hstat in Hm. injection Hm as ->.
           unfold Fs.maxAge in Hge. lia.
      * destruct Hin as [->|[]]. congruence.
    + intros Hkeep. exists f. split; [by apply list_elem_of_In|].
      unfold OptimizedJanitor.sweepFile, OptimizedJanitor.tooOld.
      destruct (Fs.mtime f) as [m|e] eqn:Hm; [|by left].
      destruct (Z.ltb_spec Fs.maxAge (now - m)) as [Hlt|Hge]; [|by left].
      destruct (Fs.unlinkError f) eqn:Hu; [by left|].
      exfalso. apply Hkeep. exists m. unfold Fs.maxAge in Hlt.
      split; [reflexivity|]. split; [lia | done].
Qed.

Lemma optimized_janitor_sweeps_compose_witness :
  OptimizedJanitor.cleanUpOldFiles (3 * Sample.day)
    (fst (OptimizedJanitor.cleanUpOldFiles (2 * Sample.day)
            (Fs.Listing Sample.downloads)))
  = OptimizedJanitor.cleanUpOldFiles (3 * Sample.day)
      (Fs.Listing Sample.downloads).
Proof.
  exact (proj1 (optimized_janitor_sweeps_compose (2 * Sample.day)
                  (3 * Sample.day) (Fs.Listing Sample.downloads)
                  ltac:(vm_compute; discriminate))).
Defined.

(** X16.  The basic server's janitor is one loop without a handler: it
    treats the files in order exactly as the optimized one does until the
    first file whose [stat] fails or whose removal fails, throws there, and
    leaves that file and everything after it in place, files older than 24
    hours included.  It ends normally exactly when no file fails, and then
    both janitors leave the same directory.  An unreadable directory makes it
    throw as well. *)
Theorem basic_janitor_stops_at_first_failure (now : Z) (dir : Fs.Directory) :
  match dir with
  | Fs.Unreadable error =>
      BasicJanitor.cleanUpOldFiles now dir = (Rejected error, dir)
  | Fs.Listing files =>
      exists handled untouched,
        files = handled ++ untouched
        /\ snd (BasicJanitor.cleanUpOldFiles now dir)
           = Fs.Listing
               (flat_map (OptimizedJanitor.sweepFile now) handled ++ untouched)
        /\ Forall (fun f =>
                     (exists modified, Fs.mtime f = Fulfilled modified)
                     /\ (OptimizedJanitor.tooOld now f = true ->
                         Fs.unlinkError f = None))
                  handled
        /\ match fst (BasicJanitor.cleanUpOldFiles now dir) with
           | Fulfilled _ =>
               untouched = []
               /\ snd (BasicJanitor.cleanUpOldFiles now dir)
                  = fst (OptimizedJanitor.cleanUpOldFiles now dir)
           | Rejected e =>
               exists f rest,
                 untouched = f :: rest
                 /\ (Fs.mtime f = Rejected e
                     \/ (OptimizedJanitor.tooOld now f = true
                         /\ Fs.unlinkError f = Some e))
           end
  end.
Proof.
  destruct dir as [files|error]; [|reflexivity].
  cbn [BasicJanitor.cleanUpOldFiles OptimizedJanitor.cleanUpOldFiles fst].
  induction files as [|f files IH].
  - exists [], []. by repeat split.
  - destruct IH as (handled & untouched & Hfiles & Hleft & Hfine & Hend).
    cbn [BasicJanitor.sweep].
    destruct (BasicJanitor.sweep now files) as [outcome files'] eqn:Hsweep.
    cbn [fst snd] in Hleft, Hend. injection Hleft as Hleft.
    assert (Hstop : forall e,
              Fs.mtime f = Rejected e
              \/ (OptimizedJanitor.tooOld now f = true
                  /\ Fs.unlinkError f = Some e) ->
              exists handled0 untouched0,
                f :: files = handled0 ++ untouched0
                /\ Fs.Listing (f :: files)
                   = Fs.Listing
                       (flat_map (OptimizedJanitor.sweepFile now) handled0
                        ++ untouched0)
                /\ Forall (fun f =>
                     (exists modified, Fs.mtime f = Fulfilled modified)
                     /\ (OptimizedJanitor.tooOld now f = true ->
                         Fs.unlinkError f = None)) handled0
                /\ exists f0 rest,
                     untouched0 = f0 :: rest
                     /\ (Fs.mtime f0 = Rejected e
                         \/ (OptimizedJanitor.tooOld now f0 = true
                             /\ Fs.unlinkError f0 = Some e))).
    { intros e He. exists [], (f :: files). repeat split; [constructor|].
      by exists f, files. }
    assert (Hgo : forall modified,
              Fs.mtime f = Fulfilled modified ->
              (OptimizedJanitor.tooOld now f = true -> Fs.unlinkError f = None) ->
              exists handled0 untouched0,
                f :: files = handled0 ++ untouched0
                /\ Fs.Listing (OptimizedJanitor.sweepFile now f ++ files')
                   = Fs.Listing
                       (flat_map (OptimizedJanitor.sweepFile now) handled0
                        ++ untouched0)
                /\ Forall (fun f =>
                     (exists modified, Fs.mtime f = Fulfilled modified)
                     /\ (OptimizedJanitor.tooOld now f = true ->
                         Fs.unlinkError f = None)) handled0
                /\ match outcome with
                   | Fulfilled _ =>
                       untouched0 = []
                       /\ Fs.Listing (OptimizedJanitor.sweepFile now f ++ files')
                          = Fs.Listing
                              (flat_map (OptimizedJanitor.sweepFile now)
                                 (f :: files))
                   | Rejected e =>
                       exists f0 rest,
                         untouched0 = f0 :: rest
                         /\ (Fs.mtime f0 = Rejected e
                             \/ (OptimizedJanitor.tooOld now f0 = true
                                 /\ Fs.unlinkError f0 = Some e))
                   end).
    { intros modified Hstat Hunlink. exists (f :: handled), untouched.
      split; [by rewrite Hfiles|]. split.
      { cbn [flat_map]. by rewrite Hleft, app_assoc. }
      split.
      { constructor; [|exact Hfine]. rewrite Hstat. by eauto. }
      destruct outcome as [[]|e]; [|exact Hend].
      destruct Hend as [Hnone Hsame]. split; [exact Hnone|].
      cbn [flat_map]. by injection Hsame as ->. }
    unfold OptimizedJanitor.sweepFile, OptimizedJanitor.tooOld in Hgo, Hstop |- *.
    destruct (Fs.mtime f) as [modified|e] eqn:Hstat.
    + destruct (Fs.maxAge <? now - modified) eqn:Hold.
      * destruct (Fs.unlinkError f) as [e|] eqn:Hunlink.
        -- cbn [fst snd]. apply Hstop. by right.
        -- cbn [fst snd]. by apply (Hgo modified).
      * cbn [fst snd]. by apply (Hgo modified).
    + cbn [fst snd]. apply Hstop. by left.
Qed.

(** ** The basic server's downloads *)

(** Every attempt before the last one made has failed, and a last attempt
    that fails has used up the budget. *)
Lemma attemptsMade_last (env : Env) (videoUrl : jsstring) (budget n : nat) :
  (1 <= budget)%nat ->
  let k := Spec.attemptsMade env videoUrl budget n in
  (forall j, (j < k - 1)%nat ->
     exists e, snd (ytdl_getInfo env (n + j) videoUrl) = Rejected e)
  /\ (forall err,
        snd (ytdl_getInfo env (n + k - 1) videoUrl) = Rejected err ->
        k = budget).
Proof.
  revert n. induction budget as [|budget IH]; intros n Hpos; [lia|].
  cbn [Spec.attemptsMade].
  destruct (snd (ytdl_getInfo env n videoUrl)) as [info|e] eqn:Hfirst.
  - split; [intros j Hj; simpl in Hj; lia|].
    intros err Herr. replace (n + 1 - 1)%nat with n in Herr by lia. congruence.
  - destruct budget as [|budget]; [split; [intros j Hj; simpl in Hj; lia|done]|].
    destruct (IH (S n) ltac:(lia)) as [Hbefore Hlast].
    set (k := Spec.attemptsMade env videoUrl (S budget) (S n)) in *.
    split.
    + intros j Hj. destruct j as [|j].
      * rewrite Nat.add_0_r. by exists e.
      * replace (n + S j)%nat with (S n + j)%nat by lia.
        apply Hbefore. lia.
    + intros err Herr. f_equal. apply (Hlast err).
      pose proof (attemptsMade_bounds env videoUrl (S budget) (S n)
                    ltac:(lia)) as Hk. fold k in Hk.
      replace (S n + k - 1)%nat with (n + S k - 1)%nat by lia. exact Herr.
Qed.

(** X17.  The basic server's streaming download, for a well-formed
    identifier: every attempt before the last one made has failed; when the
    last one fails too it was the third, and the answer is 500
    [Internal server error] with the message of that third failure, the
    messages of the first two being lost; when it succeeds the answer is built
    from the metadata of that attempt: 400 without audio-only formats,
    otherwise 200 with the three download headers named after its title and
    the transcoded stream. *)
Theorem Basic_download_gives_up_after_three_failures (env : Env)
  (videoId : jsstring) (st : State) :
  Optimized.validateVideoId videoId = true ->
  let videoUrl := watchUrl videoId in
  let n := resolverCalls st in
  let k := Spec.attemptsMade env videoUrl 3 n in
  let answer := fst (serve (Basic.downloadMp3 env videoId) st) in
  (forall j, (j < k - 1)%nat ->
     exists e, snd (ytdl_getInfo env (n + j) videoUrl) = Rejected e)
  /\ match snd (ytdl_getInfo env (n + k - 1) videoUrl) with
     | Rejected err =>
         k = 3%nat
         /\ answer
            = {| statusCode := 500; headers := jsonHeaders env [];
                 jsonBody :=
                   Some (JObj [("error", jstr "Internal server error");
                               ("details", JV (JStr (message err)));
                               ("suggestion",
                                 jstr "Try again in a few moments or check if the video ID is correct")]);
                 piped := None |}
     | Fulfilled info =>
         match ytdl_filterFormats env (formats info) audioonly with
         | [] => statusCode answer = 400
         | _ :: _ =>
             statusCode answer = 200
             /\ jsonBody answer = None
             /\ headers answer
                = Basic.downloadHeaders
                    (Basic.sanitizeFilename (title (videoDetails info)))
             /\ exists job,
                  piped answer = Some job /\ sourceUrl job = videoUrl
         end
     end.
Proof.
  intros Hvalid videoUrl n k answer.
  destruct (attemptsMade_last env videoUrl 3 n ltac:(lia)) as [Hbefore Hlast].
  split; [exact Hbefore|].
  subst answer. unfold serve. fold (withFreshRes st). cbn [fst snd].
  unfold Basic.downloadMp3. rewrite (valid_id_nonempty _ Hvalid).
  rewrite videoIdRegexTest_validate, Hvalid. cbn [negb]. cbv zeta.
  destruct (getInfoWithRetries_run env (watchUrl videoId) 3 (withFreshRes st))
    as (st' & Hrun & _ & _ & Hres); [lia|].
  rewrite resolverCalls_withFreshRes in Hrun. fold videoUrl n k in Hrun |- *.
  unfold tryCatch, bind. rewrite Hrun.
  destruct st' as [c1 v1 e1 u1 r1]. simpl in Hres. subst r1.
  destruct (snd (ytdl_getInfo env (n + k - 1) videoUrl)) as [info|err] eqn:Hk.
  - destruct (ytdl_filterFormats env (formats info) audioonly) as [|a l];
      unfold_monad; cbn; [reflexivity|].
    repeat split. by eexists.
  - split; [by apply (Hlast err)|]. reflexivity.
Qed.

Lemma Basic_download_gives_up_after_three_failures_witness :
  statusCode (fst (serve (Basic.downloadMp3 Sample.dead Sample.goodId)
                     (Optimized.initial 0)))
  = 500.
Proof.
  assert (Hvalid : Optimized.validateVideoId Sample.goodId = true)
    by (vm_compute; reflexivity).
  pose proof (proj2 (Basic_download_gives_up_after_three_failures Sample.dead
                       Sample.goodId (Optimized.initial 0) Hvalid)) as Hanswer.
  destruct Hanswer as [_ ->]. reflexivity.
Defined.

(** X18.  The basic server's [POST /download-mp3] answers by itself only to
    refuse: 400 [Video ID is required], with an example, when the identifier
    is missing or empty; 400 when it is malformed, both without a resolver
    call; 404 [Video not found or unavailable] with the resolver's message
    after a single failed attempt, without retry or pause.  Otherwise it
    leaves the response unsent and starts a conversion of the watch URL, in
    the requested quality or [highestaudio], to a file named after the
    sanitized title, an underscore, the first eight characters of a fresh
    identifier and [.mp3]; the listener of [end] then answers 200 with that
    name and its path under [/downloads/]. *)
Theorem Basic_post_download_answers (env : Env)
  (videoId quality : option jsstring) (st : State) :
  let out := Basic.postDownloadMp3 env videoId quality (withFreshRes st) in
  let answer := res (snd out) in
  let refused code body :=
    fst out = Fulfilled None
    /\ answer
       = {| statusCode := code; headers := jsonHeaders env [];
            jsonBody := Some body; piped := None |} in
  match videoId with
  | None | Some [] =>
      refused 400
        (JObj [("error", jstr "Video ID is required");
               ("example", JObj [("videoId", jstr "dQw4w9WgXcQ")])])
      /\ Quiet st (snd out)
  | Some id =>
      if Optimized.validateVideoId id
      then
        added st (snd out) = [Resolve (watchUrl id)]
        /\ match snd (ytdl_getInfo env (resolverCalls st) (watchUrl id)) with
           | Rejected err =>
               refused 404
                 (errorWithDetails "Video not found or unavailable" err)
           | Fulfilled info =>
               let name :=
                 Basic.sanitizeFilename (title (videoDetails info))
                 ++ str "_" ++ take 8 (uuidv4 env (uuids st)) ++ str ".mp3" in
               let job :=
                 {| Basic.saveSourceUrl := watchUrl id;
                    Basic.saveQuality := default (str "highestaudio") quality;
                    Basic.saveVideoTitle := title (videoDetails info);
                    Basic.outputFileName := name |} in
               fst out = Fulfilled (Some job)
               /\ answer = freshRes
               /\ res (snd (Basic.onSaveEnd env job (snd out)))
                  = {| statusCode := 200; headers := jsonHeaders env [];
                       jsonBody :=
                         Some (JObj
                                 [("status", jstr "completed");
                                  ("videoTitle",
                                    JV (JStr (title (videoDetails info))));
                                  ("filename", JV (JStr name));
                                  ("downloadUrl",
                                    JV (JStr (str "/downloads/" ++ name)))]);
                       piped := None |}
           end
      else
        refused 400 (errorBody "Invalid YouTube video ID format")
        /\ Quiet st (snd out)
  end.
Proof.
  intros out answer refused. subst out answer refused. cbv beta.
  destruct videoId as [[|c id]|]; [by repeat split| |by repeat split].
  unfold Basic.postDownloadMp3. cbv zeta.
  change (Basic.videoIdRegexTest (c :: id))
    with (Optimized.validateVideoId (c :: id)).
  destruct (Optimized.validateVideoId (c :: id)) eqn:Hvalid; cbn [negb];
    [|by repeat split].
  unfold tryCatch, bind. rewrite ytdlGetInfo_run.
  rewrite resolverCalls_withFreshRes.
  destruct (snd (ytdl_getInfo env (resolverCalls st) (watchUrl (c :: id))))
    as [info|err].
  - unfold_monad. cbn [fst snd]. split; [|by repeat split].
    apply added_of. simpl. reflexivity.
  - unfold_monad. cbn [fst snd]. split; [|by repeat split].
    apply added_of. simpl. reflexivity.
Qed.

(** ** Batches, item by item *)

Lemma settled_partition (results : list (Settled Json)) :
  (length (Optimized.successfulOf results)
   + length (omap Optimized.rejectedReason results))%nat
  = length results.
Proof.
  unfold Optimized.successfulOf.
  induction results as [|[v|e] results IH]; [reflexivity | |];
    cbn in *; rewrite ?length_cons; lia.
Qed.

(** The failure records carry the reasons of the rejected results, in their
    order, whatever identifier they are given. *)
Lemma failedOf_errors (videoIds : list jsstring)
  (results : list (Settled Json)) :
  omap (jsonField "error") (Optimized.failedOf videoIds results)
  = map (fun reason => JV (JStr (message reason)))
      (omap Optimized.rejectedReason results).
Proof.
  unfold Optimized.failedOf.
  assert (Hgen : forall (name : nat -> JsVal) (reasons : list JsError),
    omap (jsonField "error")
      (imap (fun index reason =>
               Optimized.failedRecord (name index) (message reason)) reasons)
    = map (fun reason => JV (JStr (message reason))) reasons).
  { intros name reasons. revert name.
    induction reasons as [|reason reasons IH]; intros name; [reflexivity|].
    cbn. f_equal. apply (IH (fun index => name (S index))). }
  apply (Hgen (fun index => from_option JStr JUndefined (videoIds !! index))).
Qed.

Lemma failedOf_rejected (videoIds : list jsstring)
  (results : list (Settled Json)) (i : nat) (err : JsError) :
  results !! i = Some (Rejected err) ->
  exists record,
    Optimized.failedOf videoIds results
      !! length (omap Optimized.rejectedReason (take i results))
    = Some record
    /\ jsonField "error" record = Some (JV (JStr (message err))).
Proof.
  intros Hi. unfold Optimized.failedOf. rewrite list_lookup_imap.
  assert (Hreasons :
    omap Optimized.rejectedReason results
    = omap Optimized.rejectedReason (take i results)
      ++ err :: omap Optimized.rejectedReason (drop (S i) results)).
  { rewrite <- (take_drop_middle results i (Rejected err) Hi) at 1.
    by rewrite omap_app. }
  rewrite Hreasons, list_lookup_middle by reflexivity. cbn.
  eexists. split; reflexivity.
Qed.

Lemma queuedItem_run (env : Env) (videoId : jsstring) (info : VideoInfo)
  (st : State) :
  exists item,
    Optimized.queuedItem env videoId info st
    = (Fulfilled item,
       {| clock := clock st; videoInfoCache := videoInfoCache st;
          effects := effects st; uuids := S (uuids st); res := res st |})
    /\ QueuedFor env videoId info (uuids st) item.
Proof. eexists. split; reflexivity. Qed.

(** The first stretch of an item, with the number of the call it issues. *)
Lemma startItem_run (videoId : jsstring) (st : State) :
  exists st',
    Optimized.startItem videoId st
    = (Fulfilled
         (if Optimized.validateVideoId videoId
          then match freshHit videoId st with
               | Some info => Optimized.Hit videoId info
               | None =>
                   Optimized.Pending videoId (resolverCalls st)
                     (watchUrl videoId)
               end
          else Optimized.Threw (invalidItem videoId)),
       st')
    /\ uuids st' = uuids st.
Proof.
  unfold Optimized.startItem.
  destruct (Optimized.validateVideoId videoId); cbn [negb].
  - cbv zeta. unfold bind. rewrite lookupCached_run.
    destruct (freshHit videoId st).
    + eexists. split; reflexivity.
    + unfold issueGetInfo, emit, ret, bind. cbn [fst snd].
      replace (resolverCalls
                 (evolved 0 [CacheRead videoId] (videoInfoCache st) st))
        with (resolverCalls st)
        by (rewrite resolverCalls_evolved; simpl; lia).
      eexists. split; reflexivity.
  - eexists. split; reflexivity.
Qed.

Lemma unanswered_cons (st : State) (videoId : jsstring)
  (videoIds : list jsstring) :
  length (unanswered st (videoId :: videoIds))
  = (length (unanswered st [videoId]) + length (unanswered st videoIds))%nat.
Proof.
  change (videoId :: videoIds) with ([videoId] ++ videoIds).
  unfold unanswered. by rewrite filter_app, length_app.
Qed.

Lemma startItems_positions (videoIds : list jsstring) (st : State) :
  exists started st',
    Optimized.mapM Optimized.startItem videoIds st = (Fulfilled started, st')
    /\ uuids st' = uuids st
    /\ length started = length videoIds
    /\ forall i videoId,
         videoIds !! i = Some videoId ->
         started !! i
         = Some (if Optimized.validateVideoId videoId
                 then match freshHit videoId st with
                      | Some info => Optimized.Hit videoId info
                      | None =>
                          Optimized.Pending videoId
                            (resolverCalls st
                             + length (unanswered st (take i videoIds)))
                            (watchUrl videoId)
                      end
                 else Optimized.Threw (invalidItem videoId)).
Proof.
  revert st. induction videoIds as [|id ids IH]; intros st.
  - exists [], st. repeat split. intros i videoId Hi.
    by rewrite lookup_nil in Hi.
  - cbn [Optimized.mapM]. unfold bind.
    destruct (startItem_run id st) as (st1 & Hrun & Hu1).
    pose proof (startItem_calls id st) as (Hc1 & Ht1 & Hn1).
    rewrite Hrun in Hc1, Ht1, Hn1. cbn [snd] in Hc1, Ht1, Hn1.
    destruct (IH st1) as (started & st2 & Hruns & Hu2 & Hlen & Hpos).
    rewrite Hrun, Hruns. eexists _, st2. split; [reflexivity|].
    split; [congruence|]. split; [simpl; by rewrite Hlen|].
    intros [|i] videoId Hi.
    + injection Hi as ->. simpl. by rewrite Nat.add_0_r.
    + simpl in Hi.
      change ((?[b] :: started) !! S i) with (started !! i).
      rewrite (Hpos i videoId Hi).
      rewrite (freshHit_same videoId st st1 Hc1 Ht1).
      rewrite (unanswered_same st st1 _ Hc1 Ht1), Hn1.
      cbn [take]. rewrite (unanswered_cons st id (take i ids)).
      by rewrite Nat.add_assoc.
Qed.

(** A traversal whose steps may each take the next identifier of [uuidv4]:
    every step that takes one gets an identifier nobody had before the
    traversal, and a later step gets a later one. *)
Lemma mapM_tickets {A B} (f : A -> M B) (R : A -> option nat -> B -> Prop) :
  (forall a st,
     exists b st',
       f a st = (Fulfilled b, st')
       /\ ((uuids st' = S (uuids st) /\ R a (Some (uuids st)) b)
           \/ (uuids st' = uuids st /\ R a None b))) ->
  forall l st,
    exists bs st' (tickets : list (option nat)),
      Optimized.mapM f l st = (Fulfilled bs, st')
      /\ (uuids st <= uuids st')%nat
      /\ length bs = length l
      /\ (forall i a,
            l !! i = Some a ->
            exists b t, bs !! i = Some b /\ tickets !! i = Some t /\ R a t b)
      /\ (forall i j n m,
            (i < j)%nat -> tickets !! i = Some (Some n) ->
            tickets !! j = Some (Some m) -> (n < m)%nat)
      /\ (forall i n,
            tickets !! i = Some (Some n) -> (uuids st <= n < uuids st')%nat).
Proof.
  intros Hf. induction l as [|a l IH]; intros st.
  - exists [], st, []. split; [reflexivity|]. split; [lia|].
    split; [reflexivity|].
    split; [intros i a Hi; by rewrite lookup_nil in Hi|].
    split; [intros i j n m _ Hi; by rewrite lookup_nil in Hi|].
    intros i n Hi; by rewrite lookup_nil in Hi.
  - destruct (Hf a st) as (b & st1 & Hrun & Hstep).
    destruct (IH st1) as (bs & st2 & tickets & Hruns & Hle & Hlen & Hpos
                          & Hmono & Hrange).
    cbn [Optimized.mapM]. unfold bind. rewrite Hrun, Hruns.
    destruct Hstep as [[Hu Hb]|[Hu Hb]].
    + exists (b :: bs), st2, (Some (uuids st) :: tickets).
      split; [reflexivity|]. split; [lia|]. split; [simpl; by rewrite Hlen|].
      split; [|split].
      * intros [|i] a' Hi.
        -- injection Hi as <-. by exists b, (Some (uuids st)).
        -- destruct (Hpos i a' Hi) as (b' & t & Hb' & Ht & HR).
           by exists b', t.
      * intros [|i] [|j] n m Hlt Hi Hj; try lia.
        -- injection Hi as <-. simpl in Hj.
           pose proof (Hrange j m Hj). lia.
        -- simpl in Hi, Hj. apply (Hmono i j); [lia | done | done].
      * intros [|i] n Hi.
        -- injection Hi as <-. lia.
        -- simpl in Hi. pose proof (Hrange i n Hi). lia.
    + exists (b :: bs), st2, (None :: tickets).
      split; [reflexivity|]. split; [lia|]. split; [simpl; by rewrite Hlen|].
      split; [|split].
      * intros [|i] a' Hi.
        -- injection Hi as <-. by exists b, None.
        -- destruct (Hpos i a' Hi) as (b' & t & Hb' & Ht & HR).
           by exists b', t.
      * intros [|i] [|j] n m Hlt Hi Hj; try lia; try discriminate.
        simpl in Hi, Hj. apply (Hmono i j); [lia | done | done].
      * intros [|i] n Hi; [discriminate|].
        simpl in Hi. pose proof (Hrange i n Hi). lia.
Qed.

(** The second stretch: an item the cache answered is queued, with the next
    identifier of [uuidv4]. *)
Lemma resumeHit_step (env : Env) (s : Optimized.Started) (st : State) :
  exists p st',
    Optimized.resumeHit env s st = (Fulfilled p, st')
    /\ ((uuids st' = S (uuids st) /\ HitResumed env s (Some (uuids st)) p)
        \/ (uuids st' = uuids st /\ HitResumed env s None p)).
Proof.
  destruct s as [reason|videoId info|videoId call videoUrl]; simpl.
  - eexists _, _. split; [reflexivity|]. by right.
  - destruct (queuedItem_run env videoId info st) as (item & Hrun & Hq).
    unfold bind, Optimized.settle. rewrite Hrun.
    eexists _, _. split; [reflexivity|]. left. split; [reflexivity|].
    by exists item.
  - eexists _, _. split; [reflexivity|]. by right.
Qed.

(** The third stretch: an item that waited for the resolver fails with the
    resolver's error, or is queued with the next identifier of [uuidv4]. *)
Lemma resumePending_step (env : Env) (p : Optimized.Progress) (st : State) :
  exists r st',
    Optimized.resumePending env p st = (Fulfilled r, st')
    /\ ((uuids st' = S (uuids st)
         /\ PendingResumed env p (Some (uuids st)) r)
        \/ (uuids st' = uuids st /\ PendingResumed env p None r)).
Proof.
  destruct p as [result|videoId call videoUrl]; simpl.
  - eexists _, _. split; [reflexivity|]. by right.
  - unfold Optimized.settle, bind, awaitGetInfo.
    destruct (ytdl_getInfo env call videoUrl) as [elapsed [info|err]];
      unfold advance, ret, throw, bind; cbn [fst snd].
    + rewrite storeResolved_run. cbv beta iota zeta.
      match goal with |- context [Optimized.queuedItem env videoId info ?s] =>
        destruct (queuedItem_run env videoId info s) as (item & -> & Hq) end.
      eexists _, _. split; [reflexivity|]. left. split; [reflexivity|].
      by exists info, item.
    + eexists _, _. split; [reflexivity|]. right. split; [reflexivity|].
      by exists err.
Qed.

Lemma metadataFor_withFreshRes (env : Env) (st : State)
  (videoIds : list jsstring) (i : nat) (videoId : jsstring) :
  metadataFor env (withFreshRes st) videoIds i videoId
  = metadataFor env st videoIds i videoId.
Proof.
  unfold metadataFor.
  by rewrite freshHit_withFreshRes, resolverCalls_withFreshRes,
    (unanswered_same st (withFreshRes st)).
Qed.

(** What a batch settles to, position by position: a malformed identifier is
    rejected as such, a well-formed one is rejected with the error of its
    metadata or queued from its metadata, with an identifier of [uuidv4] that
    nobody had before and no other item of the batch has. *)
Lemma allSettledItems_positions (env : Env) (videoIds : list jsstring)
  (st : State) :
  exists results st' (uuidOf : nat -> nat),
    Optimized.allSettledItems env videoIds st = (Fulfilled results, st')
    /\ length results = length videoIds
    /\ (forall i videoId,
          videoIds !! i = Some videoId ->
          exists r,
            results !! i = Some r
            /\ match r with
               | Fulfilled item =>
                   Optimized.validateVideoId videoId = true
                   /\ exists info,
                        metadataFor env st videoIds i videoId = Fulfilled info
                        /\ QueuedFor env videoId info (uuidOf i) item
                        /\ (uuids st <= uuidOf i < uuids st')%nat
               | Rejected reason =>
                   if Optimized.validateVideoId videoId
                   then metadataFor env st videoIds i videoId = Rejected reason
                   else reason = invalidItem videoId
               end)
    /\ (forall i j item item',
          results !! i = Some (Fulfilled item) ->
          results !! j = Some (Fulfilled item') ->
          uuidOf i = uuidOf j -> i = j).
Proof.
  unfold Optimized.allSettledItems, bind.
  destruct (startItems_positions videoIds st)
    as (started & st1 & -> & Hu1 & Hlen1 & H1).
  destruct (mapM_tickets (Optimized.resumeHit env) (HitResumed env)
              (resumeHit_step env) started st1)
    as (progress & st2 & t2 & -> & Hu2 & Hlen2 & H2 & Hmono2 & Hrange2).
  destruct (mapM_tickets (Optimized.resumePending env) (PendingResumed env)
              (resumePending_step env) progress st2)
    as (results & st3 & t3 & -> & Hu3 & Hlen3 & H3 & Hmono3 & Hrange3).
  set (uuidOf := fun i : nat =>
         match t2 !! i with
         | Some (Some n) => n
         | _ => match t3 !! i with Some (Some m) => m | _ => O end
         end).
  (* What each position goes through. *)
  assert (Hkind : forall i videoId,
    videoIds !! i = Some videoId ->
    exists r,
      results !! i = Some r
      /\ ((Optimized.validateVideoId videoId = false
           /\ r = Rejected (invalidItem videoId))
          \/ (Optimized.validateVideoId videoId = true
              /\ exists info item,
                   metadataFor env st videoIds i videoId = Fulfilled info
                   /\ r = Fulfilled item
                   /\ QueuedFor env videoId info (uuidOf i) item
                   /\ ((t2 !! i = Some (Some (uuidOf i))
                        /\ (uuids st1 <= uuidOf i < uuids st2)%nat)
                       \/ (t3 !! i = Some (Some (uuidOf i))
                           /\ (uuids st2 <= uuidOf i < uuids st3)%nat)))
          \/ (Optimized.validateVideoId videoId = true
              /\ exists err,
                   metadataFor env st videoIds i videoId = Rejected err
                   /\ r = Rejected err))).
  { intros i videoId Hi. specialize (H1 i videoId Hi).
    destruct (H2 i _ H1) as (p & tk2 & Hp & Htk2 & HR2).
    destruct (H3 i p Hp) as (r & tk3 & Hr & Htk3 & HR3).
    exists r. split; [exact Hr|]. unfold metadataFor, uuidOf.
    rewrite Htk2, Htk3.
    destruct (Optimized.validateVideoId videoId) eqn:Hvalid.
    - right. destruct (freshHit videoId st) as [info|] eqn:Hhit.
      + (* answered by the cache *)
        destruct tk2 as [n|]; [|contradiction].
        destruct HR2 as (item & -> & Hq).
        destruct tk3 as [m|]; [contradiction|]. simpl in HR3. subst r.
        left. split; [reflexivity|]. exists info, item.
        repeat split; try done. left. split; [reflexivity|].
        by apply (Hrange2 i).
      + (* answered by the resolver *)
        destruct tk2 as [n|]; [contradiction|]. simpl in HR2. subst p.
        destruct tk3 as [m|].
        * destruct HR3 as (info & item & Hinfo & -> & Hq).
          left. split; [reflexivity|]. exists info, item.
          repeat split; try done. right. split; [reflexivity|].
          by apply (Hrange3 i).
        * destruct HR3 as (err & Herr & ->).
          right. split; [reflexivity|]. by exists err.
    - left. split; [reflexivity|].
      destruct tk2 as [n|]; [contradiction|]. simpl in HR2. subst p.
      destruct tk3 as [m|]; [contradiction|]. exact HR3. }
  exists results, st3, uuidOf. split; [reflexivity|].
  split; [congruence|]. split.
  - intros i videoId Hi.
    destruct (Hkind i videoId Hi)
      as (r & Hr & [[Hvalid ->]|[(Hvalid & info & item & Hinfo & -> & Hq & Hn)
                               |(Hvalid & err & Herr & ->)]]).
    + exists (Rejected (invalidItem videoId)). split; [exact Hr|].
      by rewrite Hvalid.
    + exists (Fulfilled item). split; [exact Hr|]. split; [exact Hvalid|].
      exists info. split; [exact Hinfo|]. split; [exact Hq|].
      destruct Hn as [[_ Hn]|[_ Hn]]; lia.
    + exists (Rejected err). split; [exact Hr|]. by rewrite Hvalid.
  - assert (Hsuccess : forall i item,
      results !! i = Some (Fulfilled item) ->
      (t2 !! i = Some (Some (uuidOf i))
       /\ (uuids st1 <= uuidOf i < uuids st2)%nat)
      \/ (t3 !! i = Some (Some (uuidOf i))
          /\ (uuids st2 <= uuidOf i < uuids st3)%nat)).
    { intros i item Hi.
      assert (Hlt : (i < length videoIds)%nat).
      { apply lookup_lt_Some in Hi. congruence. }
      destruct (lookup_lt_is_Some_2 videoIds i Hlt) as [videoId Hid].
      destruct (Hkind i videoId Hid)
        as (r & Hr & [[_ ->]|[(_ & info & item' & _ & -> & _ & Hn)
                             |(_ & err & _ & ->)]]);
        rewrite Hi in Hr; try discriminate.
      exact Hn. }
    assert (Hordered : forall i j item item',
      (i < j)%nat ->
      results !! i = Some (Fulfilled item) ->
      results !! j = Some (Fulfilled item') ->
      uuidOf i <> uuidOf j).
    { intros i j item item' Hlt Hi Hj.
      destruct (Hsuccess i item Hi) as [[Hti Hni]|[Hti Hni]];
        destruct (Hsuccess j item' Hj) as [[Htj Hnj]|[Htj Hnj]].
      - pose proof (Hmono2 i j _ _ Hlt Hti Htj). lia.
      - lia.
      - lia.
      - pose proof (Hmono3 i j _ _ Hlt Hti Htj). lia. }
    intros i j item item' Hi Hj Heq.
    destruct (Nat.lt_trichotomy i j) as [Hlt|[->|Hlt]]; [|reflexivity|].
    + by destruct (Hordered i j item item' Hlt Hi Hj).
    + destruct (Hordered j i item' item Hlt Hj Hi). by symmetry.
Qed.

(** The state a batch leaves is the state its items leave; the answer only
    touches the response. *)
Lemma batchDownload_state (env : Env) (videoIds : list jsstring) (st : State) :
  (1 <= length videoIds <= 10)%nat ->
  let after :=
    snd (Optimized.handle env (Optimized.PostBatchDownload (Some videoIds)) st)
  in
  let settled :=
    snd (Optimized.allSettledItems env videoIds (withFreshRes st)) in
  effects after = effects settled /\ uuids after = uuids settled.
Proof.
  intros Hlen.
  unfold Optimized.handle, serve. fold (withFreshRes st). cbn [snd].
  unfold Optimized.handler, Optimized.batchDownload.
  destruct (Nat.eqb_spec (length videoIds) 0) as [|_]; [lia|].
  destruct (Nat.ltb_spec 10 (length videoIds)) as [|_]; [lia|].
  destruct (allSettledItems_total env videoIds (withFreshRes st))
    as (results & st' & Hrun & _).
  unfold tryCatch, bind. rewrite Hrun. by split.
Qed.

Lemma allSettledItems_calls (env : Env) (videoIds : list jsstring)
  (st : State) :
  resolverCalls (snd (Optimized.allSettledItems env videoIds st))
  = (resolverCalls st + length (unanswered st videoIds))%nat.
Proof.
  unfold Optimized.allSettledItems, bind.
  pose proof (mapM_startItem_calls videoIds st) as (_ & _ & Hn).
  destruct (Optimized.mapM Optimized.startItem videoIds st)
    as [[started|err] st1]; cbn [snd] in Hn |- *; [|exact Hn].
  pose proof (free_calls _ st1 (free_mapM _ started (free_resumeHit env)))
    as Hn2.
  destruct (Optimized.mapM (Optimized.resumeHit env) started st1)
    as [[progress|err] st2]; cbn [snd] in Hn2 |- *; [|lia].
  pose proof (free_calls _ st2 (free_mapM _ progress (free_resumePending env)))
    as Hn3.
  lia.
Qed.

(** X10.  What a batch answers, whatever the body holds.  Without a list,
    with an empty one or with more than ten identifiers it answers 400 with
    the matching message and neither list, before any resolver or cache
    access.  Otherwise it answers 200 [batch_queued] and every position of
    the list is settled once: fulfilled when its identifier is well-formed
    and its metadata came, rejected as [Invalid video ID: ...] when the
    identifier is malformed, rejected with the error of its metadata
    otherwise.  [successful] holds the values of the fulfilled positions in
    order, the [error] fields of [failed] are the reasons of the rejected
    positions in order, and the two lengths add up to [total], the number
    submitted.  The identifiers [failed] gives are not part of this. *)
Theorem batch_accounts_for_every_identifier (env : Env)
  (videoIds : option (list jsstring)) (st : State) :
  let answer :=
    fst (Optimized.handle env (Optimized.PostBatchDownload videoIds) st) in
  let after :=
    snd (Optimized.handle env (Optimized.PostBatchDownload videoIds) st) in
  let refused (reason : string) :=
    statusCode answer = 400
    /\ bodyField "error" answer = Some (jstr reason)
    /\ arrayField "successful" answer = None
    /\ arrayField "failed" answer = None
    /\ Quiet st after in
  match videoIds with
  | None | Some [] => refused "videoIds array is required"
  | Some ids =>
      if (10 <? length ids)%nat then refused "Maximum 10 videos per batch"
      else
        statusCode answer = 200
        /\ bodyField "status" answer = Some (jstr "batch_queued")
        /\ bodyField "total" answer = Some (JV (JNum (Z.of_nat (length ids))))
        /\ exists results failed,
             length results = length ids
             /\ (forall i videoId,
                   ids !! i = Some videoId ->
                   exists r,
                     results !! i = Some r
                     /\ match r with
                        | Fulfilled _ =>
                            Optimized.validateVideoId videoId = true
                            /\ exists info,
                                 metadataFor env st ids i videoId
                                 = Fulfilled info
                        | Rejected reason =>
                            if Optimized.validateVideoId videoId
                            then metadataFor env st ids i videoId
                                 = Rejected reason
                            else reason = invalidItem videoId
                        end)
             /\ arrayField "successful" answer
                = Some (omap Optimized.fulfilledValue results)
             /\ arrayField "failed" answer = Some failed
             /\ omap (jsonField "error") failed
                = map (fun reason => JV (JStr (message reason)))
                    (omap Optimized.rejectedReason results)
             /\ (length (omap Optimized.fulfilledValue results)
                 + length failed)%nat
                = length ids
  end.
Proof.
  cbv zeta.
  assert (Hrefused : forall ids : option (list jsstring),
    match ids with
    | None => True
    | Some l => l = [] \/ (10 < length l)%nat
    end ->
    statusCode (fst (Optimized.handle env (Optimized.PostBatchDownload ids) st))
    = 400
    /\ bodyField "error"
         (fst (Optimized.handle env (Optimized.PostBatchDownload ids) st))
       = Some (jstr (match ids with
                     | Some (_ :: _) => "Maximum 10 videos per batch"
                     | _ => "videoIds array is required"
                     end))
    /\ arrayField "successful"
         (fst (Optimized.handle env (Optimized.PostBatchDownload ids) st))
       = None
    /\ arrayField "failed"
         (fst (Optimized.handle env (Optimized.PostBatchDownload ids) st))
       = None
    /\ Quiet st
         (snd (Optimized.handle env (Optimized.PostBatchDownload ids) st))).
  { intros ids Hbad.
    destruct (batchDownload_refused env ids st Hbad) as (Hs & He & Hq).
    split; [exact Hs|]. split; [exact He|]. split; [|split; [|exact Hq]].
    all: destruct ids as [l|]; [|reflexivity].
    all: destruct Hbad as [->|Hlong]; [reflexivity|].
    all: unfold arrayField, bodyField, Optimized.handle, serve,
           Optimized.handler, Optimized.batchDownload.
    all: destruct l as [|id l]; [simpl in Hlong; lia|].
    all: change (length (id :: l) =? 0)%nat with false; cbv iota.
    all: destruct (Nat.ltb_spec 10 (length (id :: l))) as [_|]; [|lia].
    all: reflexivity. }
  destruct videoIds as [[|first rest]|].
  - apply (Hrefused (Some [])). by left.
  - destruct (Nat.ltb_spec 10 (length (first :: rest))) as [Hlong|Hshort].
    + apply (Hrefused (Some (first :: rest))). by right.
    + set (ids := first :: rest) in *.
      assert (Hlen : (1 <= length ids <= 10)%nat) by (simpl in *; lia).
      destruct (batchDownload_response env ids st Hlen)
        as (results & Hrun & ->).
      destruct (allSettledItems_positions env ids (withFreshRes st))
        as (results' & st' & uuidOf & Hrun' & Hlength & Hpos & _).
      rewrite Hrun' in Hrun. injection Hrun as ->.
      split; [reflexivity|]. split; [reflexivity|]. split; [reflexivity|].
      exists results, (Optimized.failedOf ids results).
      split; [exact Hlength|]. split.
      { intros i videoId Hi. destruct (Hpos i videoId Hi) as (r & Hr & Hcase).
        exists r. split; [exact Hr|].
        rewrite metadataFor_withFreshRes in Hcase.
        destruct r as [item|reason]; [|exact Hcase].
        destruct Hcase as (Hvalid & info & Hinfo & _). eauto. }
      split; [reflexivity|]. split; [reflexivity|].
      split; [apply failedOf_errors|].
      unfold Optimized.failedOf. rewrite length_imap.
      pose proof (settled_partition results) as Hsum.
      unfold Optimized.successfulOf in Hsum. lia.
  - by apply (Hrefused None).
Qed.

(** X11.  In an accepted batch of strings the [successful] list, unlike the
    [failed] one, names the right identifiers.  A position that is fulfilled
    holds the record of the identifier submitted at that position, which is
    well-formed: the identifier, the title of the metadata that position got
    (the fresh cache entry, or the answer to its own resolver call), the file
    name made of the sanitized title, an underscore, the first eight code
    units of a [uuidv4] result and [.mp3], the path of that file under
    [/downloads/], and the status [queued].  The [uuidv4] result is fresh: it
    was handed out during this batch, and to no other position of it.  The
    list holds these records in the order of submission, so its identifiers
    are a subsequence of the submitted ones. *)
Theorem batch_successes_name_their_identifiers (env : Env)
  (videoIds : list jsstring) (st : State) :
  (1 <= length videoIds <= 10)%nat ->
  let run := Optimized.allSettledItems env videoIds (withFreshRes st) in
  exists results (uuidOf : nat -> nat),
    fst run = Fulfilled results
    /\ arrayField "successful"
         (fst (Optimized.handle env
                 (Optimized.PostBatchDownload (Some videoIds)) st))
       = Some (omap Optimized.fulfilledValue results)
    /\ uuids
         (snd (Optimized.handle env
                 (Optimized.PostBatchDownload (Some videoIds)) st))
       = uuids (snd run)
    /\ (forall i item,
          results !! i = Some (Fulfilled item) ->
          exists videoId info,
            videoIds !! i = Some videoId
            /\ Optimized.validateVideoId videoId = true
            /\ metadataFor env st videoIds i videoId = Fulfilled info
            /\ QueuedFor env videoId info (uuidOf i) item
            /\ (uuids st <= uuidOf i < uuids (snd run))%nat)
    /\ (forall i j item item',
          results !! i = Some (Fulfilled item) ->
          results !! j = Some (Fulfilled item') ->
          uuidOf i = uuidOf j -> i = j)
    /\ sublist
         (omap (jsonField "videoId") (omap Optimized.fulfilledValue results))
         (map (fun videoId => JV (JStr videoId)) videoIds).
Proof.
  intros Hlen run. subst run.
  destruct (allSettledItems_positions env videoIds (withFreshRes st))
    as (results & st' & uuidOf & Hrun & Hlength & Hpos & Hfresh).
  destruct (batchDownload_response env videoIds st Hlen)
    as (results' & Hrun' & Hresp).
  destruct (batchDownload_state env videoIds st Hlen) as [_ Huuids].
  rewrite Hrun in Hrun', Huuids |- *. injection Hrun' as <-.
  cbn [fst snd] in *.
  exists results, uuidOf. split; [reflexivity|].
  split; [by rewrite Hresp|]. split; [exact Huuids|].
  assert (Hat : forall i item,
    results !! i = Some (Fulfilled item) ->
    exists videoId info,
      videoIds !! i = Some videoId
      /\ Optimized.validateVideoId videoId = true
      /\ metadataFor env st videoIds i videoId = Fulfilled info
      /\ QueuedFor env videoId info (uuidOf i) item
      /\ (uuids st <= uuidOf i < uuids st')%nat).
  { intros i item Hi.
    assert (Hlt : (i < length videoIds)%nat).
    { apply lookup_lt_Some in Hi. congruence. }
    destruct (lookup_lt_is_Some_2 videoIds i Hlt) as [videoId Hid].
    destruct (Hpos i videoId Hid) as (r & Hr & Hcase).
    rewrite Hi in Hr. injection Hr as <-.
    destruct Hcase as (Hvalid & info & Hinfo & Hq & Hn).
    rewrite metadataFor_withFreshRes in Hinfo.
    exists videoId, info. repeat split; try done; simpl in Hn; lia. }
  split; [exact Hat|]. split; [exact Hfresh|].
  clear Hrun Hresp Huuids Hpos Hfresh.
  assert (Hnamed : Forall2
    (fun videoId r =>
       forall item, r = Fulfilled item ->
         jsonField "videoId" item = Some (JV (JStr videoId)))
    videoIds results).
  { apply Forall2_same_length_lookup. split; [by symmetry|].
    intros i videoId r Hid Hr item ->.
    destruct (Hat i item Hr) as (videoId' & info & Hid' & _ & _ & Hq & _).
    rewrite Hid in Hid'. injection Hid' as <-.
    unfold QueuedFor in Hq. cbv zeta in Hq. by rewrite Hq. }
  clear -Hnamed. induction Hnamed as [|videoId r ids results Hr _ IH];
    [constructor|].
  destruct r as [item|reason]; cbn.
  - rewrite (Hr item eq_refl). cbn. by apply sublist_skip.
  - by apply sublist_cons.
Qed.

Lemma batch_successes_name_their_identifiers_witness :
  let ids := [Sample.badId; Sample.goodId; Sample.otherId] in
  let run :=
    Optimized.allSettledItems Sample.steady ids
      (withFreshRes (Optimized.initial 0)) in
  let answer :=
    Optimized.handle Sample.steady (Optimized.PostBatchDownload (Some ids))
      (Optimized.initial 0) in
  exists results (uuidOf : nat -> nat),
    fst run = Fulfilled results
    /\ arrayField "successful" (fst answer)
       = Some (omap Optimized.fulfilledValue results)
    /\ uuids (snd answer) = uuids (snd run)
    /\ (forall i item,
          results !! i = Some (Fulfilled item) ->
          exists videoId info,
            ids !! i = Some videoId
            /\ Optimized.validateVideoId videoId = true
            /\ metadataFor Sample.steady (Optimized.initial 0) ids i videoId
               = Fulfilled info
            /\ QueuedFor Sample.steady videoId info (uuidOf i) item
            /\ (uuids (Optimized.initial 0) <= uuidOf i < uuids (snd run))%nat)
    /\ (forall i j item item',
          results !! i = Some (Fulfilled item) ->
          results !! j = Some (Fulfilled item') ->
          uuidOf i = uuidOf j -> i = j)
    /\ sublist
         (omap (jsonField "videoId") (omap Optimized.fulfilledValue results))
         (map (fun videoId => JV (JStr videoId)) ids).
Proof.
  exact (batch_successes_name_their_identifiers Sample.steady
           [Sample.badId; Sample.goodId; Sample.otherId] (Optimized.initial 0)
           ltac:(simpl; lia)).
Defined.

(** ** The retry policy, call site by call site *)

(** C3 (as amended).  For a well-formed identifier: the basic server's
    streaming download makes between one and three resolver attempts, as many
    as it takes to get an answer, with a pause of 2000 ms between two attempts
    and nothing else; its info and formats endpoints make exactly one attempt
    and answer 404 with the resolver's message when it fails.  In the
    optimized server no call site retries.  The streaming download, the
    direct-link, info and formats endpoints make at most one attempt, none
    when the cache answers, and never pause; a failed attempt is answered at
    once, 500 on the download and direct-link endpoints and 404 on the info
    and formats endpoints, with the resolver's message.  An accepted batch
    makes exactly one attempt for each of its items that is well-formed and
    not answered by the cache, none for the others, and never pauses; an
    item whose attempt fails is rejected with the resolver's error and
    reported by a failure record with the resolver's message, in a batch
    answered 200. *)
Theorem retry_policy_by_call_site (env : Env) (videoId : jsstring)
  (bitrate : option jsstring) (st : State) :
  Optimized.validateVideoId videoId = true ->
  let videoUrl := watchUrl videoId in
  let k := Spec.attemptsMade env videoUrl 3 (resolverCalls st) in
  ((1 <= k <= 3)%nat
   /\ added st (snd (serve (Basic.downloadMp3 env videoId) st))
      = Spec.attemptsTrace videoUrl 2000 k)
  /\ (added st (snd (serve (Basic.videoInfo env videoId) st))
      = [Resolve videoUrl]
      /\ added st (snd (serve (Basic.formatsOf env videoId) st))
         = [Resolve videoUrl])
  /\ (forall err,
        snd (ytdl_getInfo env (resolverCalls st) videoUrl) = Rejected err ->
        statusCode (fst (serve (Basic.videoInfo env videoId) st)) = 404
        /\ statusCode (fst (serve (Basic.formatsOf env videoId) st)) = 404)
  /\ (forall r,
        r ∈ [Optimized.GetDirectLink videoId;
             Optimized.GetDownloadMp3 videoId bitrate;
             Optimized.GetVideoInfo videoId;
             Optimized.GetFormats videoId] ->
        AtMost 1 (Optimized.handler env r))
  /\ (forall videoIds,
        AtMost (length videoIds)
          (Optimized.handler env (Optimized.PostBatchDownload (Some videoIds))))
  /\ (forall err,
        freshHit videoId st = None ->
        snd (ytdl_getInfo env (resolverCalls st) videoUrl) = Rejected err ->
        let failed code msg :=
          {| statusCode := code; headers := jsonHeaders env [];
             jsonBody := Some (errorWithDetails msg err); piped := None |} in
        fst (Optimized.handle env (Optimized.GetDirectLink videoId) st)
        = failed 500 "Failed to get direct link"
        /\ fst (Optimized.handle env
                  (Optimized.GetDownloadMp3 videoId bitrate) st)
           = failed 500 "Download failed"
        /\ fst (Optimized.handle env (Optimized.GetVideoInfo videoId) st)
           = failed 404 "Video not found"
        /\ fst (Optimized.handle env (Optimized.GetFormats videoId) st)
           = failed 404 "Video not found")
  /\ (forall r info,
        r ∈ [Optimized.GetDirectLink videoId;
             Optimized.GetDownloadMp3 videoId bitrate;
             Optimized.GetVideoInfo videoId;
             Optimized.GetFormats videoId] ->
        freshHit videoId st = Some info ->
        resolvesOf (added st (snd (Optimized.handle env r st))) = [])
  /\ (forall videoIds,
        (1 <= length videoIds <= 10)%nat ->
        let answer :=
          Optimized.handle env (Optimized.PostBatchDownload (Some videoIds)) st
        in
        resolverCalls (snd answer)
        = (resolverCalls st + length (unanswered st videoIds))%nat
        /\ sleepsOf (effects (snd answer)) = sleepsOf (effects st)
        /\ forall i err,
             videoIds !! i = Some videoId ->
             metadataFor env st videoIds i videoId = Rejected err ->
             statusCode (fst answer) = 200
             /\ exists results failed record,
                  fst (Optimized.allSettledItems env videoIds
                         (withFreshRes st))
                  = Fulfilled results
                  /\ results !! i = Some (Rejected err)
                  /\ arrayField "failed" (fst answer) = Some failed
                  /\ failed
                       !! length (omap Optimized.rejectedReason
                                    (take i results))
                     = Some record
                  /\ jsonField "error" record
                     = Some (JV (JStr (message err)))).
Proof.
  intros Hvalid videoUrl k. subst videoUrl k.
  split; [|split; [|split; [|split; [|split; [|split; [|split]]]]]].
  - split; [apply attemptsMade_bounds; lia|].
    by apply Basic_downloadMp3_attempts.
  - split; [apply Basic_videoInfo_run | apply Basic_formatsOf_run].
  - intros err Herr.
    destruct (Basic_videoInfo_run env videoId st) as [_ Hinfo].
    destruct (Basic_formatsOf_run env videoId st) as [_ Hformats].
    by rewrite (Hinfo _ Herr), (Hformats _ Herr).
  - intros r Hr.
    repeat (apply elem_of_cons in Hr as [->|Hr]);
      [.. | by apply elem_of_nil in Hr]; simpl.
    + apply once_directLink.
    + apply once_downloadMp3.
    + apply once_videoInfo.
    + apply once_formatsOf.
  - intros videoIds. apply atMost_batchDownload.
  - intros err Hmiss Herr. by apply optimized_failure_surfaces.
  - intros r info Hr Hhit.
    rewrite (resolves_of_handler env videoId bitrate r st Hvalid Hr).
    rewrite getCachedVideoInfo_run, freshHit_withFreshRes, Hhit. cbn [snd].
    by rewrite (added_of st _ [CacheRead videoId]).
  - intros videoIds Hlen answer. subst answer.
    destruct (batchDownload_state env videoIds st Hlen) as [Heffects _].
    split; [|split].
    + unfold resolverCalls at 1. rewrite Heffects.
      fold (resolverCalls
              (snd (Optimized.allSettledItems env videoIds (withFreshRes st)))).
      rewrite allSettledItems_calls, resolverCalls_withFreshRes.
      by rewrite (unanswered_same st (withFreshRes st)).
    + destruct (atMost_batchDownload env videoIds (withFreshRes st))
        as [_ Hsleeps].
      exact Hsleeps.
    + intros i err Hi Herr.
      destruct (batchDownload_response env videoIds st Hlen)
        as (results & Hrun & Hresp).
      destruct (allSettledItems_positions env videoIds (withFreshRes st))
        as (results' & st' & uuidOf & Hrun' & _ & Hpos & _).
      rewrite Hrun' in Hrun. injection Hrun as ->.
      destruct (Hpos i videoId Hi) as (r & Hr & Hcase).
      rewrite metadataFor_withFreshRes, Herr, Hvalid in Hcase.
      destruct r as [item|reason].
      { by destruct Hcase as (_ & info & Hinfo & _). }
      injection Hcase as <-.
      destruct (failedOf_rejected videoIds results i err Hr)
        as (record & Hrecord & Herror).
      rewrite Hresp. split; [reflexivity|].
      exists results, (Optimized.failedOf videoIds results), record.
      split; [by rewrite Hrun'|]. by repeat split.
Qed.

Lemma retry_policy_by_call_site_witness :
  Optimized.validateVideoId Sample.goodId = true
  /\ added (Optimized.initial 0)
       (snd (serve (Basic.downloadMp3 Sample.flaky Sample.goodId)
               (Optimized.initial 0)))
     = [Resolve (watchUrl Sample.goodId); Sleep 2000;
        Resolve (watchUrl Sample.goodId)]
  /\ statusCode
       (fst (Optimized.handle Sample.flaky
               (Optimized.GetVideoInfo Sample.goodId) (Optimized.initial 0)))
     = 404
  /\ resolverCalls
       (snd (Optimized.handle Sample.flaky
               (Optimized.PostBatchDownload
                  (Some [Sample.goodId; Sample.goodId]))
               (Optimized.initial 0)))
     = 2%nat
  /\ exists results failed record,
       fst (Optimized.allSettledItems Sample.flaky
              [Sample.goodId; Sample.goodId]
              (withFreshRes (Optimized.initial 0)))
       = Fulfilled results
       /\ results !! 0%nat = Some (Rejected Sample.tooManyRequests)
       /\ arrayField "failed"
            (fst (Optimized.handle Sample.flaky
                    (Optimized.PostBatchDownload
                       (Some [Sample.goodId; Sample.goodId]))
                    (Optimized.initial 0)))
          = Some failed
       /\ failed !! length (omap Optimized.rejectedReason (take 0 results))
          = Some record
       /\ jsonField "error" record
          = Some (JV (JStr (str "Status code: 429"))).
Proof.
  assert (Hvalid : Optimized.validateVideoId Sample.goodId = true)
    by (vm_compute; reflexivity).
  split; [exact Hvalid|].
  destruct (retry_policy_by_call_site Sample.flaky Sample.goodId None
              (Optimized.initial 0) Hvalid)
    as ((_ & Htrace) & _ & _ & _ & _ & Hfail & _ & Hbatch).
  split; [exact Htrace|].
  split.
  { destruct (Hfail Sample.tooManyRequests) as (_ & _ & Hinfo & _);
      [vm_compute; reflexivity .. |].
    by rewrite Hinfo. }
  destruct (Hbatch [Sample.goodId; Sample.goodId] ltac:(simpl; lia))
    as (Hcalls & _ & Hitem).
  split; [exact Hcalls|].
  destruct (Hitem 0%nat Sample.tooManyRequests eq_refl
              ltac:(vm_compute; reflexivity)) as [_ Hrecord].
  exact Hrecord.
Defined.

(** C3, the claim as it is written, fails: the optimized server's streaming
    download does not retry.  With a resolver whose first call fails and whose
    second would answer, it makes one call, never pauses, and answers 500 with
    the message of the failure. *)
Lemma optimized_download_does_not_retry :
  let st := Optimized.initial 0 in
  let outcome :=
    Optimized.handle Sample.flaky
      (Optimized.GetDownloadMp3 Sample.goodId None) st in
  snd (ytdl_getInfo Sample.flaky 1 (watchUrl Sample.goodId))
  = Fulfilled Sample.info
  /\ effects (snd outcome)
     = [CacheRead Sample.goodId; Resolve (watchUrl Sample.goodId)]
  /\ statusCode (fst outcome) = 500
  /\ bodyField "details" (fst outcome)
     = Some (JV (JStr (str "Status code: 429")))
  /\ piped (fst outcome) = None.
Proof. cbv zeta. repeat split; vm_compute; reflexivity. Qed.
